(** * T2 gulp synchroniser and decision engine (dsa110/dsa-T2, [T2/socket.py])

    A shallow embedding of [parse_socket], [cluster_and_plot] and
    [gulp_status], with the properties of the multi-source gulp
    synchronisation protocol and of the trigger decision engine.

    Conventions.
    - A payload is the text that [recvall(cl, 100000000).decode("utf-8")]
      yields for one accepted connection, as a [string] of bytes.  Splitting
      on the newline byte and testing a piece for emptiness give the same
      answers on the UTF-8 bytes as on the decoded code points.  A read that
      raises, because the bytes do not decode or the read is interrupted, is
      a connection whose outcome is that exception.
    - Python's builtin [int] is a parameter of the development
      ([int_of_str]): every theorem holds for whatever strings [int] accepts.
      [py_int] is its ASCII fragment, used to run the model on examples.
    - The functions of [T2.cluster_heimdall], the shared store [ds], the
      socket layer and the clock are collaborators, and so are the two table
      operations of lines 348 and 354: their results enter as the fields of
      an environment, one per iteration of the loop, and their invocations
      leave events in a log.  A collaborator either returns or
      raises, and an exception that no handler of [socket.py] catches ends
      [parse_socket].
    - The writes to the shared store, [socket.socket], [listen], [close] and
      [accept] (its interrupt apart) are taken to return: an exception or an
      interrupt inside one of them is outside the model.
    - Left out, as nothing in the control flow reads them: the calls to
      [print] and [logger] (but for the message of a failed bind), the
      [close] of the accepted client sockets, and the threshold look-ups of
      lines 241-280, which only feed [filter_clustered].
    - Modelled on their own, apart from the loop: [recvall] on a connection
      given as its chunks ([Stream]), the minimum DM of lines 256-271
      ([Thresholds]) and the beam numbering of [scripts/dsa_injection.py]
      ([Injection]). *)

From Stdlib Require Import ZArith QArith List Ascii String Lia Bool.
From Stdlib Require Import PrimFloat Uint63.
From Stdlib Require FloatAxioms SpecFloat.
From stdpp Require Import base gmap strings list.

Open Scope string_scope.
Open Scope list_scope.
Open Scope Z_scope.

(** ** Python strings *)

Module PyStr.

Definition nl : ascii := "010"%char.
Definition NL : string := String nl EmptyString.

(** [gulp, *lines = cf.split("\n")]: the first piece and the list of the
    pieces after it.  [str.split] with a separator never returns an empty
    list, so the starred unpacking cannot fail. *)
Fixpoint split_first (cf : string) : string * list string :=
  match cf with
  | EmptyString => (EmptyString, [])
  | String c rest =>
      let '(w, ws) := split_first rest in
      if Ascii.eqb c nl then (EmptyString, w :: ws) else (String c w, ws)
  end.

(** [cf.split("\n")] as a list. *)
Definition split (cf : string) : list string :=
  let '(w, ws) := split_first cf in w :: ws.

(** ["\n".join(lines)] *)
Fixpoint join (lines : list string) : string :=
  match lines with
  | [] => EmptyString
  | [x] => x
  | x :: rest => x +:+ NL +:+ join rest
  end.

(** No newline byte occurs in [s]. *)
Fixpoint no_nl (s : string) : bool :=
  match s with
  | EmptyString => true
  | String c rest => negb (Ascii.eqb c nl) && no_nl rest
  end.

(** [s.strip() == ""] : only whitespace (or nothing at all). *)
Definition is_space (c : ascii) : bool :=
  let n := nat_of_ascii c in
  ((9 <=? n)%nat && (n <=? 13)%nat) || ((28 <=? n)%nat && (n <=? 32)%nat).

Fixpoint blank (s : string) : bool :=
  match s with
  | EmptyString => true
  | String c rest => is_space c && blank rest
  end.

(** A string that is empty or begins with something other than a newline. *)
Definition starts_clean (s : string) : Prop :=
  match s with
  | EmptyString => True
  | String c _ => c <> nl
  end.

(** *** The ASCII fragment of [int(str)], base 10

    On a text of ASCII characters [int] skips the whitespace of C, the
    characters 9 to 13 and the space, around the number; it does not skip
    the separators 28 to 31, which [str.strip] removes.  It takes an
    optional sign and decimal digits with single underscores between them,
    and since Python 3.11 it refuses more than 4300 digits.  Digits outside
    ASCII, which [int] also accepts, are outside this fragment. *)

Definition is_int_space (c : ascii) : bool :=
  let n := nat_of_ascii c in
  ((9 <=? n)%nat && (n <=? 13)%nat) || (n =? 32)%nat.

Definition max_str_digits : nat := 4300.

Definition digit_val (c : ascii) : option Z :=
  let n := nat_of_ascii c in
  if ((48 <=? n)%nat && (n <=? 57)%nat)%bool then Some (Z.of_nat (n - 48)) else None.

Definition is_some_Z (o : option Z) : bool :=
  match o with Some _ => true | None => false end.

(** Digits with single underscores between them; [prev] tells whether the
    previous character was a digit. *)
Fixpoint digits (acc : Z) (prev : bool) (l : list ascii) : option Z :=
  match l with
  | [] => if prev then Some acc else None
  | c :: r =>
      if Ascii.eqb c "_"%char then (if prev then digits acc false r else None)
      else match digit_val c with
           | Some d => digits (10 * acc + d) true r
           | None => None
           end
  end.

Fixpoint lstrip (l : list ascii) : list ascii :=
  match l with
  | c :: r => if is_int_space c then lstrip r else l
  | [] => []
  end.

Definition strip (l : list ascii) : list ascii := rev (lstrip (rev (lstrip l))).

(** [Some n] when [int(s)] returns [n], [None] when it raises [ValueError]. *)
Definition py_int (s : string) : option Z :=
  let l := strip (list_ascii_of_string s) in
  if (max_str_digits <? length (List.filter (fun c => is_some_Z (digit_val c)) l))%nat
  then None
  else
    match l with
    | c :: r =>
        if Ascii.eqb c "-"%char then Z.opp <$> digits 0 false r
        else if Ascii.eqb c "+"%char then digits 0 false r
        else digits 0 false (c :: r)
    | [] => None
    end.

End PyStr.

Import PyStr.

(** ** Exceptions, results and the data model *)

Inductive exn : Type :=
| OSError | KeyboardInterrupt | OverflowError | ValueError | KeyError
| IndexError | OtherError | UnicodeDecodeError.

Inductive res (A : Type) : Type :=
| Ok (a : A)
| Raise (e : exn).
Arguments Ok {A} a.
Arguments Raise {A} e.

(** A listening endpoint: the socket object created for a port.  Two objects
    created at different times differ in [sock_id]. *)
Record sock : Type := { sock_port : Z; sock_id : nat }.

(** A value of a float column: a finite number, kept as the rational it
    denotes, an infinity, or NaN. *)
Inductive npval : Type :=
| VNaN
| VNegInf
| VNum (q : Q)
| VPosInf.

(** [a <= b] and [a == b] on floats: both are false as soon as one side is
    NaN. *)
Definition np_le (a b : npval) : bool :=
  match a, b with
  | VNaN, _ | _, VNaN => false
  | VNegInf, _ => true
  | _, VPosInf => true
  | VNum p, VNum q => Qle_bool p q
  | _, _ => false
  end.

Definition np_eq (a b : npval) : bool :=
  match a, b with
  | VNegInf, VNegInf => true
  | VPosInf, VPosInf => true
  | VNum p, VNum q => Qeq_bool p q
  | _, _ => false
  end.

(** One step of the reduction behind [ndarray.max]: the larger of the two,
    and NaN as soon as one of them is NaN. *)
Definition np_maximum (m y : npval) : npval :=
  match m, y with
  | VNaN, _ | _, VNaN => VNaN
  | _, _ => if np_le m y then y else m
  end.

(** A candidate row: the columns of the table that [cluster_and_plot] itself
    reads. *)
Record row : Type := { snr : npval; ibox : Z; ibeam : Z; cl : Z }.
Definition table : Type := list row.

Definition Time : Type := Z.
Definition name : Type := option string.

(** The float [np.sum(...) / float(len(...))]: the quotient of two counts,
    both far below 2^53 and so exact as floats.  [FQuot q] stands for the
    binary64 value nearest to the rational [q]; [0.0] is [FQuot 0]. *)
Inductive npfloat : Type :=
| FNaN
| FInf
| FQuot (q : Q).

Definition np_div (k n : nat) : npfloat :=
  match n with
  | O => match k with O => FNaN | S _ => FInf end
  | S _ => FQuot (Z.of_nat k # Pos.of_nat n)
  end.

(** The literal [0.85] is the binary64 value [0x1.b333333333333p-1], that is
    [d085 / 2^53] with an odd significand.  Rounding to nearest is monotone
    and a tie next to an odd significand rounds away from it, so the rounded
    quotient exceeds the literal exactly when the rational is at least the
    midpoint [(2 * d085 + 1) / 2^54] between the literal and its successor. *)
Definition d085 : Z := 7656119366529843.

Definition gt_085 (x : npfloat) : bool :=
  match x with
  | FNaN => false
  | FInf => true
  | FQuot q => Qle_bool ((2 * d085 + 1) # (2 ^ 54)) q
  end.

(** The same comparison on the kernel's binary64 floats. *)
Definition gt_085_binary64 (k n : nat) : bool :=
  PrimFloat.ltb 0x1.b333333333333p-1%float
    (PrimFloat.div (PrimFloat.of_uint63 (Uint63.of_Z (Z.of_nat k)))
                   (PrimFloat.of_uint63 (Uint63.of_Z (Z.of_nat n)))).

(** What the argument dictionaries of [ds.put_dict] hold, the clock apart. *)
Inductive put_value : Type :=
| Heartbeat (cadence : Z)
| GulpStatus (status t2_num : Z).

(** The arguments of [dump_cluster_results_json] that vary from gulp to gulp. *)
Record naming_args : Type := {
  na_trigger : bool;
  na_lastname : name;
  na_gulp : Z;
  na_nbeams : Z;
  na_frac_wide : npfloat;
  na_prev_trig_time : Time;
  na_min_timedelt : Z
}.

Inductive event : Type :=
| EvBind (s : sock) (ok : bool)        (* s.bind((host, port)) and its outcome *)
| EvListen (s : sock)                  (* s.listen(1) *)
| EvClose (s : sock)                   (* s.close() on a listening endpoint *)
| EvPrint (msg : string)
| EvPut (key : string) (v : put_value) (* ds.put_dict(key, v) *)
| EvParse (candsfile : string)         (* cluster_heimdall.parse_candsfile(candsfile) *)
| EvNaming (tab3 : table) (a : naming_args)  (* cluster_heimdall.dump_cluster_results_json *)
| EvOutput (tab2 : table).             (* cluster_heimdall.dump_cluster_results_heimdall *)

(** The [trigger] column written with the peak rows: on each row the name
    of the trigger it fired, or the integer 0, for which [None] stands. *)
Definition trigger_col : Type := list name.

(** [np.zeros(len(tab2), dtype=int)] *)
Definition zeros (n : nat) : trigger_col := repeat None n.

(** The collaborators of one cycle. *)
Record engine_env : Type := {
  parse_candsfile : string -> res table;
  cluster_data : table -> res table;     (* fills the cl column in place *)
  get_peak : table -> res table;
  get_nbeams : table -> res Z;
  filter_clustered : table -> res table; (* with the thresholds of t2_cnf and /cnf/t2 *)
  dump_cluster_results_json :
    table -> naming_args -> res (option table * name * option Time);
  where_trigger : table -> table -> name -> res trigger_col;
    (* line 348: np.where(tab4 == tab2, lastname, 0) *)
  set_trigger_col : table -> trigger_col -> res unit;
    (* line 354: tab2["trigger"] = col_trigger *)
  write_output : table -> trigger_col -> res unit
    (* lines 355-385: the .cand file and the aggregation *)
}.

Record env : Type := {
  bind_ok : sock -> bool;       (* does s.bind succeed for this new socket *)
  accept_interrupted : bool;    (* KeyboardInterrupt while waiting in accept *)
  payload : sock -> res string;
    (* recvall(cl, 100000000).decode("utf-8") on the connection accepted on s:
       the text, or the exception that the read or the decoding raises *)
  engine : engine_env
}.

(** The arguments of [parse_socket] that the control flow reads. *)
Record args : Type := {
  ports : list Z;
  outroot : option string;
  trigger : bool
}.

(** The variables of [parse_socket], the module-level [nbeams_queue] and the
    log of what was done so far. *)
Record state : Type := {
  ss : list sock;
  fresh : nat;
  prev_trig_time : Time;
  globct : nat;
  lastname : name;
  nbeams_queue : list Z;
  log : list event
}.

Definition add_log (e : event) (st : state) : state :=
  {| ss := ss st; fresh := fresh st; prev_trig_time := prev_trig_time st;
     globct := globct st; lastname := lastname st;
     nbeams_queue := nbeams_queue st; log := log st ++ [e] |}.

Definition set_ss (l : list sock) (st : state) : state :=
  {| ss := l; fresh := fresh st; prev_trig_time := prev_trig_time st;
     globct := globct st; lastname := lastname st;
     nbeams_queue := nbeams_queue st; log := log st |}.

Definition set_fresh (n : nat) (st : state) : state :=
  {| ss := ss st; fresh := n; prev_trig_time := prev_trig_time st;
     globct := globct st; lastname := lastname st;
     nbeams_queue := nbeams_queue st; log := log st |}.

Definition set_queue (q : list Z) (st : state) : state :=
  {| ss := ss st; fresh := fresh st; prev_trig_time := prev_trig_time st;
     globct := globct st; lastname := lastname st;
     nbeams_queue := q; log := log st |}.

Definition set_trigger_state (ln : name) (tt : option Time) (st : state) : state :=
  {| ss := ss st; fresh := fresh st;
     prev_trig_time := match tt with Some t => t | None => prev_trig_time st end;
     globct := S (globct st); lastname := ln;
     nbeams_queue := nbeams_queue st; log := log st |}.

(** ** A state and exception monad

    Effects that happened before an exception stay in the state. *)

Definition M (A : Type) : Type := state -> res A * state.

Definition ret {A} (a : A) : M A := fun st => (Ok a, st).
Definition raise {A} (e : exn) : M A := fun st => (Raise e, st).
Definition bnd {A B} (m : M A) (k : A -> M B) : M B :=
  fun st => match m st with
            | (Ok a, st') => k a st'
            | (Raise e, st') => (Raise e, st')
            end.
Definition lift {A} (r : res A) : M A := fun st => (r, st).
Definition emit (e : event) : M unit := fun st => (Ok tt, add_log e st).
Definition get {A} (f : state -> A) : M A := fun st => (Ok (f st), st).
Definition modify (f : state -> state) : M unit := fun st => (Ok tt, f st).

(** [try: m except: h]: the handler sees the exception and the state at the
    point where it was raised. *)
Definition catch {A} (m : M A) (h : exn -> M A) : M A :=
  fun st => match m st with
            | (Ok a, st') => (Ok a, st')
            | (Raise e, st') => h e st'
            end.

Declare Scope py_scope.
Delimit Scope py_scope with py.
Notation "x <~ m ;; k" := (bnd m (fun x => k))
  (at level 100, m at next level, k at level 200, right associativity) : py_scope.
Notation "m ;; k" := (bnd m (fun _ => k))
  (at level 100, k at level 200, right associativity) : py_scope.
Open Scope py_scope.

(** [for x in l: body(x)] *)
Fixpoint for_each {A} (l : list A) (body : A -> M unit) : M unit :=
  match l with
  | [] => ret tt
  | x :: rest => body x ;; for_each rest body
  end.

(** ** The beam-activity window: [nbeams_queue = deque(maxlen=10)] *)

(** [deque.append] of a bounded deque: the item goes to the right end and,
    once the length exceeds [maxlen], the leftmost item is dropped. *)
Definition deque_append (maxlen : nat) (x : Z) (q : list Z) : list Z :=
  let q' := q ++ [x] in
  if (maxlen <? length q')%nat then tl q' else q'.

Definition nbeams_maxlen : nat := 10.

Definition nbeams_queue_append (x : Z) : M unit :=
  modify (fun st => set_queue (deque_append nbeams_maxlen x (nbeams_queue st)) st).

Definition sum_queue (q : list Z) : Z := fold_left Z.add q 0.

(** ** The decision engine: [cluster_and_plot] *)

(** [tab["snr"].max()]: [ValueError] on an empty column, NaN when the column
    holds a NaN. *)
Definition col_max (l : list npval) : res npval :=
  match l with
  | [] => Raise ValueError
  | x :: r => Ok (fold_left np_maximum r x)
  end.

(** [tab["cl"][np.where(tab["snr"] == maxsnr)[0][0]]]: the cluster label of
    the first row that carries the maximum; [IndexError] when no row compares
    equal to it, as when it is NaN. *)
Definition cl_at_max (tab : table) (maxsnr : npval) : res Z :=
  match List.find (fun r => np_eq (snr r) maxsnr) tab with
  | Some r => Ok (cl r)
  | None => Raise IndexError
  end.

(** [tab["ibox"][tab["cl"] == cl_max]] *)
Definition cluster_ibox (tab : table) (cl_max : Z) : list Z :=
  map ibox (List.filter (fun r => cl r =? cl_max) tab).

Definition count_if {A} (p : A -> bool) (l : list A) : nat :=
  length (List.filter p l).

(** Lines 296-304. *)
Definition frac_wide_of (tab : table) : res npfloat :=
  match col_max (map snr tab) with
  | Raise e => Raise e
  | Ok maxsnr =>
      match cl_at_max tab maxsnr with
      | Raise e => Raise e
      | Ok cl_max =>
          let members := cluster_ibox tab cl_max in
          let frac_wide := np_div (count_if (fun b => 32 <=? b) members) (length members) in
          Ok (if (length members =? 1)%nat then FQuot 0 else frac_wide)
      end
  end.

(** Lines 306-313. *)
Definition ibox64_cnt (tab2 : table) : npfloat :=
  np_div (count_if (fun b => b =? 64) (map ibox tab2)) (length (map ibox tab2)).

Definition ibox64_filter_of (tab2 : table) : bool :=
  if negb (length tab2 =? 0)%nat then
    if gt_085 (ibox64_cnt tab2) && (15 <? length (map ibox tab2))%nat then true
    else false
  else false.

Definition is_some {A} (o : option A) : bool :=
  match o with Some _ => true | None => false end.

Definition min_timedelt : Z := 60.

(** Lines 332-350, the call of the trigger/naming step and what follows it
    inside the same [if]: the trigger column is overloaded when a table came
    back and [trigger] is set. *)
Definition naming_block (C : engine_env) (A : args) (tab2 tab3 : table)
    (a : naming_args) : res (trigger_col * name * option Time) :=
  match dump_cluster_results_json C tab3 a with
  | Raise e => Raise e
  | Ok (tab4, lastname1, trigtime) =>
      match tab4 with
      | Some t4 =>
          if trigger A then
            match where_trigger C t4 tab2 lastname1 with
            | Raise e => Raise e
            | Ok col_trigger => Ok (col_trigger, lastname1, trigtime)
            end
          else Ok (zeros (length tab2), lastname1, trigtime)
      | None => Ok (zeros (length tab2), lastname1, trigtime)
      end
  end.

Definition cluster_and_plot (C : engine_env) (A : args) (tab : table)
    (gulp : Z) (lastname0 : name) (prev : Time) : M (name * option Time) :=
  tab <~ lift (cluster_data C tab) ;;
  tab2 <~ lift (get_peak C tab) ;;
  nbeams_gulp <~ lift (get_nbeams C tab2) ;;
  nbeams_queue_append nbeams_gulp ;;
  frac_wide <~ lift (frac_wide_of tab) ;;
  let ibox64_filter := ibox64_filter_of tab2 in
  tab3 <~ lift (filter_clustered C tab2) ;;
  named <~
    (if is_some (outroot A) && negb (length tab3 =? 0)%nat && negb ibox64_filter
     then
       q <~ get nbeams_queue ;;
       let a := {| na_trigger := trigger A; na_lastname := lastname0;
                   na_gulp := gulp; na_nbeams := sum_queue q;
                   na_frac_wide := frac_wide; na_prev_trig_time := prev;
                   na_min_timedelt := min_timedelt |} in
       emit (EvNaming tab3 a) ;;
       lift (naming_block C A tab2 tab3 a)
     else ret (zeros (length tab2), lastname0, None)) ;;
  let '(col_trigger, lastname1, trigtime) := named in
  (if is_some (outroot A) && negb (length tab2 =? 0)%nat
   then
     lift (set_trigger_col C tab2 col_trigger) ;;
     emit (EvOutput tab2) ;;
     lift (write_output C tab2 col_trigger)
   else ret tt) ;;
  ret (lastname1, trigtime).

(** ** The status reporter: [gulp_status] *)

Definition t2_num : Z := 1.

Definition gulp_status (status : Z) : M unit :=
  emit (EvPut "/mon/T2/1" (GulpStatus status t2_num)).

(** ** The gulp synchroniser: the loop of [parse_socket] *)

Inductive loop_exit : Type := Continue | Break.

Definition new_socket (port : Z) : M sock :=
  fun st => (Ok {| sock_port := port; sock_id := fresh st |},
             set_fresh (S (fresh st)) st).

(** [s.bind((host, port))]: raises [OSError] when the address cannot be bound. *)
Definition bind_socket (E : env) (s : sock) : M unit :=
  fun st => if bind_ok E s then (Ok tt, add_log (EvBind s true) st)
            else (Raise OSError, add_log (EvBind s false) st).

Definition listen (s : sock) : M unit := emit (EvListen s).

Definition ss_append (s : sock) : M unit :=
  modify (fun st => set_ss (ss st ++ [s]) st).

(** Lines 91-96: the build at the head of the loop. *)
Definition build_endpoints (A : args) (E : env) : M unit :=
  ss0 <~ get ss ;;
  if negb (length ss0 =? length (ports A))%nat then
    for_each (ports A) (fun port =>
      s <~ new_socket port ;;
      bind_socket E s ;;
      listen s ;;
      ss_append s)
  else ret tt.

(** Lines 153-164: the rebuild after divergent gulps. *)
Definition resync (A : args) (E : env) : M unit :=
  ss0 <~ get ss ;;
  for_each ss0 (fun s => emit (EvClose s)) ;;
  modify (set_ss []) ;;
  for_each (ports A) (fun port =>
    s <~ new_socket port ;;
    bound <~ catch (bind_socket E s ;; ret true)
               (fun e => match e with
                         | OSError => emit (EvPrint "socket bind failed.") ;; ret false
                         | _ => raise e
                         end) ;;
    if bound : bool then listen s ;; ss_append s else ret tt).

(** Lines 103-114: one connection per listening endpoint; [None] when the
    wait is interrupted. *)
Definition accept_all (E : env) : M (option (list (res string))) :=
  if accept_interrupted E then ret None
  else ss0 <~ get ss ;; ret (Some (map (payload E) ss0)).

Section Synchronizer.

(** Python's [int] on the first line of a payload: [Some n], or [None] for
    [ValueError]. *)
Variable int_of_str : string -> option Z.

(** Lines 122-137: one pass of the loop over [cls], on the text [cf] that
    line 120 has read and decoded. *)
Definition read_client (acc : string * list Z) (cf : string) : string * list Z :=
  let '(candsfile, gulps) := acc in
  let '(gulp, lines) := split_first cf in
  match int_of_str gulp with
  | None => (candsfile, gulps)
  | Some g =>
      let gulps := gulps ++ [g] in
      if (1 <? length lines)%nat then
        if (0 <? String.length (hd EmptyString lines))%nat
        then (candsfile +:+ join lines, gulps)
        else (candsfile, gulps)
      else (candsfile, gulps)
  end.

(** Lines 117-137 when every read returns its text. *)
Definition read_all (cls : list string) : string * list Z :=
  fold_left read_client cls (EmptyString, []).

(** Lines 119-137: the loop over the accepted connections, each given as
    what line 120 finds on it.  Line 120 stands outside every [try]: the
    first read that raises ends the loop, and the cycle, with its exception. *)
Fixpoint read_loop (acc : string * list Z) (cls : list (res string))
  : res (string * list Z) :=
  match cls with
  | [] => Ok acc
  | Raise e :: _ => Raise e
  | Ok cf :: rest => read_loop (read_client acc cf) rest
  end.

(** [set(gulps)] *)
Definition gulp_set (gulps : list Z) : gset Z := list_to_set gulps.

(** [set(gulps).pop()]: [KeyError] on the empty set. *)
Definition set_pop (s : gset Z) : res Z :=
  match elements s with
  | [] => Raise KeyError
  | g :: _ => Ok g
  end.

(** Lines 181-211: the [try] statement around the decision engine.  [None]
    when the suite ran to its end, [Some x] when a handler left the
    iteration by [break] or [continue]. *)
Definition run_engine (A : args) (E : env) (candsfile : string) (gulp : Z)
  : M (option loop_exit) :=
  catch
    (emit (EvParse candsfile) ;;
     tab <~ lift (parse_candsfile (engine E) candsfile) ;;
     ln <~ get lastname ;;
     prev <~ get prev_trig_time ;;
     named <~ cluster_and_plot (engine E) A tab gulp ln prev ;;
     modify (set_trigger_state (fst named) (snd named)) ;;
     ret None)
    (fun e => match e with
              | KeyboardInterrupt => ret (Some Break)
              | OverflowError => gulp_status 3 ;; ret (Some Continue)
              | _ => raise e
              end).

(** Lines 139-212: what a cycle does with the body and the ids that the read
    loop has gathered from [n] connections. *)
Definition dispatch_gulp (A : args) (E : env) (n : nat) (acc : string * list Z)
  : M loop_exit :=
  let '(candsfile, gulps) := acc in
  if negb (length gulps =? n)%nat then
    gulp_status 1 ;; ret Continue
  else if (1 <? size (gulp_set gulps))%nat then
    resync A E ;;
    gulp_status 2 ;; ret Continue
  else
    gulp <~ lift (set_pop (gulp_set gulps)) ;;
    emit (EvPut "/mon/service/T2gulp" (Heartbeat 60)) ;;
    if String.eqb candsfile NL || String.eqb candsfile EmptyString then
      gulp_status 0 ;; ret Continue
    else
      r <~ run_engine A E candsfile gulp ;;
      match r with
      | Some x => ret x
      | None => gulp_status 0 ;; ret Continue
      end.

(** Lines 116-212: what one cycle does with the accepted connections. *)
Definition process_gulp (A : args) (E : env) (cls : list (res string)) : M loop_exit :=
  acc <~ lift (read_loop (EmptyString, []) cls) ;;
  dispatch_gulp A E (length cls) acc.

(** A cycle in which every read returns: the texts are [cls]. *)
Definition process_texts (A : args) (E : env) (cls : list string) : M loop_exit :=
  dispatch_gulp A E (length cls) (read_all cls).

(** Lines 90-212: one iteration of [while True]. *)
Definition loop_body (A : args) (E : env) : M loop_exit :=
  build_endpoints A E ;;
  emit (EvPut "/mon/service/T2service" (Heartbeat 60)) ;;
  cls <~ accept_all E ;;
  match cls with
  | None => ret Break
  | Some cls => process_gulp A E cls
  end.

(** How a run of [parse_socket] stands after the cycles of [Es]. *)
Inductive outcome : Type :=
| Running            (* still in the loop *)
| Returned           (* left the loop by [break] *)
| Died (e : exn).    (* an exception left [parse_socket] *)

Fixpoint parse_socket_loop (A : args) (Es : list env) (st : state) : outcome * state :=
  match Es with
  | [] => (Running, st)
  | E :: rest =>
      match loop_body A E st with
      | (Ok Continue, st') => parse_socket_loop A rest st'
      | (Ok Break, st') => (Returned, st')
      | (Raise e, st') => (Died e, st')
      end
  end.

(** Lines 61-74 and the module-level deque. *)
Definition init_state (now : Time) (last : name) : state :=
  {| ss := []; fresh := 0; prev_trig_time := now; globct := 0;
     lastname := last; nbeams_queue := []; log := [] |}.

Definition parse_socket (A : args) (now : Time) (last : name) (Es : list env)
  : outcome * state :=
  parse_socket_loop A Es (init_state now last).

(** *** What the claims speak of *)

(** The batch id of one payload, when its first line parses. *)
Definition parsed_id (cf : string) : option Z :=
  int_of_str (fst (split_first cf)).

Definition parsed_ids (cls : list string) : list Z := omap parsed_id cls.

(** The text one payload adds to the merged body. *)
Definition contribution (cf : string) : string :=
  match parsed_id cf with
  | None => EmptyString
  | Some _ =>
      let lines := snd (split_first cf) in
      if (1 <? length lines)%nat && (0 <? String.length (hd EmptyString lines))%nat
      then join lines else EmptyString
  end.

Definition merged_body (cls : list string) : string := fst (read_all cls).

Definition all_parse (cls : list string) : Prop :=
  Forall (fun cf => is_Some (parsed_id cf)) cls.

Definition ids_agree (cls : list string) : Prop :=
  forall g g', g ∈ parsed_ids cls -> g' ∈ parsed_ids cls -> g = g'.

Definition ids_diverge (cls : list string) : Prop :=
  exists g g', g ∈ parsed_ids cls /\ g' ∈ parsed_ids cls /\ g <> g'.

(** The batch is usable: every connection gave an id, the ids agree and
    some connection contributed text. *)
Definition usable (cls : list string) : Prop :=
  all_parse cls /\ ids_agree cls /\ merged_body cls <> EmptyString.

(** The gulp was received: at least one connection, every one gave an id,
    and the ids agree. *)
Definition received (cls : list string) : Prop :=
  cls <> [] /\ all_parse cls /\ ids_agree cls.

End Synchronizer.

(** ** Observations on the log *)

(** The events a computation adds to the log. *)
Definition events_of {A} (m : M A) (st : state) : list event :=
  drop (length (log st)) (log (snd (m st))).

(** The codes published by [gulp_status]. *)
Definition status_codes (evs : list event) : list Z :=
  omap (fun e => match e with EvPut _ (GulpStatus n _) => Some n | _ => None end) evs.

(** The bodies handed to the decision engine pipeline. *)
Definition forwarded_bodies (evs : list event) : list string :=
  omap (fun e => match e with EvParse b => Some b | _ => None end) evs.

(** The listening endpoints closed, and the bind attempts with their outcomes. *)
Definition closed_endpoints (evs : list event) : list sock :=
  omap (fun e => match e with EvClose s => Some s | _ => None end) evs.

Definition bind_attempts (evs : list event) : list (sock * bool) :=
  omap (fun e => match e with EvBind s ok => Some (s, ok) | _ => None end) evs.

(** The writes of the second heartbeat. *)
Definition gulp_heartbeats (evs : list event) : list Z :=
  omap (fun e => match e with
                 | EvPut k (Heartbeat cadence) =>
                     if String.eqb k "/mon/service/T2gulp" then Some cadence else None
                 | _ => None
                 end) evs.

(** The invocations of the trigger/naming step. *)
Definition naming_calls (evs : list event) : list naming_args :=
  omap (fun e => match e with EvNaming _ a => Some a | _ => None end) evs.

(** Events of the decision engine and of the status reporter. *)
Definition engine_side (e : event) : Prop :=
  match e with
  | EvNaming _ _ | EvOutput _ | EvPut _ (GulpStatus _ _) => True
  | _ => False
  end.

(** Events of the socket layer. *)
Definition socket_side (e : event) : Prop :=
  match e with
  | EvBind _ _ | EvListen _ | EvClose _ | EvPrint _ => True
  | _ => False
  end.

(** The socket objects that a pass over [ports] creates, the first with
    identity [n]. *)
Fixpoint new_sockets (n : nat) (ports : list Z) : list sock :=
  match ports with
  | [] => []
  | p :: rest => {| sock_port := p; sock_id := n |} :: new_sockets (S n) rest
  end.

(** What the rebuild logs for one new socket. *)
Definition rebuild_events (E : env) (s : sock) : list event :=
  if bind_ok E s then [EvBind s true; EvListen s]
  else [EvBind s false; EvPrint "socket bind failed."].

(** The window after the pushes [xs], oldest first. *)
Definition pushes (xs : list Z) (q : list Z) : list Z :=
  fold_left (fun q x => deque_append nbeams_maxlen x q) xs q.

Definition count64 (tab2 : table) : nat :=
  count_if (fun b => b =? 64) (map ibox tab2).

(** ** Relations between the state before and after a computation *)

Section Respects.

Variable R : state -> state -> Prop.

Definition respects {A} (m : M A) : Prop := forall st, R st (snd (m st)).

End Respects.

(** The log grows by events in [P]; the endpoints and the counter of socket
    objects stay. *)
Definition log_grows (P : event -> Prop) (st st' : state) : Prop :=
  (exists evs, log st' = log st ++ evs /\ Forall P evs)
  /\ ss st' = ss st /\ fresh st' = fresh st.

(** The variables of the decision engine are untouched. *)
Definition vars_eq (st st' : state) : Prop :=
  prev_trig_time st' = prev_trig_time st /\ globct st' = globct st
  /\ lastname st' = lastname st /\ nbeams_queue st' = nbeams_queue st.

(** The window stays within its capacity. *)
Definition window_bounded (st st' : state) : Prop :=
  (length (nbeams_queue st) <= nbeams_maxlen)%nat ->
  (length (nbeams_queue st') <= nbeams_maxlen)%nat.

(** ** Concrete collaborators, to run the model *)

Module Sample.

Definition mk_row (s : Q) (b : Z) (c : Z) : row :=
  {| snr := VNum s; ibox := b; ibeam := 0; cl := c |}.

(** Collaborators that hand the table [tab] through every stage unchanged. *)
Definition engine_of (tab : table) : engine_env :=
  {| parse_candsfile := fun _ => Ok tab;
     cluster_data := fun t => Ok t;
     get_peak := fun t => Ok t;
     get_nbeams := fun t => Ok (Z.of_nat (length t));
     filter_clustered := fun t => Ok t;
     dump_cluster_results_json := fun _ a => Ok (None, na_lastname a, None);
     where_trigger := fun _ t2 _ => Ok (zeros (length t2));
     set_trigger_col := fun _ _ => Ok tt;
     write_output := fun _ _ => Ok tt |}.

(** Every bind succeeds unless the port is in [busy]; the connection on the
    endpoint of port [p] delivers [feed p]. *)
Definition env_of (busy : list Z) (feed : Z -> string) (tab : table) : env :=
  {| bind_ok := fun s => negb (existsb (Z.eqb (sock_port s)) busy);
     accept_interrupted := false;
     payload := fun s => Ok (feed (sock_port s));
     engine := engine_of tab |}.

Definition args_of (ps : list Z) : args :=
  {| ports := ps; outroot := Some "/out/"; trigger := true |}.

Definition st0 : state := init_state 0 None.

(** A state with endpoints for ports 5000, 5001 and 5002 listening. *)
Definition listening3 : state :=
  {| ss := [ {| sock_port := 5000; sock_id := 0 |};
             {| sock_port := 5001; sock_id := 1 |};
             {| sock_port := 5002; sock_id := 2 |} ];
     fresh := 3; prev_trig_time := 0; globct := 0; lastname := None;
     nbeams_queue := []; log := [] |}.

Definition line (s : string) : string := s +:+ NL.

(** Three candidates; the brightest is alone in cluster 1. *)
Definition tab_ex : table :=
  [mk_row (10 # 1) 4 0; mk_row (12 # 1) 64 1; mk_row (9 # 1) 2 0].

(** Twenty peak rows, seventeen of them at boxcar 64: exactly 85 percent. *)
Definition tab_85 : table :=
  repeat (mk_row (10 # 1) 64 0) 17 ++ repeat (mk_row (10 # 1) 4 0) 3.

(** Twenty peak rows, eighteen of them at boxcar 64. *)
Definition tab_90 : table :=
  repeat (mk_row (10 # 1) 64 0) 18 ++ repeat (mk_row (10 # 1) 4 0) 2.

(** Payloads: a header alone, and a header with one blank row. *)
Definition header_only : string := line "42".
Definition blank_row : string := line "42" +:+ line " ".

(** The same payload on each of the three connections. *)
Definition three (cf : string) : list string := [cf; cf; cf].

Definition quiet_env : env := env_of [] (fun _ => EmptyString) tab_ex.

(** One cycle on the accepted payloads [cls], from three listening endpoints. *)
Definition cycle_events (cls : list string) : list event :=
  events_of (process_gulp py_int (args_of [5000; 5001; 5002]) quiet_env (map Ok cls))
    listening3.

Definition cycle_state (cls : list string) : state :=
  snd (process_gulp py_int (args_of [5000; 5001; 5002]) quiet_env (map Ok cls)
         listening3).

End Sample.

(** ** The stream reader: [recvall] *)

Module Stream.

(** A connection, as the reader sees it: the chunks that the successive
    calls of [recv] will find, in order; none left once the peer has closed.
    A chunk is what one [recv] returns when the budget allows. *)
Definition conn : Type := list (list Byte.byte).

(** Every chunk holds at least one byte, as on a stream socket, where only
    the end of the stream reads as no bytes. *)
Definition well_formed (c : conn) : Prop := Forall (fun p => p <> []) c.

(** The bytes still to be read. *)
Definition pending (c : conn) : list Byte.byte := concat c.

(** [sock.recv(k)]: at most [k] bytes of the next chunk; what does not fit
    stays at the head of the connection. *)
Definition recv (k : nat) (c : conn) : list Byte.byte * conn :=
  match c with
  | [] => ([], [])
  | p :: rest =>
      (take k p, match drop k p with [] => rest | q => q :: rest end)
  end.

(** Lines 398-404: the [while] loop, [fuel] bounding its iterations. *)
Fixpoint recvall_loop (fuel : nat) (n : nat) (data : list Byte.byte) (sock : conn)
  : option (list Byte.byte * conn) :=
  match fuel with
  | O => None
  | S fuel =>
      if (length data <? n)%nat then
        let '(packet, sock') := recv (n - length data) sock in
        match packet with
        | [] => Some (data, sock')
        | _ :: _ => recvall_loop fuel n (data ++ packet) sock'
        end
      else Some (data, sock)
  end.

(** [recvall(sock, n)], with the connection as it is left.  Every iteration
    but the last reads at least one byte, so one more than the number of
    pending bytes is fuel enough. *)
Definition recvall (sock : conn) (n : nat) : option (list Byte.byte * conn) :=
  recvall_loop (S (length (pending sock))) n [] sock.

End Stream.

(** ** More observations *)

(** Events of the decision engine alone. *)
Definition engine_only (e : event) : Prop :=
  match e with
  | EvNaming _ _ | EvOutput _ => True
  | _ => False
  end.

(** The tables handed to the output aggregator. *)
Definition output_calls (evs : list event) : list table :=
  omap (fun e => match e with EvOutput t => Some t | _ => None end) evs.

(** The writes of the liveness heartbeat. *)
Definition service_heartbeats (evs : list event) : list Z :=
  omap (fun e => match e with
                 | EvPut k (Heartbeat cadence) =>
                     if String.eqb k "/mon/service/T2service" then Some cadence else None
                 | _ => None
                 end) evs.

(** The events of a run of the loop over the cycles of [Es]. *)
Definition run_events (int_of_str : string -> option Z) (A : args) (Es : list env)
    (st : state) : list event :=
  drop (length (log st)) (log (snd (parse_socket_loop int_of_str A Es st))).

(** How many times the status code [c] was published. *)
Definition count_code (c : Z) (codes : list Z) : nat := count_occ Z.eq_dec codes c.

(** The output counter is left as it was. *)
Definition keeps_globct (st st' : state) : Prop := globct st' = globct st.

(** What a run of the decision engine may change: the log, by events of the
    engine, and the window. *)
Definition engine_step (st st' : state) : Prop :=
  (exists evs, log st' = log st ++ evs /\ Forall engine_only evs)
  /\ ss st' = ss st /\ fresh st' = fresh st
  /\ prev_trig_time st' = prev_trig_time st /\ globct st' = globct st
  /\ lastname st' = lastname st.

(** The log grows by events in [P]; nothing is said of the rest. *)
Definition log_only (P : event -> Prop) (st st' : state) : Prop :=
  exists evs, log st' = log st ++ evs /\ Forall P evs.


(** The socket layer refuses an address that is in use: while the endpoints
    of [st] are listening, a bind to the port of one of them fails. *)
Definition refuses_held (E : env) (st : state) : Prop :=
  forall s, In (sock_port s) (map sock_port (ss st)) -> bind_ok E s = false.

(** Events that close no endpoint. *)
Definition not_close (e : event) : Prop :=
  match e with
  | EvClose _ => False
  | _ => True
  end.

(** The endpoints of [st] are still among those of [st']. *)
Definition keeps_endpoints (st st' : state) : Prop :=
  exists l, ss st' = ss st ++ l.

(** What the build at the head of the loop logs for one new socket. *)
Definition build_events (s : sock) : list event := [EvBind s true; EvListen s].

(** Lines 283-290: clustering, peak extraction and the count of active
    beams, up to the push into the window. *)
Definition peak_count (C : engine_env) (tab : table) : res Z :=
  match cluster_data C tab with
  | Raise e => Raise e
  | Ok tab1 =>
      match get_peak C tab1 with
      | Raise e => Raise e
      | Ok tab2 => get_nbeams C tab2
      end
  end.

(** The trigger state that [parse_socket] carries from gulp to gulp. *)
Definition same_trigger_state (st st' : state) : Prop :=
  prev_trig_time st' = prev_trig_time st /\ globct st' = globct st
  /\ lastname st' = lastname st.

(** The rows of a payload: the lines after the first. *)
Definition lines_of (cf : string) : list string := snd (split_first cf).

(** A payload that adds its lines to the merged body (lines 124-137). *)
Definition contributing (int_of_str : string -> option Z) (cf : string) : Prop :=
  is_Some (parsed_id int_of_str cf)
  /\ (2 <= length (lines_of cf))%nat
  /\ hd EmptyString (lines_of cf) <> EmptyString.

(** A contributing payload that ends with a newline: its last line is empty. *)
Definition terminated (int_of_str : string -> option Z) (cf : string) : Prop :=
  contributing int_of_str cf /\ List.last (lines_of cf) EmptyString = EmptyString.

(** The rows of a terminated payload: its lines but for the empty last one. *)
Definition rows_of (cf : string) : list string := List.removelast (lines_of cf).

(** What splitting the concatenation of two joined lists of lines gives:
    the last line of the first list and the first line of the second have
    become one. *)
Definition glue (l1 l2 : list string) : list string :=
  List.removelast l1 ++ [List.last l1 EmptyString +:+ hd EmptyString l2] ++ tl l2.

(** ** The injection script: [scripts/dsa_injection.py] *)

Module Injection.

(** Lines 31-32: the sub-beam and the beam of injection [ii] on correlator
    node [kk]. *)
Definition subbeam (ii : Z) : Z := (2 * ii + 1) mod 64.
Definition beam (kk ii : Z) : Z := 64 * (kk - 17) + subbeam ii.

End Injection.

(** ** The minimum DM of the filter ([cluster_and_plot], lines 256-271) *)

Module Thresholds.

(** What a key of the shared store can hold: a JSON value.  The contents of
    a list or of an object play no part below. *)
Inductive json : Type :=
| JNull
| JBool (b : bool)
| JInt (z : Z)
| JFloat (f : float)
| JStr (s : string)
| JList
| JDict.

(** [v == 0]: true of the integer 0, of the floats 0.0 and -0.0 and of
    [False]; a value that is not a number is different from 0. *)
Definition eq_zero (v : json) : bool :=
  match v with
  | JBool b => negb b
  | JInt z => z =? 0
  | JFloat f => PrimFloat.eqb f 0%float
  | _ => false
  end.

(** [v*0.75]: a float product, an integer (or a boolean, which is one) being
    converted first; [float_of_int] is that conversion, which raises on an
    integer too large.  Any other operand raises [TypeError].  [None] stands
    for an exception, whichever it is. *)
Definition times_075 (float_of_int : Z -> option float) (v : json) : option float :=
  match v with
  | JBool b => option_map (fun x => PrimFloat.mul x 0.75%float) (float_of_int (Z.b2z b))
  | JInt z => option_map (fun x => PrimFloat.mul x 0.75%float) (float_of_int z)
  | JFloat f => Some (PrimFloat.mul f 0.75%float)
  | _ => None
  end.

(** [max(a, b)] of two floats: the first, unless the second is greater. *)
Definition py_max (a b : float) : float := if PrimFloat.ltb a b then b else a.

(** Lines 257-271.  [use_gal_dm] and [gal_dm] are the outcomes of the two
    look-ups [ds.get_dict('/cnf/t2')["use_gal_dm"]] and
    [ds.get_dict('/mon/array/gal_dm')['gal_dm']], [None] when the look-up
    raises; the bare [except] clauses catch every exception. *)
Definition min_dm (float_of_int : Z -> option float) (use_gal_dm gal_dm : option json)
  : float :=
  let use_gal_dm := match use_gal_dm with Some v => v | None => JInt 1 end in
  if eq_zero use_gal_dm then 50%float
  else match gal_dm with
       | Some dm_mw =>
           match times_075 float_of_int dm_mw with
           | Some x => py_max 50%float x
           | None => 50%float
           end
       | None => 50%float
       end.

End Thresholds.

(** ** More concrete collaborators *)

Module Sample2.

(** An engine whose table parser raises [e]. *)
Definition engine_raising (e : exn) : engine_env :=
  {| parse_candsfile := fun _ => Raise e;
     cluster_data := fun t => Ok t;
     get_peak := fun t => Ok t;
     get_nbeams := fun t => Ok (Z.of_nat (length t));
     filter_clustered := fun t => Ok t;
     dump_cluster_results_json := fun _ a => Ok (None, na_lastname a, None);
     where_trigger := fun _ t2 _ => Ok (zeros (length t2));
     set_trigger_col := fun _ _ => Ok tt;
     write_output := fun _ _ => Ok tt |}.

(** An engine whose threshold filter raises [e], after the peak rows of
    [tab] have been counted. *)
Definition engine_filter_raising (tab : table) (e : exn) : engine_env :=
  {| parse_candsfile := fun _ => Ok tab;
     cluster_data := fun t => Ok t;
     get_peak := fun t => Ok t;
     get_nbeams := fun t => Ok (Z.of_nat (length t));
     filter_clustered := fun _ => Raise e;
     dump_cluster_results_json := fun _ a => Ok (None, na_lastname a, None);
     where_trigger := fun _ t2 _ => Ok (zeros (length t2));
     set_trigger_col := fun _ _ => Ok tt;
     write_output := fun _ _ => Ok tt |}.

(** An engine whose naming step fires a trigger called [nm] at time [t]. *)
Definition engine_triggering (tab : table) (nm : string) (t : Time) : engine_env :=
  {| parse_candsfile := fun _ => Ok tab;
     cluster_data := fun t => Ok t;
     get_peak := fun t => Ok t;
     get_nbeams := fun t => Ok (Z.of_nat (length t));
     filter_clustered := fun t => Ok t;
     dump_cluster_results_json := fun t3 _ => Ok (Some t3, Some nm, Some t);
     where_trigger := fun _ t2 _ => Ok (zeros (length t2));
     set_trigger_col := fun _ _ => Ok tt;
     write_output := fun _ _ => Ok tt |}.

(** An engine whose naming step fires a trigger and whose trigger column
    then raises [e]. *)
Definition engine_where_raising (tab : table) (nm : string) (t : Time) (e : exn)
  : engine_env :=
  {| parse_candsfile := fun _ => Ok tab;
     cluster_data := fun t => Ok t;
     get_peak := fun t => Ok t;
     get_nbeams := fun t => Ok (Z.of_nat (length t));
     filter_clustered := fun t => Ok t;
     dump_cluster_results_json := fun t3 _ => Ok (Some t3, Some nm, Some t);
     where_trigger := fun _ _ _ => Raise e;
     set_trigger_col := fun _ _ => Ok tt;
     write_output := fun _ _ => Ok tt |}.

Definition env_with (C : engine_env) (interrupted : bool) : env :=
  {| bind_ok := fun _ => true;
     accept_interrupted := interrupted;
     payload := fun _ => Ok (Sample.line "42" +:+ Sample.line "row");
     engine := C |}.

(** Every bind succeeds; the connection on port 5001 gives [second], the
    others the id 42 and one row. *)
Definition env_second (second : res string) : env :=
  {| bind_ok := fun _ => true;
     accept_interrupted := false;
     payload := fun s => if sock_port s =? 5001 then second
                         else Ok (Sample.line "42" +:+ Sample.line "row");
     engine := Sample.engine_of Sample.tab_ex |}.

(** Three payloads with the id 42 and one row each. *)
Definition rows3 : list string :=
  Sample.three (Sample.line "42" +:+ Sample.line "row").

Definition args3 : args := Sample.args_of [5000; 5001; 5002].

(** The same arguments with [outroot] left at its default. *)
Definition args_no_out : args :=
  {| ports := [5000; 5001; 5002]; outroot := None; trigger := true |}.

(** One endpoint listening where two ports are configured. *)
Definition listening1 : state :=
  {| ss := [ {| sock_port := 5000; sock_id := 0 |} ];
     fresh := 2; prev_trig_time := 0; globct := 0; lastname := None;
     nbeams_queue := []; log := [] |}.

End Sample2.

(** * Properties *)

(** ** Strings *)

Lemma append_cons c s t : String c s +:+ t = String c (s +:+ t).
Proof. reflexivity. Qed.

Lemma append_nil_l t : EmptyString +:+ t = t.
Proof. reflexivity. Qed.

Lemma append_nil_r s : s +:+ EmptyString = s.
Proof. induction s as [|c s IH]; [reflexivity|]. by rewrite append_cons, IH. Qed.

Lemma append_assoc s t u : (s +:+ t) +:+ u = s +:+ (t +:+ u).
Proof.
  induction s as [|c s IH]; [reflexivity|].
  by rewrite !append_cons, IH.
Qed.

Lemma append_eq_nil s t : s +:+ t = EmptyString -> s = EmptyString /\ t = EmptyString.
Proof. destruct s; [by rewrite append_nil_l | by rewrite append_cons]. Qed.

Lemma length_zero_iff s : (0 <? String.length s)%nat = false <-> s = EmptyString.
Proof. destruct s; simpl; split; intros H; try done. Qed.

(** [join] of a list with at least two pieces. *)
Lemma join_cons2 x y rest : join (x :: y :: rest) = x +:+ NL +:+ join (y :: rest).
Proof. reflexivity. Qed.

(** Splitting loses nothing: joining the pieces gives the payload back. *)
Lemma join_split cf : join (split cf) = cf.
Proof.
  unfold split. induction cf as [|c cf IH]; [reflexivity|].
  simpl. destruct (split_first cf) as [w ws].
  destruct (Ascii.eqb_spec c nl) as [->|Hc].
  - destruct ws; simpl in *; by rewrite <- IH.
  - destruct ws; simpl in *; rewrite <- IH; reflexivity.
Qed.

(** The payload is its first line, a newline and the joined rest. *)
Lemma split_first_rest cf gulp l lines :
  split_first cf = (gulp, l :: lines) -> cf = gulp +:+ NL +:+ join (l :: lines).
Proof.
  intros H. rewrite <- (join_split cf) at 1. unfold split. by rewrite H.
Qed.

Lemma split_first_single cf gulp : split_first cf = (gulp, []) -> cf = gulp.
Proof.
  intros H. rewrite <- (join_split cf) at 1. unfold split. by rewrite H.
Qed.

(** No piece holds a newline. *)
Lemma split_first_no_nl cf :
  no_nl (fst (split_first cf)) = true
  /\ Forall (fun l => no_nl l = true) (snd (split_first cf)).
Proof.
  induction cf as [|c cf [IH1 IH2]]; [by split|].
  simpl. destruct (split_first cf) as [w ws]. simpl in *.
  destruct (Ascii.eqb_spec c nl) as [->|Hc]; simpl.
  - split; [done|]. by constructor.
  - split; [|done]. rewrite IH1.
    by destruct (Ascii.eqb_spec c nl).
Qed.

Lemma starts_clean_app s t : starts_clean s -> starts_clean t -> starts_clean (s +:+ t).
Proof. destruct s; [by rewrite append_nil_l | by rewrite append_cons]. Qed.

Lemma starts_clean_not_NL s : starts_clean s -> s <> NL.
Proof. intros H ->. by apply H. Qed.

Lemma no_nl_starts_clean s : no_nl s = true -> starts_clean s.
Proof.
  destruct s as [|c s]; [done|]. simpl.
  destruct (Ascii.eqb_spec c nl); [done|]. by intros _.
Qed.

(** ** Reading the connections *)

Section ReadFacts.

Variable int_of_str : string -> option Z.

Local Abbreviation read_client := (read_client int_of_str).
Local Abbreviation read_all := (read_all int_of_str).
Local Abbreviation parsed_id := (parsed_id int_of_str).
Local Abbreviation parsed_ids := (parsed_ids int_of_str).
Local Abbreviation contribution := (contribution int_of_str).
Local Abbreviation merged_body := (merged_body int_of_str).
Local Abbreviation all_parse := (all_parse int_of_str).
Local Abbreviation ids_agree := (ids_agree int_of_str).
Local Abbreviation ids_diverge := (ids_diverge int_of_str).

Lemma read_client_spec c g cf :
  read_client (c, g) cf = (c +:+ contribution cf, g ++ option_list (parsed_id cf)).
Proof.
  unfold read_client, contribution, parsed_id.
  destruct (split_first cf) as [gulp lines]; simpl.
  destruct (int_of_str gulp) as [n|]; simpl.
  - destruct (1 <? length lines)%nat; simpl;
      [destruct (0 <? String.length (hd EmptyString lines))%nat|];
      by rewrite ?append_nil_r.
  - by rewrite append_nil_r, app_nil_r.
Qed.

Lemma fold_read_client cls : forall c g,
  fold_left read_client cls (c, g)
  = (c +:+ foldr String.append EmptyString (map contribution cls),
     g ++ parsed_ids cls).
Proof.
  induction cls as [|cf cls IH]; intros c g; cbn [fold_left map foldr].
  - by rewrite append_nil_r, app_nil_r.
  - rewrite read_client_spec, IH, append_assoc.
    unfold parsed_ids at 2. simpl. fold (parsed_ids cls).
    f_equal. rewrite <- app_assoc. f_equal.
    by destruct (parsed_id cf).
Qed.

(** The merged body is the concatenation of the contributions, the ids are
    the parsed first lines, both in the order of the connections. *)
Lemma read_all_spec cls :
  read_all cls
  = (foldr String.append EmptyString (map contribution cls), parsed_ids cls).
Proof. unfold read_all. by rewrite fold_read_client. Qed.

Lemma read_all_ids cls : snd (read_all cls) = parsed_ids cls.
Proof. by rewrite read_all_spec. Qed.

Lemma parsed_ids_length cls : (length (parsed_ids cls) <= length cls)%nat.
Proof.
  induction cls as [|cf cls IH]; simpl; [lia|].
  unfold parsed_ids in *. simpl. destruct (parsed_id cf); simpl; lia.
Qed.

Lemma parsed_ids_full cls :
  length (parsed_ids cls) = length cls <-> all_parse cls.
Proof.
  unfold all_parse. induction cls as [|cf cls IH]; simpl.
  - split; [constructor | done].
  - pose proof (parsed_ids_length cls) as Hle.
    unfold parsed_ids in *. simpl.
    destruct (parsed_id cf) as [n|] eqn:Hcf; simpl.
    + split.
      * intros H. constructor; [by rewrite Hcf | apply IH; lia].
      * intros H. inversion H; subst. f_equal. by apply IH.
    + split; [lia|]. intros H. inversion H as [|? ? [? Hn] ?]; subst.
      congruence.
Qed.

Lemma contribution_clean cf : starts_clean (contribution cf).
Proof.
  unfold contribution. destruct (parsed_id cf); [|done].
  pose proof (split_first_no_nl cf) as [_ Hnl].
  destruct (snd (split_first cf)) as [|l0 [|l1 rest]]; try done.
  destruct l0 as [|c l0]; [done|].
  inversion Hnl as [|? ? H0 _]; subst.
  change (starts_clean (join (String c l0 :: l1 :: rest))).
  rewrite join_cons2, append_cons. simpl.
  simpl in H0. by destruct (Ascii.eqb_spec c nl).
Qed.

(** The merged body never begins with a newline: the test
    [candsfile == "\n"] of line 174 never succeeds. *)
Lemma merged_body_clean cls : starts_clean (merged_body cls).
Proof.
  unfold merged_body. rewrite read_all_spec. simpl.
  induction cls as [|cf cls IH]; simpl; [done|].
  apply starts_clean_app; [apply contribution_clean | done].
Qed.

Lemma merged_body_eqb cls :
  String.eqb (merged_body cls) NL || String.eqb (merged_body cls) EmptyString
  = String.eqb (merged_body cls) EmptyString.
Proof.
  destruct (String.eqb_spec (merged_body cls) NL) as [H|H]; [|done].
  by apply starts_clean_not_NL in H; [|apply merged_body_clean].
Qed.

(** *** The set of ids *)

Lemma ids_diverge_size cls :
  ids_diverge cls <-> (1 < size (gulp_set (parsed_ids cls)))%nat.
Proof.
  unfold ids_diverge, gulp_set. split.
  - intros (g & g' & Hg & Hg' & Hne).
    assert (Hsub : ({[g]} ∪ {[g']} : gset Z) ⊆ list_to_set (parsed_ids cls)).
    { intros x. rewrite elem_of_union, !elem_of_singleton, elem_of_list_to_set.
      by intros [->| ->]. }
    apply subseteq_size in Hsub.
    rewrite size_union, !size_singleton in Hsub; [lia|].
    intros x. rewrite !elem_of_singleton. congruence.
  - intros Hsz.
    set (S := list_to_set (parsed_ids cls) : gset Z) in *.
    destruct (size_pos_elem_of S) as [g Hg]; [lia|].
    assert (Hrest : (0 < size (S ∖ {[g]}))%nat).
    { rewrite size_difference, size_singleton; [lia|].
      intros x. rewrite elem_of_singleton. by intros ->. }
    apply size_pos_elem_of in Hrest as [g' Hg'].
    apply elem_of_difference in Hg' as [Hg' Hnot].
    rewrite elem_of_singleton in Hnot.
    exists g, g'. subst S. rewrite elem_of_list_to_set in Hg, Hg'.
    by repeat split.
Qed.

Lemma ids_agree_not_diverge cls : ids_agree cls <-> ~ ids_diverge cls.
Proof.
  unfold ids_agree, ids_diverge. split.
  - intros H (g & g' & Hg & Hg' & Hne). by apply Hne, H.
  - intros H g g' Hg Hg'. destruct (decide (g = g')) as [|Hne]; [done|].
    exfalso. apply H. by exists g, g'.
Qed.

Lemma ids_agree_size cls :
  ids_agree cls <-> (1 <? size (gulp_set (parsed_ids cls)))%nat = false.
Proof.
  rewrite ids_agree_not_diverge, ids_diverge_size, Nat.ltb_ge. lia.
Qed.

(** With agreeing ids, [set(gulps).pop()] is the id of the first connection;
    with no id at all it raises [KeyError]. *)
Lemma set_pop_agree cls g rest :
  parsed_ids cls = g :: rest -> ids_agree cls ->
  set_pop (gulp_set (parsed_ids cls)) = Ok g.
Proof.
  intros Hids Hag. unfold set_pop, gulp_set.
  assert (Heq : (list_to_set (parsed_ids cls) : gset Z) = {[g]}).
  { apply set_eq. intros x. rewrite elem_of_list_to_set, elem_of_singleton.
    split.
    - intros Hx. apply Hag; [done|]. rewrite Hids. by left.
    - intros ->. rewrite Hids. by left. }
  by rewrite Heq, elements_singleton.
Qed.

Lemma set_pop_empty : set_pop (gulp_set []) = Raise KeyError.
Proof. reflexivity. Qed.

End ReadFacts.

(** ** Relations that every step of a computation keeps *)

Section RespectsFacts.

Variable R : state -> state -> Prop.
Hypothesis R_refl : forall st, R st st.
Hypothesis R_trans : forall a b c, R a b -> R b c -> R a c.

Lemma respects_ret {A} (a : A) : respects R (ret a).
Proof. intros st. apply R_refl. Qed.

Lemma respects_raise {A} (e : exn) : respects R (@raise A e).
Proof. intros st. apply R_refl. Qed.

Lemma respects_lift {A} (r : res A) : respects R (lift r).
Proof. intros st. apply R_refl. Qed.

Lemma respects_get {A} (f : state -> A) : respects R (get f).
Proof. intros st. apply R_refl. Qed.

Lemma respects_modify (f : state -> state) :
  (forall st, R st (f st)) -> respects R (modify f).
Proof. intros H st. apply H. Qed.

Lemma respects_emit (e : event) :
  (forall st, R st (add_log e st)) -> respects R (emit e).
Proof. intros H st. apply H. Qed.

Lemma respects_bnd {A B} (m : M A) (k : A -> M B) :
  respects R m -> (forall a, respects R (k a)) -> respects R (bnd m k).
Proof.
  intros Hm Hk st. unfold bnd. specialize (Hm st).
  destruct (m st) as [[a|e] st']; simpl in *; [|done].
  eapply R_trans; [exact Hm | apply Hk].
Qed.

Lemma respects_catch {A} (m : M A) (h : exn -> M A) :
  respects R m -> (forall e, respects R (h e)) -> respects R (catch m h).
Proof.
  intros Hm Hh st. unfold catch. specialize (Hm st).
  destruct (m st) as [[a|e] st']; simpl in *; [done|].
  eapply R_trans; [exact Hm | apply Hh].
Qed.

Lemma respects_for_each {A} (l : list A) (body : A -> M unit) :
  (forall x, respects R (body x)) -> respects R (for_each l body).
Proof.
  intros Hb. induction l as [|x l IH]; simpl.
  - apply respects_ret.
  - apply respects_bnd; [apply Hb | intros _; apply IH].
Qed.

End RespectsFacts.

(** One step of a proof that a computation respects a relation: take the
    computation apart along its syntax. *)
Ltac respects_step refl trans :=
  first
    [ apply (respects_ret _ refl)
    | apply (respects_raise _ refl)
    | apply (respects_lift _ refl)
    | apply (respects_get _ refl)
    | apply (respects_bnd _ trans); [|intros ?]
    | apply (respects_catch _ trans); [|intros ?]
    | apply (respects_for_each _ refl trans); intros ?
    | match goal with
      | |- respects _ (if ?b then _ else _) => destruct b
      | |- respects _ (match ?x with _ => _ end) => destruct x
      end ].

(** *** The log only grows *)

Lemma log_grows_refl P st : log_grows P st st.
Proof.
  split; [|done]. exists []. by rewrite app_nil_r.
Qed.

Lemma log_grows_trans P a b c :
  log_grows P a b -> log_grows P b c -> log_grows P a c.
Proof.
  intros [(e1 & H1 & F1) [S1 N1]] [(e2 & H2 & F2) [S2 N2]].
  split; [|split; congruence].
  exists (e1 ++ e2). split; [|by apply Forall_app].
  by rewrite H2, H1, app_assoc.
Qed.

Lemma log_grows_add_log (P : event -> Prop) e st : P e -> log_grows P st (add_log e st).
Proof.
  intros He. split; [|done]. exists [e]. split; [done|]. by constructor.
Qed.

Lemma log_grows_same (P : event -> Prop) st st' :
  log st' = log st -> ss st' = ss st -> fresh st' = fresh st -> log_grows P st st'.
Proof.
  intros Hl Hs Hf. split; [|done]. exists []. by rewrite app_nil_r.
Qed.

Lemma log_grows_weaken (P Q : event -> Prop) st st' :
  (forall e, P e -> Q e) -> log_grows P st st' -> log_grows Q st st'.
Proof.
  intros HPQ [(evs & H & F) HS]. split; [|done].
  exists evs. split; [done|]. eapply Forall_impl; eauto.
Qed.

Lemma events_of_intro {A} (m : M A) st evs :
  log (snd (m st)) = log st ++ evs -> events_of m st = evs.
Proof. intros H. unfold events_of. rewrite H. apply drop_app_length. Qed.

(** What events of the engine side cannot be. *)
Lemma engine_side_silent evs :
  Forall engine_side evs ->
  forwarded_bodies evs = [] /\ gulp_heartbeats evs = []
  /\ closed_endpoints evs = [] /\ bind_attempts evs = [].
Proof.
  induction 1 as [|e evs He _ (H1 & H2 & H3 & H4)]; [done|].
  destruct e as [| | | |k v| | |]; try done.
  destruct v as [|n t]; [done|].
    change (forwarded_bodies evs = [] /\ gulp_heartbeats evs = []
            /\ closed_endpoints evs = [] /\ bind_attempts evs = []).
    done.
Qed.

(** What events of the socket layer cannot be. *)
Lemma socket_side_silent evs :
  Forall socket_side evs ->
  forwarded_bodies evs = [] /\ gulp_heartbeats evs = [] /\ status_codes evs = []
  /\ naming_calls evs = [].
Proof.
  induction 1 as [|e evs He _ IH]; [done|].
  destruct e; try done;
    change (forwarded_bodies evs = [] /\ gulp_heartbeats evs = []
            /\ status_codes evs = [] /\ naming_calls evs = []);
    done.
Qed.

(** *** The window stays bounded *)

Lemma window_bounded_refl st : window_bounded st st.
Proof. by intros H. Qed.

Lemma window_bounded_trans a b c :
  window_bounded a b -> window_bounded b c -> window_bounded a c.
Proof. unfold window_bounded. auto. Qed.

Lemma deque_append_length maxlen x q :
  (length q <= maxlen)%nat -> (length (deque_append maxlen x q) <= maxlen)%nat.
Proof.
  intros H. unfold deque_append.
  destruct (Nat.ltb_spec maxlen (length (q ++ [x]))) as [Hlt|Hge]; [|done].
  rewrite length_app in Hlt. simpl in Hlt.
  destruct q as [|y q]; simpl in *; [lia|].
  rewrite length_app. simpl. lia.
Qed.

Lemma window_bounded_same st st' :
  nbeams_queue st' = nbeams_queue st -> window_bounded st st'.
Proof. intros H. unfold window_bounded. by rewrite H. Qed.

(** ** The socket layer *)

Lemma new_sockets_length n ports : length (new_sockets n ports) = length ports.
Proof. revert n. induction ports as [|p ports IH]; intros n; simpl; [done|]. by rewrite IH. Qed.

Lemma new_sockets_ports n ports : map sock_port (new_sockets n ports) = ports.
Proof. revert n. induction ports as [|p ports IH]; intros n; simpl; [done|]. by rewrite IH. Qed.

(** The new socket objects are new: their identities start at [n]. *)
Lemma new_sockets_fresh n ports s :
  s ∈ new_sockets n ports -> (n <= sock_id s)%nat.
Proof.
  revert n. induction ports as [|p ports IH]; intros n; simpl.
  - by intros ?%elem_of_nil.
  - intros [->|H]%elem_of_cons; simpl; [lia|]. apply IH in H. lia.
Qed.

(** The loop that closes the endpoints (lines 153-154). *)
Lemma close_loop l : forall st,
  exists st', for_each l (fun s => emit (EvClose s)) st = (Ok tt, st')
    /\ log st' = log st ++ map EvClose l
    /\ ss st' = ss st /\ fresh st' = fresh st /\ vars_eq st st'.
Proof.
  induction l as [|s l IH]; intros st.
  - exists st. simpl. by rewrite app_nil_r.
  - destruct (IH (add_log (EvClose s) st)) as (st' & Hrun & Hlog & Hss & Hfr & Hv).
    exists st'. split; [exact Hrun|].
    rewrite Hlog, Hss, Hfr. simpl. rewrite <- app_assoc. by destruct Hv as (?&?&?&?).
Qed.

(** The loop that rebuilds the endpoints (lines 156-164): it never raises,
    and an endpoint whose bind fails is left out. *)
Lemma rebuild_loop E ports : forall st,
  exists st',
    for_each ports (fun port =>
      s <~ new_socket port ;;
      bound <~ catch (bind_socket E s ;; ret true)
                 (fun e => match e with
                           | OSError => emit (EvPrint "socket bind failed.") ;; ret false
                           | _ => raise e
                           end) ;;
      if bound : bool then listen s ;; ss_append s else ret tt) st = (Ok tt, st')
    /\ log st' = log st ++ flat_map (rebuild_events E) (new_sockets (fresh st) ports)
    /\ ss st' = ss st ++ List.filter (bind_ok E) (new_sockets (fresh st) ports)
    /\ fresh st' = (fresh st + length ports)%nat
    /\ vars_eq st st'.
Proof.
  induction ports as [|p ports IH]; intros st.
  - exists st. simpl. rewrite !app_nil_r. unfold vars_eq. by rewrite Nat.add_0_r.
  - set (s := {| sock_port := p; sock_id := fresh st |}).
    destruct (bind_ok E s) eqn:Hb.
    + destruct (IH (set_ss (ss st ++ [s])
                      (add_log (EvListen s)
                         (add_log (EvBind s true) (set_fresh (S (fresh st)) st)))))
        as (st' & Hrun & Hlog & Hss & Hfr & Hv).
      exists st'. split.
      { cbn [for_each]. unfold bnd at 1. unfold bnd at 1. unfold new_socket at 1.
        fold s. unfold catch, bnd, bind_socket. rewrite Hb. exact Hrun. }
      assert (Hre : rebuild_events E s = [EvBind s true; EvListen s])
        by (unfold rebuild_events; by rewrite Hb).
      rewrite Hlog, Hss, Hfr. cbn [new_sockets flat_map List.filter]. fold s.
      rewrite Hre, Hb. simpl. rewrite <- !app_assoc.
      repeat split; try done; try lia; by destruct Hv as (?&?&?&?).
    + destruct (IH (add_log (EvPrint "socket bind failed.")
                      (add_log (EvBind s false) (set_fresh (S (fresh st)) st))))
        as (st' & Hrun & Hlog & Hss & Hfr & Hv).
      exists st'. split.
      { cbn [for_each]. unfold bnd at 1. unfold bnd at 1. unfold new_socket at 1.
        fold s. unfold catch, bnd, bind_socket. rewrite Hb. exact Hrun. }
      assert (Hre : rebuild_events E s = [EvBind s false; EvPrint "socket bind failed."])
        by (unfold rebuild_events; by rewrite Hb).
      rewrite Hlog, Hss, Hfr. cbn [new_sockets flat_map List.filter]. fold s.
      rewrite Hre, Hb. simpl. rewrite <- !app_assoc.
      repeat split; try done; try lia; by destruct Hv as (?&?&?&?).
Qed.

(** The resync closes every endpoint it held, tries one new socket per
    configured port and keeps those that could be bound. *)
Lemma resync_spec A E st :
  exists st',
    resync A E st = (Ok tt, st')
    /\ log st' = log st ++ map EvClose (ss st)
                  ++ flat_map (rebuild_events E) (new_sockets (fresh st) (ports A))
    /\ ss st' = List.filter (bind_ok E) (new_sockets (fresh st) (ports A))
    /\ fresh st' = (fresh st + length (ports A))%nat
    /\ vars_eq st st'.
Proof.
  destruct (close_loop (ss st) st) as (st1 & Hrun1 & Hlog1 & Hss1 & Hfr1 & Hv1).
  destruct (rebuild_loop E (ports A) (set_ss [] st1))
    as (st2 & Hrun2 & Hlog2 & Hss2 & Hfr2 & Hv2).
  exists st2. split.
  { unfold resync. unfold bnd at 1. unfold get at 1.
    unfold bnd at 1. rewrite Hrun1. unfold bnd at 1. unfold modify at 1.
    exact Hrun2. }
  rewrite Hlog2, Hss2, Hfr2. simpl. rewrite Hlog1, Hfr1, <- app_assoc.
  repeat split; try done.
  all: destruct Hv1 as (?&?&?&?), Hv2 as (?&?&?&?); simpl in *; congruence.
Qed.

(** The build at the head of the loop (lines 92-96) has no handler: the
    first bind that fails raises [OSError] out of the loop. *)
Lemma build_loop_fails E ports : forall st,
  Exists (fun s => bind_ok E s = false) (new_sockets (fresh st) ports) ->
  fst (for_each ports (fun port =>
         s <~ new_socket port ;;
         bind_socket E s ;;
         listen s ;;
         ss_append s) st) = Raise OSError.
Proof.
  induction ports as [|p ports IH]; intros st Hex; [by inversion Hex|].
  set (s := {| sock_port := p; sock_id := fresh st |}).
  cbn [for_each]. unfold bnd at 1. unfold bnd at 1. unfold new_socket at 1.
  fold s. unfold bnd at 1. unfold bind_socket at 1.
  destruct (bind_ok E s) eqn:Hb; [|done].
  apply IH. simpl in *. fold s in Hex.
  inversion Hex as [? ? Hs|? ? Hrest]; subst; [congruence | exact Hrest].
Qed.

Lemma build_loop_succeeds E ports : forall st,
  Forall (fun s => bind_ok E s = true) (new_sockets (fresh st) ports) ->
  exists st',
    for_each ports (fun port =>
         s <~ new_socket port ;;
         bind_socket E s ;;
         listen s ;;
         ss_append s) st = (Ok tt, st')
    /\ ss st' = ss st ++ new_sockets (fresh st) ports
    /\ fresh st' = (fresh st + length ports)%nat
    /\ vars_eq st st'.
Proof.
  induction ports as [|p ports IH]; intros st Hall.
  - exists st. simpl. rewrite app_nil_r. unfold vars_eq. by rewrite Nat.add_0_r.
  - set (s := {| sock_port := p; sock_id := fresh st |}).
    simpl in Hall. fold s in Hall. inversion Hall as [|? ? Hb Hrest]; subst.
    destruct (IH (set_ss (ss st ++ [s])
                    (add_log (EvListen s)
                       (add_log (EvBind s true) (set_fresh (S (fresh st)) st)))))
      as (st' & Hrun & Hss & Hfr & Hv); [exact Hrest|].
    exists st'. split.
    { cbn [for_each]. unfold bnd at 1. unfold bnd at 1. unfold new_socket at 1.
      fold s. unfold bnd at 1. unfold bind_socket at 1. rewrite Hb. exact Hrun. }
    rewrite Hss, Hfr. simpl. fold s. rewrite <- app_assoc.
    repeat split; try done; try lia; by destruct Hv as (?&?&?&?).
Qed.

(** With as many endpoints as ports, the head of the loop binds nothing. *)
Lemma build_endpoints_skip A E st :
  length (ss st) = length (ports A) -> build_endpoints A E st = (Ok tt, st).
Proof.
  intros H. unfold build_endpoints, bnd, get.
  by rewrite H, Nat.eqb_refl.
Qed.

Lemma build_endpoints_fails A E st :
  length (ss st) <> length (ports A) ->
  Exists (fun s => bind_ok E s = false) (new_sockets (fresh st) (ports A)) ->
  fst (build_endpoints A E st) = Raise OSError.
Proof.
  intros Hlen Hex. unfold build_endpoints. unfold bnd at 1. unfold get at 1.
  apply Nat.eqb_neq in Hlen. rewrite Hlen. cbn [negb].
  by apply build_loop_fails.
Qed.

(** An exception at the head of the loop ends [parse_socket]. *)
Lemma loop_body_build_fails int_of_str A E st :
  length (ss st) <> length (ports A) ->
  Exists (fun s => bind_ok E s = false) (new_sockets (fresh st) (ports A)) ->
  fst (loop_body int_of_str A E st) = Raise OSError.
Proof.
  intros Hlen Hex. pose proof (build_endpoints_fails A E st Hlen Hex) as H.
  unfold loop_body. unfold bnd at 1.
  destruct (build_endpoints A E st) as [[[]|e] st']; simpl in *; congruence.
Qed.

(** ** The decision engine *)

Ltac log_grows_tac :=
  repeat (respects_step (log_grows_refl engine_side) (log_grows_trans engine_side)).

Lemma cluster_and_plot_log C A tab gulp ln prev :
  respects (log_grows engine_side) (cluster_and_plot C A tab gulp ln prev).
Proof.
  unfold cluster_and_plot, nbeams_queue_append. log_grows_tac.
  all: first [ apply respects_emit; intros st; by apply log_grows_add_log
             | apply respects_modify; intros st; by apply log_grows_same ].
Qed.

Ltac window_tac :=
  repeat (respects_step window_bounded_refl window_bounded_trans).

Lemma cluster_and_plot_window C A tab gulp ln prev :
  respects window_bounded (cluster_and_plot C A tab gulp ln prev).
Proof.
  unfold cluster_and_plot, nbeams_queue_append. window_tac.
  all: first [ apply respects_emit; intros st; by apply window_bounded_same
             | apply respects_modify; intros st H; by apply deque_append_length ].
Qed.

Lemma run_engine_log A E c gulp st :
  exists evs,
    log (snd (run_engine A E c gulp st)) = log st ++ EvParse c :: evs
    /\ Forall engine_side evs
    /\ ss (snd (run_engine A E c gulp st)) = ss st
    /\ fresh (snd (run_engine A E c gulp st)) = fresh st.
Proof.
  assert (Hrest : respects (log_grows engine_side)
            (catch
               (tab <~ lift (parse_candsfile (engine E) c) ;;
                ln <~ get lastname ;;
                prev <~ get prev_trig_time ;;
                named <~ cluster_and_plot (engine E) A tab gulp ln prev ;;
                modify (set_trigger_state (fst named) (snd named)) ;;
                ret None)
               (fun e => match e with
                         | KeyboardInterrupt => ret (Some Break)
                         | OverflowError => gulp_status 3 ;; ret (Some Continue)
                         | _ => raise e
                         end))).
  { unfold gulp_status. log_grows_tac.
    all: first [ apply cluster_and_plot_log
               | apply respects_emit; intros s; by apply log_grows_add_log
               | apply respects_modify; intros s; by apply log_grows_same ]. }
  destruct (Hrest (add_log (EvParse c) st)) as [(evs & Hlog & Hall) [Hss Hfr]].
  exists evs. change (run_engine A E c gulp st) with
    (catch
       (tab <~ lift (parse_candsfile (engine E) c) ;;
        ln <~ get lastname ;;
        prev <~ get prev_trig_time ;;
        named <~ cluster_and_plot (engine E) A tab gulp ln prev ;;
        modify (set_trigger_state (fst named) (snd named)) ;;
        ret None)
       (fun e => match e with
                 | KeyboardInterrupt => ret (Some Break)
                 | OverflowError => gulp_status 3 ;; ret (Some Continue)
                 | _ => raise e
                 end) (add_log (EvParse c) st)).
  rewrite Hlog, Hss, Hfr. simpl. by rewrite <- app_assoc.
Qed.

Lemma run_engine_window A E c gulp : respects window_bounded (run_engine A E c gulp).
Proof.
  unfold run_engine, gulp_status. window_tac.
  all: first [ apply respects_emit; intros s; by apply window_bounded_same
             | apply respects_modify; intros s; by apply window_bounded_same
             | apply respects_modify; intros s H; by apply deque_append_length ].
Qed.

(** ** One cycle, branch by branch *)

Section CycleFacts.

Variable int_of_str : string -> option Z.

Local Abbreviation read_all := (read_all int_of_str).
Local Abbreviation parsed_ids := (parsed_ids int_of_str).
Local Abbreviation merged_body := (merged_body int_of_str).
Local Abbreviation all_parse := (all_parse int_of_str).
Local Abbreviation ids_agree := (ids_agree int_of_str).
Local Abbreviation ids_diverge := (ids_diverge int_of_str).
Local Abbreviation process_texts := (process_texts int_of_str).
Local Abbreviation process_gulp := (process_gulp int_of_str).
Local Abbreviation loop_body := (loop_body int_of_str).

Lemma read_all_pair cls : read_all cls = (merged_body cls, parsed_ids cls).
Proof. unfold merged_body. by rewrite read_all_spec. Qed.

(** When every read returns, the read loop is the fold over the texts. *)
Lemma read_loop_texts cls : forall acc,
  read_loop int_of_str acc (map Ok cls) = Ok (fold_left (read_client int_of_str) cls acc).
Proof. induction cls as [|cf cls IH]; intros acc; [done|]. simpl. apply IH. Qed.

(** A cycle in which every read returns its text. *)
Lemma process_gulp_texts A E cls :
  process_gulp A E (map Ok cls) = process_texts A E cls.
Proof.
  unfold process_gulp, process_texts. rewrite read_loop_texts, length_map.
  reflexivity.
Qed.

(** Either every read returns or the read loop ends with the exception of
    one of them. *)
Lemma read_loop_cases (rs : list (res string)) : forall acc,
  (exists cls, rs = map Ok cls)
  \/ (exists e, read_loop int_of_str acc rs = Raise e /\ In (Raise e) rs).
Proof.
  induction rs as [|[cf|e] rs IH]; intros acc.
  - left. by exists [].
  - destruct (IH (read_client int_of_str acc cf)) as [[cls ->]|(e & He & Hin)].
    + left. by exists (cf :: cls).
    + right. exists e. split; [exact He | by right].
  - right. exists e. split; [done | by left].
Qed.

(** A read that raises ends the cycle before anything is published. *)
Lemma process_gulp_unread A E rs e st :
  read_loop int_of_str (EmptyString, []) rs = Raise e ->
  process_gulp A E rs st = (Raise e, st).
Proof. intros H. unfold process_gulp, bnd, lift. by rewrite H. Qed.

Lemma texts_no_raise (cls : list string) e : ~ In (@Raise string e) (map Ok cls).
Proof. intros H. apply in_map_iff in H as (x & Hx & _). discriminate. Qed.

(** A cycle in which a read raises leaves no event. *)
Lemma unread_events A E rs e st :
  read_loop int_of_str (EmptyString, []) rs = Raise e ->
  events_of (process_gulp A E rs) st = [].
Proof.
  intros H. unfold events_of.
  rewrite (process_gulp_unread A E rs e st H). simpl. apply drop_all.
Qed.

(** A cycle with a read that raises ends with the exception of the first
    such read, its state and its log as they were. *)
Lemma unread_cycle A E rs e st :
  In (Raise e) rs ->
  events_of (process_gulp A E rs) st = []
  /\ exists e', In (Raise e') rs /\ process_gulp A E rs st = (Raise e', st).
Proof.
  intros Hin.
  destruct (read_loop_cases rs (EmptyString, [])) as [[cls ->]|(e' & He & Hin')].
  - by apply texts_no_raise in Hin.
  - split; [exact (unread_events A E rs e' st He)|].
    exists e'. split; [exact Hin'|]. exact (process_gulp_unread A E rs e' st He).
Qed.

(** Fewer ids than connections: status 1 and nothing else (lines 140-143). *)
Lemma process_texts_incomplete A E cls st :
  length (parsed_ids cls) <> length cls ->
  process_texts A E cls st
  = (Ok Continue, add_log (EvPut "/mon/T2/1" (GulpStatus 1 t2_num)) st).
Proof.
  intros H. unfold process_texts. rewrite read_all_pair. unfold dispatch_gulp.
  apply Nat.eqb_neq in H. by rewrite H.
Qed.

(** Every payload parsed and two ids differ: resync, then status 2
    (lines 145-166). *)
Lemma process_texts_divergent A E cls st :
  length (parsed_ids cls) = length cls -> ids_diverge cls ->
  process_texts A E cls st
  = (Ok Continue,
     add_log (EvPut "/mon/T2/1" (GulpStatus 2 t2_num)) (snd (resync A E st))).
Proof.
  intros Hlen Hdiv. unfold process_texts. rewrite read_all_pair. unfold dispatch_gulp.
  rewrite Hlen, Nat.eqb_refl. cbn [negb].
  apply ids_diverge_size, Nat.ltb_lt in Hdiv. rewrite Hdiv.
  destruct (resync_spec A E st) as (st' & Hrun & _).
  unfold bnd at 1. rewrite Hrun. reflexivity.
Qed.

(** No connection at all: [set().pop()] raises [KeyError] (line 168). *)
Lemma process_texts_no_connection A E st :
  process_texts A E [] st = (Raise KeyError, st).
Proof. reflexivity. Qed.

(** Every payload parsed, the ids agree, the merged body is empty: the second
    heartbeat, then status 0 (lines 167-179). *)
Lemma process_texts_empty A E cls st :
  cls <> [] -> all_parse cls -> ids_agree cls -> merged_body cls = EmptyString ->
  process_texts A E cls st
  = (Ok Continue,
     add_log (EvPut "/mon/T2/1" (GulpStatus 0 t2_num))
       (add_log (EvPut "/mon/service/T2gulp" (Heartbeat 60)) st)).
Proof.
  intros Hne Hall Hag Hbody. unfold process_texts.
  pose proof (merged_body_eqb int_of_str cls) as Heqb.
  rewrite read_all_pair. unfold dispatch_gulp.
  apply parsed_ids_full in Hall. rewrite Hall, Nat.eqb_refl. cbn [negb].
  pose proof Hag as Hsz. apply ids_agree_size in Hsz. rewrite Hsz.
  destruct (parsed_ids cls) as [|g rest] eqn:Hids.
  { destruct cls; [done | discriminate]. }
  unfold bnd at 1. unfold lift at 1.
  rewrite <- Hids, (set_pop_agree int_of_str cls g rest Hids Hag).
  unfold bnd at 1. unfold emit at 1.
  rewrite Heqb, Hbody. reflexivity.
Qed.

(** Every payload parsed, the ids agree, the merged body is not empty: the
    second heartbeat, the hand-over to the decision engine, and then only
    events of the engine and the status reporter (lines 167-212). *)
Lemma process_texts_usable A E cls st :
  all_parse cls -> ids_agree cls -> merged_body cls <> EmptyString ->
  exists evs,
    log (snd (process_texts A E cls st))
    = log st ++ EvPut "/mon/service/T2gulp" (Heartbeat 60)
               :: EvParse (merged_body cls) :: evs
    /\ Forall engine_side evs
    /\ ss (snd (process_texts A E cls st)) = ss st
    /\ fresh (snd (process_texts A E cls st)) = fresh st.
Proof.
  intros Hall Hag Hbody.
  pose proof (merged_body_eqb int_of_str cls) as Heqb.
  assert (Hcls : cls <> []) by (intros ->; by apply Hbody).
  destruct (parsed_ids cls) as [|g rest] eqn:Hids.
  { apply parsed_ids_full in Hall. rewrite Hids in Hall.
    destruct cls; [done | discriminate]. }
  set (st1 := add_log (EvPut "/mon/service/T2gulp" (Heartbeat 60)) st).
  assert (Heq : process_texts A E cls st
                = match run_engine A E (merged_body cls) g st1 with
                  | (Ok (Some x), st2) => (Ok x, st2)
                  | (Ok None, st2) =>
                      (Ok Continue, add_log (EvPut "/mon/T2/1" (GulpStatus 0 t2_num)) st2)
                  | (Raise e, st2) => (Raise e, st2)
                  end).
  { unfold process_texts. rewrite read_all_pair. unfold dispatch_gulp.
    apply parsed_ids_full in Hall. rewrite Hall, Nat.eqb_refl. cbn [negb].
    pose proof Hag as Hsz. apply ids_agree_size in Hsz. rewrite Hsz.
    unfold bnd at 1. unfold lift at 1.
    rewrite (set_pop_agree int_of_str cls g rest Hids Hag).
    unfold bnd at 1. unfold emit at 1.
    rewrite Heqb. apply String.eqb_neq in Hbody. rewrite Hbody.
    fold st1. unfold bnd at 1.
    by destruct (run_engine A E (merged_body cls) g st1) as [[[x|]|e] st2]. }
  rewrite Heq.
  destruct (run_engine_log A E (merged_body cls) g st1)
    as (evs & Hlog & Hside & Hss & Hfr).
  destruct (run_engine A E (merged_body cls) g st1) as [[[x|]|e] st2];
    simpl in Hlog, Hss, Hfr.
  - exists evs. simpl. rewrite Hlog, Hss, Hfr. by rewrite <- app_assoc.
  - exists (evs ++ [EvPut "/mon/T2/1" (GulpStatus 0 t2_num)]).
    simpl. rewrite Hlog, Hss, Hfr.
    repeat split; try done.
    + by rewrite <- !app_assoc.
    + apply Forall_app. split; [done|]. by constructor.
  - exists evs. simpl. rewrite Hlog, Hss, Hfr. by rewrite <- app_assoc.
Qed.

End CycleFacts.

(** ** Observations on composite logs *)

Lemma forwarded_bodies_app a b :
  forwarded_bodies (a ++ b) = forwarded_bodies a ++ forwarded_bodies b.
Proof. apply omap_app. Qed.

Lemma status_codes_app a b : status_codes (a ++ b) = status_codes a ++ status_codes b.
Proof. apply omap_app. Qed.

Lemma closed_endpoints_app a b :
  closed_endpoints (a ++ b) = closed_endpoints a ++ closed_endpoints b.
Proof. apply omap_app. Qed.

Lemma bind_attempts_app a b : bind_attempts (a ++ b) = bind_attempts a ++ bind_attempts b.
Proof. apply omap_app. Qed.

Lemma gulp_heartbeats_app a b :
  gulp_heartbeats (a ++ b) = gulp_heartbeats a ++ gulp_heartbeats b.
Proof. apply omap_app. Qed.

Lemma close_events_side l : Forall socket_side (map EvClose l).
Proof. induction l; by constructor. Qed.

Lemma rebuild_events_side E l : Forall socket_side (flat_map (rebuild_events E) l).
Proof.
  induction l as [|s l IH]; simpl; [done|].
  apply Forall_app. split; [|done].
  unfold rebuild_events. destruct (bind_ok E s); by repeat constructor.
Qed.

Lemma closed_of_close_events l : closed_endpoints (map EvClose l) = l.
Proof.
  induction l as [|s l IH]; [done|].
  change (s :: closed_endpoints (map EvClose l) = s :: l). by rewrite IH.
Qed.

Lemma binds_of_close_events l : bind_attempts (map EvClose l) = [].
Proof. induction l as [|s l IH]; [done|]. exact IH. Qed.

Lemma closed_of_rebuild_events E l :
  closed_endpoints (flat_map (rebuild_events E) l) = [].
Proof.
  induction l as [|s l IH]; [done|].
  simpl. rewrite closed_endpoints_app, IH.
  unfold rebuild_events. by destruct (bind_ok E s).
Qed.

Lemma binds_of_rebuild_events E l :
  bind_attempts (flat_map (rebuild_events E) l) = map (fun s => (s, bind_ok E s)) l.
Proof.
  induction l as [|s l IH]; [done|].
  simpl. rewrite bind_attempts_app, IH.
  unfold rebuild_events. by destruct (bind_ok E s).
Qed.

(** ** The five ways a cycle can go *)

Section Verdict.

Variable int_of_str : string -> option Z.

Local Abbreviation parsed_ids := (parsed_ids int_of_str).
Local Abbreviation merged_body := (merged_body int_of_str).
Local Abbreviation all_parse := (all_parse int_of_str).
Local Abbreviation ids_agree := (ids_agree int_of_str).
Local Abbreviation ids_diverge := (ids_diverge int_of_str).
Local Abbreviation process_texts := (process_texts int_of_str).

Lemma divergent_events A E cls st :
  all_parse cls -> ids_diverge cls ->
  events_of (process_texts A E cls) st
  = map EvClose (ss st)
    ++ flat_map (rebuild_events E) (new_sockets (fresh st) (ports A))
    ++ [EvPut "/mon/T2/1" (GulpStatus 2 t2_num)]
  /\ ss (snd (process_texts A E cls st))
     = List.filter (bind_ok E) (new_sockets (fresh st) (ports A))
  /\ fst (process_texts A E cls st) = Ok Continue.
Proof.
  intros Hall Hdiv. apply parsed_ids_full in Hall.
  destruct (resync_spec A E st) as (st' & Hrun & Hlog & Hss & _).
  split; [apply events_of_intro|];
    rewrite (process_texts_divergent int_of_str A E cls st Hall Hdiv), Hrun; simpl.
  - by rewrite Hlog, <- !app_assoc.
  - by rewrite Hss.
Qed.

Lemma cycle_verdict A E cls st :
  let evs := events_of (process_texts A E cls) st in
  let st' := snd (process_texts A E cls st) in
  (~ all_parse cls
     /\ evs = [EvPut "/mon/T2/1" (GulpStatus 1 t2_num)] /\ ss st' = ss st)
  \/ (all_parse cls /\ ids_diverge cls
     /\ evs = map EvClose (ss st)
              ++ flat_map (rebuild_events E) (new_sockets (fresh st) (ports A))
              ++ [EvPut "/mon/T2/1" (GulpStatus 2 t2_num)])
  \/ (cls = [] /\ evs = [])
  \/ (cls <> [] /\ all_parse cls /\ ids_agree cls /\ merged_body cls = EmptyString
     /\ evs = [EvPut "/mon/service/T2gulp" (Heartbeat 60);
               EvPut "/mon/T2/1" (GulpStatus 0 t2_num)]
     /\ ss st' = ss st)
  \/ (all_parse cls /\ ids_agree cls /\ merged_body cls <> EmptyString
     /\ (exists rest, evs = EvPut "/mon/service/T2gulp" (Heartbeat 60)
                            :: EvParse (merged_body cls) :: rest
                      /\ Forall engine_side rest)
     /\ ss st' = ss st).
Proof.
  intros evs st'. subst evs st'.
  destruct (decide (length (parsed_ids cls) = length cls)) as [Hlen|Hlen].
  2:{ left. rewrite <- parsed_ids_full. split; [done|].
      split; [apply events_of_intro|];
        by rewrite (process_texts_incomplete int_of_str A E cls st Hlen). }
  right. pose proof Hlen as Hall. apply parsed_ids_full in Hall.
  destruct (1 <? size (gulp_set (parsed_ids cls)))%nat eqn:Hsz.
  { left. apply Nat.ltb_lt, ids_diverge_size in Hsz.
    destruct (divergent_events A E cls st Hall Hsz) as (Hev & _).
    by repeat split. }
  right. apply ids_agree_size in Hsz.
  destruct cls as [|cf cls].
  { left. split; [done|]. apply events_of_intro.
    rewrite (process_texts_no_connection int_of_str). simpl. by rewrite app_nil_r. }
  right. destruct (String.eqb_spec (merged_body (cf :: cls)) EmptyString) as [Hb|Hb].
  - left. repeat split; try done.
    + apply events_of_intro.
      rewrite (process_texts_empty int_of_str A E (cf :: cls) st) by done.
      simpl. by rewrite <- app_assoc.
    + by rewrite (process_texts_empty int_of_str A E (cf :: cls) st).
  - right.
    destruct (process_texts_usable int_of_str A E (cf :: cls) st Hall Hsz Hb)
      as (rest & Hlog & Hside & Hss & _).
    repeat split; try done.
    exists rest. split; [|done]. by apply events_of_intro.
Qed.

End Verdict.

(** ** The gulp synchroniser: the claims *)

Section SynchronizerClaims.

Variable int_of_str : string -> option Z.

Local Abbreviation parsed_ids := (parsed_ids int_of_str).
Local Abbreviation merged_body := (merged_body int_of_str).
Local Abbreviation all_parse := (all_parse int_of_str).
Local Abbreviation ids_agree := (ids_agree int_of_str).
Local Abbreviation ids_diverge := (ids_diverge int_of_str).
Local Abbreviation usable := (usable int_of_str).
Local Abbreviation received := (received int_of_str).
Local Abbreviation process_texts := (process_texts int_of_str).

Lemma merged_body_nil : merged_body [] = EmptyString.
Proof. reflexivity. Qed.

Lemma forwarded_cases A E cls st :
  let evs := events_of (process_texts A E cls) st in
  (usable cls /\ forwarded_bodies evs = [merged_body cls])
  \/ (~ usable cls /\ forwarded_bodies evs = []).
Proof.
  intros evs. subst evs. unfold usable.
  destruct (cycle_verdict int_of_str A E cls st)
    as [(Hn & -> & _)|[(Ha & Hd & ->)|[(-> & ->)|[(_ & _ & _ & Hb & -> & _)
       |(Ha & Hg & Hb & (rest & -> & Hside) & _)]]]].
  - right. split; [tauto | done].
  - right. split.
    + intros (_ & Hag & _). by apply ids_agree_not_diverge in Hag.
    + rewrite !forwarded_bodies_app.
      destruct (socket_side_silent _ (close_events_side (ss st))) as (-> & _).
      by destruct (socket_side_silent _
                     (rebuild_events_side E (new_sockets (fresh st) (ports A))))
        as (-> & _).
  - right. split; [|done]. intros (_ & _ & H). by apply H.
  - right. split; [tauto | done].
  - left. repeat split; try done.
    destruct (engine_side_silent rest Hside) as (Hf & _).
    change (merged_body cls :: forwarded_bodies rest = [merged_body cls]).
    by rewrite Hf.
Qed.

Lemma heartbeat_cases A E cls st :
  let evs := events_of (process_texts A E cls) st in
  (received cls /\ gulp_heartbeats evs = [60])
  \/ (~ received cls /\ gulp_heartbeats evs = []).
Proof.
  intros evs. subst evs. unfold received.
  destruct (cycle_verdict int_of_str A E cls st)
    as [(Hn & -> & _)|[(Ha & Hd & ->)|[(-> & ->)|[(Hne & Ha & Hg & _ & -> & _)
       |(Ha & Hg & Hb & (rest & -> & Hside) & _)]]]].
  - right. split; [tauto | done].
  - right. split.
    + intros (_ & _ & Hag). by apply ids_agree_not_diverge in Hag.
    + rewrite !gulp_heartbeats_app.
      destruct (socket_side_silent _ (close_events_side (ss st))) as (_ & -> & _).
      by destruct (socket_side_silent _
                     (rebuild_events_side E (new_sockets (fresh st) (ports A))))
        as (_ & -> & _).
  - right. split; [|done]. by intros (H & _).
  - left. by repeat split.
  - left. repeat split; try done.
    + intros ->. by apply Hb.
    + destruct (engine_side_silent rest Hside) as (_ & Hh & _).
      change (60 :: gulp_heartbeats rest = [60]). by rewrite Hh.
Qed.

End SynchronizerClaims.

(** C1 (amended).  In every cycle the merged body is handed to the decision
    engine pipeline exactly when every accepted connection's payload began
    with a line that parses as an integer batch id, all parsed ids are
    identical and the merged body is not the empty string; it is handed over
    at most once, and never any other text.  A cycle in which a read raises,
    so that a connection gave no payload at all, hands nothing over. *)
Theorem C1_forwarded_iff_usable (int_of_str : string -> option Z) A E cls st :
  let evs := events_of (process_gulp int_of_str A E (map Ok cls)) st in
  (forwarded_bodies evs = [merged_body int_of_str cls] \/ forwarded_bodies evs = [])
  /\ (forwarded_bodies evs = [merged_body int_of_str cls]
      <-> all_parse int_of_str cls /\ ids_agree int_of_str cls
          /\ merged_body int_of_str cls <> EmptyString)
  /\ (forall rs e, In (Raise e) rs ->
        forwarded_bodies (events_of (process_gulp int_of_str A E rs) st) = []).
Proof.
  intros evs. subst evs.
  rewrite ?process_gulp_texts in *.
  assert (Hun : forall rs e, In (Raise e) rs ->
            forwarded_bodies (events_of (process_gulp int_of_str A E rs) st) = []).
  { intros rs e Hin. by destruct (unread_cycle int_of_str A E rs e st Hin) as [-> _]. }
  destruct (forwarded_cases int_of_str A E cls st) as [[Hu ->]|[Hn ->]].
  - split; [by left|]. by split.
  - split; [by right|]. split; [|exact Hun].
    split; [done|]. intros H. by apply Hn in H.
Qed.

(** C1 as stated fails: three payloads "42", newline, blank, newline give a
    merged body of whitespace, and that body is handed to the decision
    engine. *)
Lemma C1_counterexample :
  let cls := Sample.three Sample.blank_row in
  ~ (forwarded_bodies (Sample.cycle_events cls) <> []
     <-> all_parse py_int cls /\ ids_agree py_int cls
         /\ blank (merged_body py_int cls) = false).
Proof.
  intros cls [H _].
  assert (Hfw : forwarded_bodies (Sample.cycle_events cls) <> [])
    by (vm_compute; discriminate).
  destruct (H Hfw) as (_ & _ & Hb). vm_compute in Hb. discriminate.
Qed.

(** C2 (amended).  In every cycle in which every accepted connection gave a
    parseable id, the ids agree and the merged body is empty, the status code
    published is 0, nothing is handed to the decision engine, and no
    listening endpoint is closed or bound: the endpoints stay as they were. *)
Theorem C2_empty_gulp_status_zero (int_of_str : string -> option Z) A E cls st :
  cls <> [] -> all_parse int_of_str cls -> ids_agree int_of_str cls ->
  merged_body int_of_str cls = EmptyString ->
  let evs := events_of (process_gulp int_of_str A E (map Ok cls)) st in
  let st' := snd (process_gulp int_of_str A E (map Ok cls) st) in
  fst (process_gulp int_of_str A E (map Ok cls) st) = Ok Continue
  /\ status_codes evs = [0] /\ forwarded_bodies evs = []
  /\ closed_endpoints evs = [] /\ bind_attempts evs = []
  /\ ss st' = ss st.
Proof.
  intros Hne Hall Hag Hbody evs st'. subst evs st'.
  rewrite ?process_gulp_texts in *.
  assert (Hev : events_of (process_texts int_of_str A E cls) st
                = [EvPut "/mon/service/T2gulp" (Heartbeat 60);
                   EvPut "/mon/T2/1" (GulpStatus 0 t2_num)]).
  { apply events_of_intro.
    rewrite (process_texts_empty int_of_str A E cls st) by done.
    simpl. by rewrite <- app_assoc. }
  rewrite Hev, (process_texts_empty int_of_str A E cls st) by done.
  by repeat split.
Qed.

Lemma C2_witness :
  let cls := Sample.three Sample.header_only in
  (cls <> [] /\ all_parse py_int cls /\ ids_agree py_int cls
   /\ merged_body py_int cls = EmptyString)
  /\ status_codes (Sample.cycle_events cls) = [0]
  /\ ss (Sample.cycle_state cls) = ss Sample.listening3.
Proof.
  intros cls.
  assert (Hag : ids_agree py_int cls)
    by (apply ids_agree_size; vm_compute; reflexivity).
  assert (Hall : all_parse py_int cls)
    by (apply parsed_ids_full; vm_compute; reflexivity).
  destruct (C2_empty_gulp_status_zero py_int
              (Sample.args_of [5000; 5001; 5002]) Sample.quiet_env cls
              Sample.listening3 ltac:(discriminate) Hall Hag eq_refl)
    as (_ & Hst & _ & _ & _ & Hss).
  split; [by repeat split | split; [exact Hst | exact Hss]].
Defined.

(** C2 as stated fails twice over.  A header-only gulp has agreeing ids and
    an empty body, and the status published is 0.  A gulp whose body is
    whitespace is not discarded at all. *)
Lemma C2_counterexample :
  (let cls := Sample.three Sample.header_only in
   ~ (ids_agree py_int cls -> blank (merged_body py_int cls) = true ->
      exists n, status_codes (Sample.cycle_events cls) = [n] /\ n <> 0))
  /\ (let cls := Sample.three Sample.blank_row in
      ~ (ids_agree py_int cls -> blank (merged_body py_int cls) = true ->
         forwarded_bodies (Sample.cycle_events cls) = [])).
Proof.
  split; intros cls H.
  - destruct H as (n & Hn & Hnz).
    + apply ids_agree_size. vm_compute. reflexivity.
    + vm_compute. reflexivity.
    + vm_compute in Hn. congruence.
  - assert (Hfw : forwarded_bodies (Sample.cycle_events cls) = []).
    { apply H; [apply ids_agree_size|]; vm_compute; reflexivity. }
    vm_compute in Hfw. discriminate.
Qed.

(** C3 (amended).  In every cycle in which every accepted connection gave a
    parseable id and more than one distinct id was received, nothing is
    handed to the decision engine, status code 2 is published, every
    listening endpoint is closed, one new socket per configured port is
    tried, and the endpoints listening afterwards are the new sockets whose
    bind succeeded. *)
Theorem C3_divergent_gulp_resync (int_of_str : string -> option Z) A E cls st :
  all_parse int_of_str cls -> ids_diverge int_of_str cls ->
  let evs := events_of (process_gulp int_of_str A E (map Ok cls)) st in
  let st' := snd (process_gulp int_of_str A E (map Ok cls) st) in
  fst (process_gulp int_of_str A E (map Ok cls) st) = Ok Continue
  /\ forwarded_bodies evs = []
  /\ status_codes evs = [2]
  /\ closed_endpoints evs = ss st
  /\ bind_attempts evs
     = map (fun s => (s, bind_ok E s)) (new_sockets (fresh st) (ports A))
  /\ ss st' = List.filter (bind_ok E) (new_sockets (fresh st) (ports A))
  /\ map sock_port (new_sockets (fresh st) (ports A)) = ports A.
Proof.
  intros Hall Hdiv evs st'. subst evs st'.
  rewrite ?process_gulp_texts in *.
  destruct (divergent_events int_of_str A E cls st Hall Hdiv) as (-> & Hss & Hres).
  set (sk := new_sockets (fresh st) (ports A)).
  destruct (socket_side_silent _ (close_events_side (ss st))) as (F1 & _ & S1 & _).
  destruct (socket_side_silent _ (rebuild_events_side E sk)) as (F2 & _ & S2 & _).
  rewrite !forwarded_bodies_app, !status_codes_app, !closed_endpoints_app,
    !bind_attempts_app, F1, F2, S1, S2.
  rewrite closed_of_close_events, closed_of_rebuild_events,
    binds_of_close_events, binds_of_rebuild_events.
  repeat split; try done.
  - by rewrite app_nil_r.
  - by rewrite app_nil_r.
  - apply new_sockets_ports.
Qed.

Lemma C3_witness :
  let cls := [Sample.line "42"; Sample.line "43"; Sample.line "42"] in
  (all_parse py_int cls /\ ids_diverge py_int cls)
  /\ status_codes (Sample.cycle_events cls) = [2]
  /\ closed_endpoints (Sample.cycle_events cls) = ss Sample.listening3.
Proof.
  intros cls.
  assert (Hdiv : ids_diverge py_int cls)
    by (apply ids_diverge_size, Nat.ltb_lt; vm_compute; reflexivity).
  assert (Hall : all_parse py_int cls)
    by (apply parsed_ids_full; vm_compute; reflexivity).
  destruct (C3_divergent_gulp_resync py_int
              (Sample.args_of [5000; 5001; 5002]) Sample.quiet_env cls
              Sample.listening3 Hall Hdiv)
    as (_ & _ & Hst & Hcl & _).
  split; [by split | split; [exact Hst | exact Hcl]].
Defined.

(** C3 as stated fails: with ids 42 and 43 and a third payload that does not
    parse, two distinct ids were received, yet the status published is 1 and
    no endpoint is closed. *)
Lemma C3_counterexample :
  let cls := [Sample.line "42"; Sample.line "43"; "x"] in
  ~ (ids_diverge py_int cls ->
     status_codes (Sample.cycle_events cls) = [2]
     /\ closed_endpoints (Sample.cycle_events cls) = ss Sample.listening3).
Proof.
  intros cls H.
  destruct H as (Hst & _).
  - apply ids_diverge_size, Nat.ltb_lt. vm_compute. reflexivity.
  - vm_compute in Hst. discriminate.
Qed.

(** X22.  In every cycle in which every read returned its text and fewer
    connections gave a parseable id than were accepted, status code 1 is published, nothing is handed to the
    decision engine, no listening endpoint is closed or bound, and the
    endpoints stay as they were: with one endpoint per configured port the
    head of the next iteration binds nothing and accepts on the same ones. *)
Theorem X22_incomplete_gulp (int_of_str : string -> option Z) A E cls st :
  (length (parsed_ids int_of_str cls) < length cls)%nat ->
  let evs := events_of (process_gulp int_of_str A E (map Ok cls)) st in
  let st' := snd (process_gulp int_of_str A E (map Ok cls) st) in
  fst (process_gulp int_of_str A E (map Ok cls) st) = Ok Continue
  /\ status_codes evs = [1] /\ forwarded_bodies evs = []
  /\ closed_endpoints evs = [] /\ bind_attempts evs = []
  /\ ss st' = ss st
  /\ (length (ss st) = length (ports A) ->
      forall E', build_endpoints A E' st' = (Ok tt, st')).
Proof.
  intros Hlt evs st'. subst evs st'.
  rewrite ?process_gulp_texts in *.
  assert (Hne : length (parsed_ids int_of_str cls) <> length cls) by lia.
  assert (Hev : events_of (process_texts int_of_str A E cls) st
                = [EvPut "/mon/T2/1" (GulpStatus 1 t2_num)]).
  { apply events_of_intro.
    by rewrite (process_texts_incomplete int_of_str A E cls st Hne). }
  rewrite Hev, (process_texts_incomplete int_of_str A E cls st Hne).
  repeat split; try done.
  intros Hlen E'. by apply build_endpoints_skip.
Qed.

Lemma X22_witness :
  let cls := [Sample.line "42"; "x"; Sample.line "42"] in
  (length (parsed_ids py_int cls) < length cls)%nat
  /\ status_codes (Sample.cycle_events cls) = [1]
  /\ ss (Sample.cycle_state cls) = ss Sample.listening3.
Proof.
  intros cls.
  assert (Hlt : (length (parsed_ids py_int cls) < length cls)%nat)
    by (vm_compute; lia).
  destruct (X22_incomplete_gulp py_int
              (Sample.args_of [5000; 5001; 5002]) Sample.quiet_env cls
              Sample.listening3 Hlt)
    as (_ & Hst & _ & _ & _ & Hss & _).
  split; [exact Hlt | split; [exact Hst | exact Hss]].
Defined.

(** C4.  A source whose payload is not valid UTF-8 has given no parseable
    id, yet its cycle is not discarded with status 1: the decoding of line
    120 stands outside the [try] of lines 123-130, so with such a payload on
    the second of three connections the [UnicodeDecodeError] ends
    [parse_socket] in the first cycle, after the liveness heartbeat and
    before any status code.  With a text that decodes and is no integer on
    the same connection, the handler of lines 126-130 skips the client: each
    cycle publishes status 1 and the loop goes on with the same endpoints. *)
Theorem C4_undecodable_payload_is_fatal :
  let A := Sample2.args3 in
  let bad := Sample2.env_second (Raise UnicodeDecodeError) in
  let odd := Sample2.env_second (Ok "x") in
  fst (parse_socket py_int A 0 None [bad; bad]) = Died UnicodeDecodeError
  /\ status_codes (log (snd (parse_socket py_int A 0 None [bad; bad]))) = []
  /\ service_heartbeats (log (snd (parse_socket py_int A 0 None [bad; bad]))) = [60]
  /\ fst (parse_socket py_int A 0 None [odd; odd]) = Running
  /\ status_codes (log (snd (parse_socket py_int A 0 None [odd; odd]))) = [1; 1]
  /\ map sock_id (ss (snd (parse_socket py_int A 0 None [odd; odd]))) = [0; 1; 2]%nat.
Proof. vm_compute. by repeat split. Qed.

(** C9 (amended).  In every cycle the second heartbeat, the write to
    /mon/service/T2gulp, is published exactly when at least one connection
    was accepted, every accepted connection gave a parseable id and all ids
    agree, and then once: a cycle discarded as incomplete or as divergent
    never publishes it, nor does a cycle in which a read raises. *)
Theorem C9_heartbeat_iff_received (int_of_str : string -> option Z) A E cls st :
  let evs := events_of (process_gulp int_of_str A E (map Ok cls)) st in
  (gulp_heartbeats evs = [60] \/ gulp_heartbeats evs = [])
  /\ (gulp_heartbeats evs = [60] <-> received int_of_str cls)
  /\ (~ all_parse int_of_str cls -> gulp_heartbeats evs = [])
  /\ (ids_diverge int_of_str cls -> gulp_heartbeats evs = [])
  /\ (forall rs e, In (Raise e) rs ->
        gulp_heartbeats (events_of (process_gulp int_of_str A E rs) st) = []).
Proof.
  intros evs. subst evs.
  rewrite ?process_gulp_texts in *.
  assert (Hun : forall rs e, In (Raise e) rs ->
            gulp_heartbeats (events_of (process_gulp int_of_str A E rs) st) = []).
  { intros rs e Hin. by destruct (unread_cycle int_of_str A E rs e st Hin) as [-> _]. }
  destruct (heartbeat_cases int_of_str A E cls st) as [[Hr ->]|[Hn ->]].
  - split; [by left|]. split; [by split|].
    destruct Hr as (_ & Hall & Hag). split; [|split; [|exact Hun]].
    + intros H. by apply H in Hall.
    + intros H. by apply ids_agree_not_diverge in Hag.
  - split; [by right|]. split; [|split; [done|split; [done|exact Hun]]].
    split; [done|]. intros H. by apply Hn in H.
Qed.

(** C9 as stated fails: a header-only gulp is discarded for its empty body,
    and the second heartbeat has been published for it. *)
Lemma C9_counterexample :
  let cls := Sample.three Sample.header_only in
  ~ (forwarded_bodies (Sample.cycle_events cls) = [] ->
     gulp_heartbeats (Sample.cycle_events cls) = []).
Proof.
  intros cls H.
  assert (Hhb : gulp_heartbeats (Sample.cycle_events cls) = [])
    by (apply H; vm_compute; reflexivity).
  vm_compute in Hhb. discriminate.
Qed.

(** C10.  For a payload whose first line parses as an integer batch id, the
    id is appended to the ids of the cycle in every case.  The rest of the
    payload is appended to the merged body when it holds at least two
    further lines of which the first is not empty, and it is then all of the
    payload after the first newline; otherwise the merged body is left as
    it was. *)
Theorem C10_id_counts_body_conditional
    (int_of_str : string -> option Z) candsfile gulps cf g :
  int_of_str (fst (split_first cf)) = Some g ->
  let lines := snd (split_first cf) in
  let has_rows := (2 <= length lines)%nat /\ hd EmptyString lines <> EmptyString in
  snd (read_client int_of_str (candsfile, gulps) cf) = gulps ++ [g]
  /\ (has_rows ->
      fst (read_client int_of_str (candsfile, gulps) cf) = candsfile +:+ join lines
      /\ cf = fst (split_first cf) +:+ NL +:+ join lines)
  /\ (~ has_rows ->
      fst (read_client int_of_str (candsfile, gulps) cf) = candsfile).
Proof.
  intros Hid lines has_rows. subst has_rows lines.
  unfold read_client.
  destruct (split_first cf) as [gulp lines] eqn:Hsplit. simpl in *.
  rewrite Hid.
  destruct (Nat.ltb_spec 1 (length lines)) as [Hlen|Hlen].
  - destruct (0 <? String.length (hd EmptyString lines))%nat eqn:Hhd; simpl.
    + split; [done|]. split; [|intros H; exfalso; apply H].
      * intros _. split; [done|].
        destruct lines as [|l lines]; [simpl in Hlen; lia|].
        by apply split_first_rest.
      * split; [lia|]. intros Hnil. rewrite Hnil in Hhd. discriminate.
    + split; [done|]. split; [|done].
      intros [_ Hne]. by apply length_zero_iff in Hhd.
  - simpl. split; [done|]. split; [|done]. intros [H _]. lia.
Qed.

(** The header-only payload: its id counts, its body is empty. *)
Lemma C10_witness :
  py_int (fst (split_first (Sample.line "42"))) = Some 42
  /\ read_client py_int (EmptyString, []) (Sample.line "42") = (EmptyString, [42]).
Proof.
  assert (Hid : py_int (fst (split_first (Sample.line "42"))) = Some 42)
    by (vm_compute; reflexivity).
  destruct (C10_id_counts_body_conditional py_int EmptyString [] (Sample.line "42") 42 Hid)
    as (Hids & _ & Hbody).
  split; [exact Hid|].
  rewrite (surjective_pairing (read_client py_int (EmptyString, []) (Sample.line "42"))).
  rewrite Hids, Hbody; [reflexivity|].
  intros [Hlen _]. vm_compute in Hlen. lia.
Defined.

(** ** The decision engine: the claims *)

(** *** The wide fraction *)

Lemma np_maximum_cases (m y : npval) : np_maximum m y = m \/ np_maximum m y = y.
Proof.
  destruct m, y; simpl; auto. all: by destruct (Qle_bool _ _); auto.
Qed.

Lemma pick_max_in (l : list npval) : forall x,
  In (fold_left np_maximum l x) (x :: l).
Proof.
  induction l as [|y l IH]; intros x; simpl; [by left|].
  destruct (IH (np_maximum x y)) as [H|H].
  - destruct (np_maximum_cases x y) as [Hm|Hm]; [left | right; left]; congruence.
  - right. by right.
Qed.

(** A NaN in the column makes the maximum NaN. *)
Lemma pick_max_nan (l : list npval) : forall x,
  In VNaN (x :: l) -> fold_left np_maximum l x = VNaN.
Proof.
  induction l as [|y l IH]; intros x Hin.
  - by destruct Hin as [->|[]].
  - cbn [fold_left]. apply IH.
    destruct Hin as [->|[->|Hin]]; [by left| |by right].
    left. by destruct x.
Qed.

Lemma np_eq_nan (a : npval) : np_eq a VNaN = false.
Proof. by destruct a. Qed.

Lemma np_eq_refl (a : npval) : a <> VNaN -> np_eq a a = true.
Proof.
  destruct a; try done. intros _. simpl. apply Qeq_bool_iff. reflexivity.
Qed.

(** The maximum of the column is the [snr] of one of the rows. *)
Lemma col_max_attained (tab : table) (m : npval) :
  col_max (map snr tab) = Ok m -> exists r, In r tab /\ snr r = m.
Proof.
  destruct tab as [|r0 tab]; [discriminate|].
  simpl. intros [= <-].
  pose proof (pick_max_in (map snr tab) (snr r0)) as Hin.
  change (snr r0 :: map snr tab) with (map snr (r0 :: tab)) in Hin.
  apply in_map_iff in Hin as (r & Hr & Hin). by exists r.
Qed.

(** With a NaN in the column the maximum is NaN and no row is found. *)
Lemma col_max_nan (tab : table) :
  Exists (fun r => snr r = VNaN) tab -> col_max (map snr tab) = Ok VNaN.
Proof.
  intros Hex. apply List.Exists_exists in Hex as (r & Hin & Hr).
  destruct tab as [|r0 tab]; [done|].
  simpl. f_equal. apply pick_max_nan.
  change (snr r0 :: map snr tab) with (map snr (r0 :: tab)).
  rewrite <- Hr. by apply in_map.
Qed.

Lemma cl_at_max_nan (tab : table) : cl_at_max tab VNaN = Raise IndexError.
Proof.
  unfold cl_at_max.
  destruct (List.find (fun r => np_eq (snr r) VNaN) tab) as [r|] eqn:Hfind; [|done].
  apply find_some in Hfind as [_ Hr]. by rewrite np_eq_nan in Hr.
Qed.

(** The row of the maximum is found, and it is a member of its cluster. *)
Lemma cl_at_max_member (tab : table) (m : npval) (c : Z) :
  cl_at_max tab m = Ok c -> (length (cluster_ibox tab c) <> 0)%nat.
Proof.
  unfold cl_at_max, cluster_ibox.
  destruct (List.find (fun r => np_eq (snr r) m) tab) as [r|] eqn:Hfind; [|discriminate].
  intros [= <-]. apply find_some in Hfind as [Hin _].
  assert (Hmem : In r (List.filter (fun r' => cl r' =? cl r) tab)).
  { apply filter_In. split; [done|]. apply Z.eqb_refl. }
  rewrite length_map. destruct (List.filter _ tab); [done | simpl; lia].
Qed.

Lemma cl_at_max_found (tab : table) (m : npval) :
  m <> VNaN -> (exists r, In r tab /\ snr r = m) -> exists c, cl_at_max tab m = Ok c.
Proof.
  intros Hm (r & Hin & Hr). unfold cl_at_max.
  destruct (List.find (fun r => np_eq (snr r) m) tab) as [r'|] eqn:Hfind; [by eexists|].
  eapply find_none in Hfind; [|exact Hin]. simpl in Hfind.
  rewrite Hr, np_eq_refl in Hfind; done.
Qed.

Lemma np_div_not_nan k n : n <> 0%nat -> np_div k n <> FNaN.
Proof. destruct n; [done|]. by intros _. Qed.

(** C6.  For every candidate table: whenever the maximum signal-to-noise
    and the cluster of the first row that carries it are found, that cluster
    has at least one member, so that the quotient of line 299 never has a
    zero denominator, and when it has exactly one member the wide fraction
    is exactly 0.0; a wide fraction that is computed is never the NaN of a
    0/0.  The maximum and its cluster are found exactly when the table has a
    row and no signal-to-noise in it is NaN: on a table without rows line
    296 raises [ValueError], with a NaN in the column line 297 raises
    [IndexError], and in both cases no fraction is computed at all. *)
Theorem C6_singleton_cluster_frac_wide (tab : table) :
  (forall maxsnr cl_max,
     col_max (map snr tab) = Ok maxsnr -> cl_at_max tab maxsnr = Ok cl_max ->
     (length (cluster_ibox tab cl_max) <> 0)%nat
     /\ (length (cluster_ibox tab cl_max) = 1%nat -> frac_wide_of tab = Ok (FQuot 0)))
  /\ (forall f, frac_wide_of tab = Ok f -> f <> FNaN)
  /\ (tab <> [] -> Forall (fun r => snr r <> VNaN) tab ->
      exists maxsnr cl_max f,
        col_max (map snr tab) = Ok maxsnr /\ cl_at_max tab maxsnr = Ok cl_max
        /\ frac_wide_of tab = Ok f)
  /\ (Exists (fun r => snr r = VNaN) tab -> frac_wide_of tab = Raise IndexError)
  /\ (tab = [] -> frac_wide_of tab = Raise ValueError).
Proof.
  split; [|split; [|split; [|split]]].
  - intros m c Hmax Hc. split; [by apply (cl_at_max_member tab m)|].
    intros Hone. unfold frac_wide_of. by rewrite Hmax, Hc, Hone.
  - intros f. unfold frac_wide_of.
    destruct (col_max (map snr tab)) as [m|e]; [|discriminate].
    destruct (cl_at_max tab m) as [c|e] eqn:Hc; [|discriminate].
    pose proof (cl_at_max_member tab m c Hc) as Hmem.
    intros [= <-].
    destruct (length (cluster_ibox tab c) =? 1)%nat; [done|].
    by apply np_div_not_nan.
  - intros Hne Hall.
    destruct (col_max (map snr tab)) as [m|e] eqn:Hmax.
    2:{ destruct tab; [done | discriminate]. }
    destruct (col_max_attained tab m Hmax) as (r & Hin & Hr).
    assert (Hm : m <> VNaN).
    { rewrite <- Hr. rewrite List.Forall_forall in Hall. by apply Hall. }
    destruct (cl_at_max_found tab m Hm) as [c Hc]; [by exists r|].
    exists m, c. unfold frac_wide_of. rewrite Hmax, Hc. by eexists.
  - intros Hex. unfold frac_wide_of.
    by rewrite (col_max_nan tab Hex), cl_at_max_nan.
  - by intros ->.
Qed.

Lemma C6_witness :
  frac_wide_of Sample.tab_ex = Ok (FQuot 0)
  /\ frac_wide_of (Sample.tab_ex ++ [{| snr := VNaN; ibox := 4; ibeam := 0; cl := 0 |}])
     = Raise IndexError.
Proof.
  destruct (C6_singleton_cluster_frac_wide Sample.tab_ex) as (Hone & _).
  split; [apply (Hone (VNum (12 # 1)) 1); reflexivity|].
  destruct (C6_singleton_cluster_frac_wide
              (Sample.tab_ex ++ [{| snr := VNaN; ibox := 4; ibeam := 0; cl := 0 |}]))
    as (_ & _ & _ & Hnan & _).
  apply Hnan. apply List.Exists_exists.
  exists {| snr := VNaN; ibox := 4; ibeam := 0; cl := 0 |}. split; [|reflexivity].
  apply in_or_app. right. by left.
Defined.

(** *** The window *)

Lemma deque_append_drop x q :
  (length q <= nbeams_maxlen)%nat ->
  deque_append nbeams_maxlen x q
  = drop (length (q ++ [x]) - nbeams_maxlen) (q ++ [x]).
Proof.
  intros Hq. unfold deque_append.
  rewrite length_app. simpl length.
  destruct (Nat.ltb_spec nbeams_maxlen (length q + 1)) as [Hlt|Hge].
  - replace (length q + 1 - nbeams_maxlen)%nat with 1%nat by lia.
    by destruct (q ++ [x]).
  - by replace (length q + 1 - nbeams_maxlen)%nat with 0%nat by lia.
Qed.

(** The window holds the last ten pushes, oldest first. *)
Lemma pushes_drop xs : forall q,
  (length q <= nbeams_maxlen)%nat ->
  pushes xs q = drop (length (q ++ xs) - nbeams_maxlen) (q ++ xs).
Proof.
  induction xs as [|x xs IH]; intros q Hq.
  - simpl. rewrite app_nil_r.
    by replace (length q - nbeams_maxlen)%nat with 0%nat by lia.
  - change (pushes (x :: xs) q) with (pushes xs (deque_append nbeams_maxlen x q)).
    rewrite IH by (by apply deque_append_length).
    rewrite deque_append_drop by done.
    rewrite length_app, length_drop, !length_app. simpl length.
    destruct (Nat.ltb_spec nbeams_maxlen (length q + 1)) as [Hlt|Hge].
    + replace (length q + 1 - nbeams_maxlen)%nat with 1%nat by lia.
      destruct q as [|y q]; [simpl in Hlt; unfold nbeams_maxlen in Hlt; lia|].
      simpl in *. rewrite drop_0, <- app_assoc. simpl.
      replace (length q + 1 - 0 + length xs - nbeams_maxlen)%nat
        with (length xs) by (unfold nbeams_maxlen in *; lia).
      replace (length q + S (length xs) - 9)%nat
        with (S (length xs)) by (unfold nbeams_maxlen in *; lia).
      done.
    + replace (length q + 1 - nbeams_maxlen)%nat with 0%nat by lia.
      rewrite drop_0, <- app_assoc. simpl.
      by replace (length q + 1 - 0 + length xs)%nat
        with (length q + S (length xs))%nat by lia.
Qed.

Lemma new_socket_window p : respects window_bounded (new_socket p).
Proof. intros st. by apply window_bounded_same. Qed.

Lemma bind_socket_window E s : respects window_bounded (bind_socket E s).
Proof.
  intros st. unfold bind_socket. destruct (bind_ok E s); by apply window_bounded_same.
Qed.

Lemma loop_body_window int_of_str A E :
  respects window_bounded (loop_body int_of_str A E).
Proof.
  unfold loop_body, build_endpoints, accept_all, process_gulp, dispatch_gulp, resync,
    gulp_status, listen, ss_append.
  window_tac.
  all: first [ apply new_socket_window
             | apply bind_socket_window
             | apply respects_emit; intros ?; by apply window_bounded_same
             | apply respects_modify; intros ?; by apply window_bounded_same
             | apply respects_modify; intros ? ?; by apply deque_append_length ].
Qed.

(** The window is within its capacity after every cycle of a run. *)
Lemma parse_socket_loop_window int_of_str A Es : forall st,
  (length (nbeams_queue st) <= nbeams_maxlen)%nat ->
  (length (nbeams_queue (snd (parse_socket_loop int_of_str A Es st))) <= nbeams_maxlen)%nat.
Proof.
  induction Es as [|E Es IH]; intros st Hst; [done|].
  simpl. pose proof (loop_body_window int_of_str A E st Hst) as Hstep.
  destruct (loop_body int_of_str A E st) as [[[]|e] st']; simpl in *; auto.
Qed.

(** C7.  The beam-activity window never holds more than 10 entries: not
    after any number of cycles of a run of [parse_socket], and not after any
    sequence of pushes, after which it holds the last ten pushed values.
    After 11 pushes it holds the ten values pushed last: the entry pushed
    first has been evicted, and its value is present only if it was pushed
    again. *)
Theorem C7_window_capacity :
  (forall int_of_str A now last Es,
     (length (nbeams_queue (snd (parse_socket int_of_str A now last Es))) <= 10)%nat)
  /\ (forall xs, pushes xs [] = drop (length xs - 10) xs
                 /\ (length (pushes xs []) <= 10)%nat)
  /\ (forall x rest, length rest = 10%nat ->
        pushes (x :: rest) [] = rest
        /\ (x ∉ rest -> x ∉ pushes (x :: rest) [])).
Proof.
  split; [|split].
  - intros int_of_str A now last Es. unfold parse_socket.
    apply (parse_socket_loop_window int_of_str A Es). simpl. lia.
  - intros xs. rewrite (pushes_drop xs []) by (simpl; lia).
    split; [done|]. simpl. rewrite length_drop. unfold nbeams_maxlen. lia.
  - intros x rest Hlen.
    rewrite (pushes_drop (x :: rest) []) by (simpl; lia).
    simpl length. rewrite Hlen. by split.
Qed.

Lemma C7_witness :
  length [2; 3; 4; 5; 6; 7; 8; 9; 10; 11] = 10%nat
  /\ pushes (1 :: [2; 3; 4; 5; 6; 7; 8; 9; 10; 11]) [] = [2; 3; 4; 5; 6; 7; 8; 9; 10; 11].
Proof.
  split; [reflexivity|].
  destruct C7_window_capacity as (_ & _ & H).
  destruct (H 1 [2; 3; 4; 5; 6; 7; 8; 9; 10; 11] eq_refl) as [Heq _].
  exact Heq.
Defined.

(** *** The boxcar filter *)

(** On the counts of a table of fewer than 2^50 rows, the float comparison
    [ibox64_cnt > 0.85] is the comparison of the exact ratio with 17/20. *)
Lemma gt_085_np_div (k n : nat) :
  (0 < n)%nat -> Z.of_nat n < 2 ^ 50 ->
  gt_085 (np_div k n) = true <-> 17 * Z.of_nat n < 20 * Z.of_nat k.
Proof.
  intros Hpos Hbound. destruct n as [|n]; [lia|].
  unfold np_div, gt_085, Qle_bool, d085. cbn [Qnum Qden].
  rewrite Z.leb_le.
  replace (Z.pos (Pos.of_nat (S n))) with (Z.of_nat (S n))
    by (rewrite <- Pos.of_nat_succ; by rewrite Zpos_P_of_succ_nat, Nat2Z.inj_succ).
  change (Z.pos (2 ^ 54)) with 18014398509481984.
  change (2 ^ 50) with 1125899906842624 in Hbound.
  lia.
Qed.

(** The written-out rounding agrees with the kernel's binary64 arithmetic on
    every pair of counts up to 128 rows. *)
Lemma gt_085_matches_binary64 :
  forallb (fun n =>
    forallb (fun k => Bool.eqb (gt_085 (np_div k n)) (gt_085_binary64 k n))
            (seq 0 (S n)))
    (seq 1 128) = true.
Proof. vm_compute. reflexivity. Qed.

Lemma ibox64_filter_iff (tab2 : table) :
  Z.of_nat (length tab2) < 2 ^ 50 ->
  ibox64_filter_of tab2 = true
  <-> (15 < length tab2)%nat
      /\ 17 * Z.of_nat (length tab2) < 20 * Z.of_nat (count64 tab2).
Proof.
  intros Hbound. unfold ibox64_filter_of, ibox64_cnt. fold (count64 tab2).
  rewrite length_map.
  destruct (Nat.eqb_spec (length tab2) 0) as [H0|H0]; cbn [negb].
  - split; [discriminate | lia].
  - destruct (gt_085 (np_div (count64 tab2) (length tab2))) eqn:Hgt;
      destruct (Nat.ltb_spec 15 (length tab2)) as [H15|H15]; cbn [andb].
    + apply gt_085_np_div in Hgt; [|lia|done]. by split.
    + split; [discriminate | lia].
    + split; [discriminate|]. intros [_ H].
      apply gt_085_np_div in H; [congruence|lia|done].
    + split; [discriminate | lia].
Qed.

(** A batch flagged by the boxcar filter never reaches the trigger/naming
    step, whatever the collaborators return. *)
Lemma cluster_and_plot_filtered C A tab tab1 tab2 gulp ln prev st :
  cluster_data C tab = Ok tab1 -> get_peak C tab1 = Ok tab2 ->
  ibox64_filter_of tab2 = true ->
  naming_calls (events_of (cluster_and_plot C A tab gulp ln prev) st) = [].
Proof.
  intros Hcd Hgp Hflag.
  unfold events_of, cluster_and_plot, nbeams_queue_append, bnd, lift, modify, ret,
    emit, get.
  rewrite Hcd, Hgp, Hflag.
  destruct (get_nbeams C tab2) as [nb|e]; [|simpl; by rewrite drop_all].
  destruct (frac_wide_of tab1) as [fw|e]; [|simpl; by rewrite drop_all].
  destruct (filter_clustered C tab2) as [tab3|e]; [|simpl; by rewrite drop_all].
  rewrite andb_false_r.
  destruct (is_some (outroot A) && negb (length tab2 =? 0)%nat);
    [destruct (set_trigger_col C tab2 _); [destruct (write_output C tab2 _)|]|];
    simpl; by rewrite ?drop_app_length, ?drop_all.
Qed.

(** The wide fraction handed to the trigger/naming step is the one of lines
    296-304, computed on the clustered table, and the beam count is the sum
    over the window after this batch's push. *)
Lemma naming_call_arguments C A tab gulp ln prev st a :
  a ∈ naming_calls (events_of (cluster_and_plot C A tab gulp ln prev) st) ->
  exists tab1 tab2 nb,
    cluster_data C tab = Ok tab1 /\ get_peak C tab1 = Ok tab2
    /\ get_nbeams C tab2 = Ok nb
    /\ frac_wide_of tab1 = Ok (na_frac_wide a)
    /\ ibox64_filter_of tab2 = false
    /\ na_nbeams a = sum_queue (deque_append nbeams_maxlen nb (nbeams_queue st))
    /\ na_gulp a = gulp /\ na_min_timedelt a = 60.
Proof.
  unfold events_of, cluster_and_plot, nbeams_queue_append, bnd, lift, modify, ret,
    emit, get.
  destruct (cluster_data C tab) as [tab1|e] eqn:Hcd;
    [|simpl; rewrite drop_all; by intros ?%elem_of_nil].
  destruct (get_peak C tab1) as [tab2|e] eqn:Hgp;
    [|simpl; rewrite drop_all; by intros ?%elem_of_nil].
  destruct (get_nbeams C tab2) as [nb|e] eqn:Hnb;
    [|simpl; rewrite drop_all; by intros ?%elem_of_nil].
  destruct (frac_wide_of tab1) as [fw|e] eqn:Hfw;
    [|simpl; rewrite drop_all; by intros ?%elem_of_nil].
  destruct (filter_clustered C tab2) as [tab3|e];
    [|simpl; rewrite drop_all; by intros ?%elem_of_nil].
  destruct (is_some (outroot A) && negb (length tab3 =? 0)%nat
            && negb (ibox64_filter_of tab2)) eqn:Hcond.
  - apply andb_prop in Hcond as [_ Hflag]. apply negb_true_iff in Hflag.
    set (a0 := {| na_trigger := trigger A; na_lastname := ln; na_gulp := gulp;
                  na_nbeams := sum_queue (deque_append nbeams_maxlen nb (nbeams_queue st));
                  na_frac_wide := fw; na_prev_trig_time := prev;
                  na_min_timedelt := min_timedelt |}).
    intros Hin. exists tab1, tab2, nb.
    assert (Ha : a = a0).
    { cbn [nbeams_queue set_queue] in Hin. fold a0 in Hin.
      destruct (naming_block C A tab2 tab3 a0) as [[[t4 ln1] tt1]|e];
        [destruct (is_some (outroot A) && negb (length tab2 =? 0)%nat);
           [destruct (set_trigger_col C tab2 _); [destruct (write_output C tab2 _)|]|]|];
        simpl in Hin; rewrite <- ?app_assoc in Hin;
        rewrite ?drop_app_length in Hin; simpl in Hin;
        repeat (apply elem_of_cons in Hin as [Hin|Hin]; [done|]);
        by apply elem_of_nil in Hin. }
    subst a. repeat split; first [done | reflexivity].
  - destruct (is_some (outroot A) && negb (length tab2 =? 0)%nat);
      [destruct (set_trigger_col C tab2 _); [destruct (write_output C tab2 _)|]|];
      simpl; rewrite <- ?app_assoc, ?drop_app_length, ?drop_all;
      by intros ?%elem_of_nil.
Qed.

(** C5 (amended).  For every batch whose peak-row set has more than 15 rows
    of which more than 85 percent have boxcar index 64, the batch is flagged
    boxcar-saturation filtered, and a flagged batch never reaches the
    trigger/naming step, whatever the thresholds let through.  The flag is
    raised in no other case.  (Peak-row sets of fewer than 2^50 rows, on
    which the float comparison is the comparison of the exact ratio.) *)
Theorem C5_boxcar_saturation C A tab tab1 tab2 gulp ln prev st :
  cluster_data C tab = Ok tab1 -> get_peak C tab1 = Ok tab2 ->
  Z.of_nat (length tab2) < 2 ^ 50 ->
  (ibox64_filter_of tab2 = true
   <-> (15 < length tab2)%nat
       /\ 17 * Z.of_nat (length tab2) < 20 * Z.of_nat (count64 tab2))
  /\ (ibox64_filter_of tab2 = true ->
      naming_calls (events_of (cluster_and_plot C A tab gulp ln prev) st) = []).
Proof.
  intros Hcd Hgp Hbound. split.
  - by apply ibox64_filter_iff.
  - intros Hflag. by eapply cluster_and_plot_filtered.
Qed.

Lemma C5_witness :
  ibox64_filter_of Sample.tab_90 = true
  /\ naming_calls
       (events_of (cluster_and_plot (Sample.engine_of Sample.tab_90)
                     (Sample.args_of [5000]) Sample.tab_90 42 None 0)
          Sample.st0) = [].
Proof.
  destruct (C5_boxcar_saturation (Sample.engine_of Sample.tab_90)
              (Sample.args_of [5000]) Sample.tab_90 Sample.tab_90 Sample.tab_90
              42 None 0 Sample.st0 eq_refl eq_refl ltac:(vm_compute; reflexivity))
    as [Hiff Hquiet].
  assert (Hflag : ibox64_filter_of Sample.tab_90 = true).
  { apply Hiff. split; vm_compute; [lia | reflexivity]. }
  split; [exact Hflag | exact (Hquiet Hflag)].
Defined.

(** C5 as stated fails at exactly 85 percent: of twenty peak rows seventeen
    have boxcar index 64, the batch is not flagged, and the trigger/naming
    step is invoked. *)
Lemma C5_counterexample :
  ~ ((15 < length Sample.tab_85)%nat ->
     85 * Z.of_nat (length Sample.tab_85) <= 100 * Z.of_nat (count64 Sample.tab_85) ->
     ibox64_filter_of Sample.tab_85 = true
     /\ naming_calls
          (events_of (cluster_and_plot (Sample.engine_of Sample.tab_85)
                        (Sample.args_of [5000]) Sample.tab_85 42 None 0)
             Sample.st0) = []).
Proof.
  intros H. destruct H as [Hflag _].
  - vm_compute. lia.
  - vm_compute. discriminate.
  - vm_compute in Hflag. discriminate.
Qed.

(** ** Building the endpoints *)

(** C8.  The rebuild after a resync skips an endpoint whose bind fails; the
    build at the head of the loop does not: with port 5001 taken, the initial
    build binds 5000, fails on 5001, and the [OSError] ends [parse_socket],
    where the rebuild in the same situation logs the failure, goes on and
    returns. *)
Theorem C8_entry_bind_failure_is_fatal :
  let A := Sample.args_of [5000; 5001] in
  let E := Sample.env_of [5001] (fun _ => Sample.line "42") Sample.tab_ex in
  fst (parse_socket py_int A 0 None [E]) = Died OSError
  /\ bind_attempts (log (snd (parse_socket py_int A 0 None [E])))
     = [({| sock_port := 5000; sock_id := 0 |}, true);
        ({| sock_port := 5001; sock_id := 1 |}, false)]
  /\ fst (resync A E Sample.st0) = Ok tt
  /\ ss (snd (resync A E Sample.st0)) = [{| sock_port := 5000; sock_id := 0 |}]
  /\ log (snd (resync A E Sample.st0))
     = [EvBind {| sock_port := 5000; sock_id := 0 |} true;
        EvListen {| sock_port := 5000; sock_id := 0 |};
        EvBind {| sock_port := 5001; sock_id := 1 |} false;
        EvPrint "socket bind failed."].
Proof. vm_compute. by repeat split. Qed.

(** ** Whole iterations *)

(** With its endpoints listening and no interrupt, an iteration is the
    liveness heartbeat followed by the processing of one payload per
    endpoint. *)
Lemma loop_body_listening int_of_str A E st :
  length (ss st) = length (ports A) -> accept_interrupted E = false ->
  loop_body int_of_str A E st
  = process_gulp int_of_str A E (map (payload E) (ss st))
      (add_log (EvPut "/mon/service/T2service" (Heartbeat 60)) st).
Proof.
  intros Hlen Hacc. unfold loop_body. unfold bnd at 1.
  rewrite (build_endpoints_skip A E st Hlen).
  unfold bnd at 1. unfold emit at 1. unfold bnd at 1. unfold accept_all.
  by rewrite Hacc.
Qed.

(** An interrupt while waiting in [accept] leaves the loop: [parse_socket]
    returns, and nothing is processed. *)
Lemma loop_body_interrupted int_of_str A E st :
  length (ss st) = length (ports A) -> accept_interrupted E = true ->
  loop_body int_of_str A E st
  = (Ok Break, add_log (EvPut "/mon/service/T2service" (Heartbeat 60)) st).
Proof.
  intros Hlen Hacc. unfold loop_body. unfold bnd at 1.
  rewrite (build_endpoints_skip A E st Hlen).
  unfold bnd at 1. unfold emit at 1. unfold bnd at 1. unfold accept_all.
  by rewrite Hacc.
Qed.

(** Scenario A: three sources send the id 42 and the same row; one batch is
    forwarded and status 0 is reported. *)
Example scenario_A :
  let A := Sample.args_of [5000; 5001; 5002] in
  let E := Sample.env_of [] (fun _ => Sample.line "42" +:+ Sample.line "row") Sample.tab_ex in
  let evs := events_of (loop_body py_int A E) Sample.st0 in
  length (forwarded_bodies evs) = 1%nat /\ status_codes evs = [0]
  /\ closed_endpoints evs = [].
Proof. vm_compute. by repeat split. Qed.

(** Scenario B: two sources send 42 and one sends 43; status 2 is reported,
    the three endpoints are closed and rebuilt, nothing is forwarded. *)
Example scenario_B :
  let A := Sample.args_of [5000; 5001; 5002] in
  let E := Sample.env_of []
             (fun p => if p =? 5001 then Sample.line "43" +:+ Sample.line "row"
                       else Sample.line "42" +:+ Sample.line "row") Sample.tab_ex in
  let evs := events_of (loop_body py_int A E) Sample.st0 in
  forwarded_bodies evs = [] /\ status_codes evs = [2]
  /\ map sock_id (closed_endpoints evs) = [0; 1; 2]%nat
  /\ map sock_id (ss (snd (loop_body py_int A E Sample.st0))) = [3; 4; 5]%nat.
Proof. vm_compute. by repeat split. Qed.

(** Scenario C: every source sends the header alone; status 0, nothing
    forwarded, no trigger. *)
Example scenario_C :
  let A := Sample.args_of [5000; 5001; 5002] in
  let E := Sample.env_of [] (fun _ => Sample.header_only) Sample.tab_ex in
  let evs := events_of (loop_body py_int A E) Sample.st0 in
  forwarded_bodies evs = [] /\ status_codes evs = [0] /\ naming_calls evs = [].
Proof. vm_compute. by repeat split. Qed.

(** * Further properties *)

(** ** The stream reader *)

Section StreamFacts.

Import Stream.

Lemma recv_well_formed k c :
  well_formed c -> well_formed (snd (recv k c)).
Proof.
  intros Hwf. destruct c as [|p rest]; [constructor|].
  inversion Hwf as [|? ? Hp Hrest]; subst. simpl.
  destruct (drop k p) as [|b q] eqn:Hd; [done|].
  by constructor.
Qed.

(** One [recv] splits off a prefix of the pending bytes. *)
Lemma recv_pending k c :
  fst (recv k c) ++ pending (snd (recv k c)) = pending c
  /\ fst (recv k c) = take k (hd [] c).
Proof.
  destruct c as [|p rest]; [simpl; by rewrite take_nil|]. simpl. split; [|done].
  assert (Hrest : concat (match drop k p with [] => rest | q => q :: rest end)
                  = drop k p ++ concat rest) by (by destruct (drop k p)).
  unfold pending. rewrite Hrest, app_assoc, take_drop. reflexivity.
Qed.

Lemma recvall_loop_spec fuel : forall n data c,
  well_formed c -> (length data <= n)%nat -> (length (pending c) < fuel)%nat ->
  exists c',
    recvall_loop fuel n data c
    = Some (data ++ take (n - length data) (pending c), c')
    /\ pending c' = drop (n - length data) (pending c)
    /\ well_formed c'.
Proof.
  induction fuel as [|fuel IH]; intros n data c Hwf Hlen Hfuel; [lia|].
  cbn [recvall_loop].
  destruct (Nat.ltb_spec (length data) n) as [Hlt|Hge].
  2:{ exists c. replace (n - length data)%nat with 0%nat by lia.
      by rewrite take_0, drop_0, app_nil_r. }
  destruct c as [|p rest].
  { exists []. simpl. by rewrite take_nil, drop_nil, app_nil_r. }
  inversion Hwf as [|? ? Hp Hrest]; subst.
  set (k := (n - length data)%nat) in *.
  pose proof (recv_pending k (p :: rest)) as [Hsplit Hfst].
  pose proof (recv_well_formed k (p :: rest) Hwf) as Hwf'.
  destruct (recv k (p :: rest)) as [packet c1] eqn:Hrecv.
  cbn [fst snd hd] in Hsplit, Hfst, Hwf'.
  assert (Hpk : packet <> []).
  { rewrite Hfst. destruct p; [done|]. destruct k eqn:Hk; [lia|done]. }
  assert (Hpkl : (length packet <= k)%nat).
  { rewrite Hfst. rewrite length_take. lia. }
  destruct packet as [|b packet]; [done|].
  assert (Hsz : (length (b :: packet) + length (pending c1)
                 = length (pending (p :: rest)))%nat)
    by (by rewrite <- Hsplit, length_app).
  destruct (IH n (data ++ b :: packet) c1) as (c' & Hrun & Hpend & Hwfc').
  - done.
  - rewrite length_app. lia.
  - cbn [length] in Hsz. lia.
  - exists c'. split; [|split; [|done]].
    + rewrite Hrun. f_equal. f_equal. rewrite <- app_assoc. f_equal.
      rewrite <- Hsplit. rewrite take_app.
      rewrite length_app.
      replace (n - (length data + length (b :: packet)))%nat
        with (k - length (b :: packet))%nat by lia.
      f_equal. symmetry. apply take_ge. lia.
    + rewrite Hpend, <- Hsplit, length_app.
      replace (n - (length data + length (b :: packet)))%nat
        with (k - length (b :: packet))%nat by lia.
      rewrite drop_app. rewrite (drop_ge (b :: packet)) by lia. done.
Qed.

End StreamFacts.

(** X1.  On a connection whose chunks are never empty, [recvall(sock, n)]
    returns the first [n] bytes of what the peer sent, or all of it when the
    peer closed before that, however the bytes were cut into chunks; what it
    did not read is left on the connection, in order.  It never returns more
    than [n] bytes. *)
Theorem X1_recvall_prefix (sock : Stream.conn) (n : nat) :
  Stream.well_formed sock ->
  exists sock',
    Stream.recvall sock n = Some (take n (Stream.pending sock), sock')
    /\ Stream.pending sock' = drop n (Stream.pending sock)
    /\ (length (take n (Stream.pending sock)) <= n)%nat
    /\ ((length (Stream.pending sock) <= n)%nat ->
        take n (Stream.pending sock) = Stream.pending sock /\ Stream.pending sock' = []).
Proof.
  intros Hwf. unfold Stream.recvall.
  destruct (recvall_loop_spec (S (length (Stream.pending sock))) n [] sock Hwf)
    as (c' & Hrun & Hpend & _); [simpl; lia | lia |].
  change (n - length (@nil Byte.byte))%nat with (n - 0)%nat in Hrun, Hpend.
  rewrite Nat.sub_0_r in Hrun, Hpend.
  exists c'. split; [exact Hrun|]. split; [exact Hpend|].
  split; [rewrite length_take; lia|].
  intros Hshort. split; [by apply take_ge|]. rewrite Hpend. by apply drop_ge.
Qed.

Lemma X1_witness :
  let sock : Stream.conn :=
    [[Byte.x34; Byte.x32]; [Byte.x0a; Byte.x61]; [Byte.x62; Byte.x0a]] in
  Stream.well_formed sock
  /\ exists sock',
       Stream.recvall sock 5
       = Some ([Byte.x34; Byte.x32; Byte.x0a; Byte.x61; Byte.x62], sock')
       /\ Stream.pending sock' = [Byte.x0a].
Proof.
  intros sock.
  assert (Hwf : Stream.well_formed sock) by (repeat constructor; discriminate).
  split; [exact Hwf|].
  destruct (X1_recvall_prefix sock 5 Hwf) as (sock' & Hrun & Hpend & _).
  exists sock'. split; [exact Hrun | exact Hpend].
Defined.

(** ** The decision engine, step by step *)

Lemma engine_step_refl st : engine_step st st.
Proof.
  split; [|done]. exists []. by rewrite app_nil_r.
Qed.

Lemma engine_step_trans a b c : engine_step a b -> engine_step b c -> engine_step a c.
Proof.
  intros [(e1 & H1 & F1) (S1 & N1 & P1 & G1 & L1)] [(e2 & H2 & F2) (S2 & N2 & P2 & G2 & L2)].
  split; [|repeat split; congruence].
  exists (e1 ++ e2). split; [|by apply Forall_app].
  by rewrite H2, H1, app_assoc.
Qed.

Lemma engine_step_emit e st : engine_only e -> engine_step st (add_log e st).
Proof.
  intros He. split; [|done]. exists [e]. split; [done|]. by constructor.
Qed.

Lemma engine_step_queue q st : engine_step st (set_queue q st).
Proof.
  split; [|done]. exists []. simpl. by rewrite app_nil_r.
Qed.

(** The decision engine changes nothing but the log and the window: not the
    endpoints, and not the trigger state, which only its caller updates. *)
Lemma cluster_and_plot_step C A tab gulp ln prev :
  respects engine_step (cluster_and_plot C A tab gulp ln prev).
Proof.
  unfold cluster_and_plot, nbeams_queue_append.
  repeat (respects_step engine_step_refl engine_step_trans).
  all: first [ apply respects_emit; intros ?; by apply engine_step_emit
             | apply respects_modify; intros ?; apply engine_step_queue ].
Qed.

Lemma engine_only_silent evs :
  Forall engine_only evs ->
  status_codes evs = [] /\ forwarded_bodies evs = [] /\ gulp_heartbeats evs = []
  /\ service_heartbeats evs = [] /\ closed_endpoints evs = []
  /\ bind_attempts evs = [].
Proof.
  induction 1 as [|e evs He _ IH]; [done|].
  destruct e; try done;
    change (status_codes evs = [] /\ forwarded_bodies evs = []
            /\ gulp_heartbeats evs = [] /\ service_heartbeats evs = []
            /\ closed_endpoints evs = [] /\ bind_attempts evs = []);
    done.
Qed.

Lemma service_heartbeats_app a b :
  service_heartbeats (a ++ b) = service_heartbeats a ++ service_heartbeats b.
Proof. apply omap_app. Qed.

Lemma naming_calls_app a b : naming_calls (a ++ b) = naming_calls a ++ naming_calls b.
Proof. apply omap_app. Qed.

Lemma output_calls_app a b : output_calls (a ++ b) = output_calls a ++ output_calls b.
Proof. apply omap_app. Qed.

(** The four ways the [try] statement of lines 181-211 can end. *)
Lemma run_engine_cases A E c gulp st :
  let st1 := add_log (EvParse c) st in
  (exists e, parse_candsfile (engine E) c = Raise e
     /\ run_engine A E c gulp st
        = match e with
          | KeyboardInterrupt => (Ok (Some Break), st1)
          | OverflowError =>
              (Ok (Some Continue), add_log (EvPut "/mon/T2/1" (GulpStatus 3 t2_num)) st1)
          | _ => (Raise e, st1)
          end)
  \/ (exists tab, parse_candsfile (engine E) c = Ok tab
      /\ run_engine A E c gulp st
         = match cluster_and_plot (engine E) A tab gulp (lastname st) (prev_trig_time st) st1 with
           | (Ok named, st2) => (Ok None, set_trigger_state (fst named) (snd named) st2)
           | (Raise KeyboardInterrupt, st2) => (Ok (Some Break), st2)
           | (Raise OverflowError, st2) =>
               (Ok (Some Continue), add_log (EvPut "/mon/T2/1" (GulpStatus 3 t2_num)) st2)
           | (Raise e, st2) => (Raise e, st2)
           end).
Proof.
  intros st1. unfold run_engine, catch, bnd, emit, lift, get, modify, ret, raise,
    gulp_status. fold st1.
  destruct (parse_candsfile (engine E) c) as [tab|e] eqn:Hparse.
  - right. exists tab. split; [done|].
    change (lastname st1) with (lastname st).
    change (prev_trig_time st1) with (prev_trig_time st).
    destruct (cluster_and_plot (engine E) A tab gulp (lastname st) (prev_trig_time st) st1)
      as [[named|e] st2]; [done|]. by destruct e.
  - left. exists e. split; [done|]. by destruct e.
Qed.

(** Without a call of the trigger/naming step the engine returns the name it
    was given and no trigger time. *)
Lemma cluster_and_plot_unnamed C A tab gulp ln prev st named st2 :
  cluster_and_plot C A tab gulp ln prev st = (Ok named, st2) ->
  naming_calls (events_of (cluster_and_plot C A tab gulp ln prev) st) = [] ->
  named = (ln, None).
Proof.
  unfold events_of. intros Hrun. rewrite Hrun. revert Hrun.
  unfold cluster_and_plot, nbeams_queue_append, bnd, lift, modify, ret, emit, get.
  destruct (cluster_data C tab) as [tab1|e]; [|discriminate].
  destruct (get_peak C tab1) as [tab2|e]; [|discriminate].
  destruct (get_nbeams C tab2) as [nb|e]; [|discriminate].
  destruct (frac_wide_of tab1) as [fw|e]; [|discriminate].
  destruct (filter_clustered C tab2) as [tab3|e]; [|discriminate].
  destruct (is_some (outroot A) && negb (length tab3 =? 0)%nat
            && negb (ibox64_filter_of tab2)).
  - destruct (naming_block C A tab2 tab3 _) as [[[t4 ln1] tt1]|e]; [|discriminate].
    destruct (is_some (outroot A) && negb (length tab2 =? 0)%nat);
      [destruct (set_trigger_col C tab2 _);
         [destruct (write_output C tab2 _); [|discriminate]|discriminate]|];
      intros [= <- <-]; simpl; rewrite <- ?app_assoc, drop_app_length; discriminate.
  - destruct (is_some (outroot A) && negb (length tab2 =? 0)%nat);
      [destruct (set_trigger_col C tab2 _);
         [destruct (write_output C tab2 _); [|discriminate]|discriminate]|];
      by intros [= <- <-].
Qed.

Section OutcomeFacts.

Variable int_of_str : string -> option Z.

Local Abbreviation parsed_ids := (parsed_ids int_of_str).
Local Abbreviation merged_body := (merged_body int_of_str).
Local Abbreviation all_parse := (all_parse int_of_str).
Local Abbreviation ids_agree := (ids_agree int_of_str).
Local Abbreviation ids_diverge := (ids_diverge int_of_str).
Local Abbreviation usable := (usable int_of_str).
Local Abbreviation process_texts := (process_texts int_of_str).

(** A usable batch: the second heartbeat, then the [try] statement, then
    status 0 unless a handler took over. *)
Lemma process_texts_usable_eq A E cls st :
  usable cls ->
  exists g,
    head (parsed_ids cls) = Some g
    /\ process_texts A E cls st
       = match run_engine A E (merged_body cls) g
                 (add_log (EvPut "/mon/service/T2gulp" (Heartbeat 60)) st) with
         | (Ok (Some x), st2) => (Ok x, st2)
         | (Ok None, st2) =>
             (Ok Continue, add_log (EvPut "/mon/T2/1" (GulpStatus 0 t2_num)) st2)
         | (Raise e, st2) => (Raise e, st2)
         end.
Proof.
  intros (Hall & Hag & Hbody).
  pose proof (merged_body_eqb int_of_str cls) as Heqb.
  destruct (parsed_ids cls) as [|g rest] eqn:Hids.
  { apply parsed_ids_full in Hall. rewrite Hids in Hall.
    destruct cls; [by exfalso; apply Hbody | discriminate]. }
  exists g. split; [done|].
  set (st1 := add_log (EvPut "/mon/service/T2gulp" (Heartbeat 60)) st).
  unfold process_texts. rewrite read_all_pair. unfold dispatch_gulp.
  apply parsed_ids_full in Hall. rewrite Hall, Nat.eqb_refl. cbn [negb].
  pose proof Hag as Hsz. apply ids_agree_size in Hsz. rewrite Hsz.
  unfold bnd at 1. unfold lift at 1.
  rewrite (set_pop_agree int_of_str cls g rest Hids Hag).
  unfold bnd at 1. unfold emit at 1.
  rewrite Heqb. apply String.eqb_neq in Hbody. rewrite Hbody.
  fold st1. unfold bnd at 1.
  by destruct (run_engine A E (merged_body cls) g st1) as [[[x|]|e] st2].
Qed.

(** How a usable batch ends: completed with status 0, interrupted,
    abandoned with status 3, or failed with an exception that is not
    handled. *)
Lemma usable_outcome A E cls st :
  usable cls ->
  let pg := process_texts A E cls st in
  let evs := events_of (process_texts A E cls) st in
  let hb := EvPut "/mon/service/T2gulp" (Heartbeat 60) in
  exists rest,
    Forall engine_only rest
    /\ ss (snd pg) = ss st /\ fresh (snd pg) = fresh st
    /\ ((fst pg = Ok Continue
         /\ evs = hb :: EvParse (merged_body cls) :: rest
                  ++ [EvPut "/mon/T2/1" (GulpStatus 0 t2_num)]
         /\ globct (snd pg) = S (globct st)
         /\ (naming_calls rest = [] ->
             lastname (snd pg) = lastname st
             /\ prev_trig_time (snd pg) = prev_trig_time st))
        \/ (fst pg = Ok Break
            /\ evs = hb :: EvParse (merged_body cls) :: rest
            /\ same_trigger_state st (snd pg))
        \/ (fst pg = Ok Continue
            /\ evs = hb :: EvParse (merged_body cls) :: rest
                     ++ [EvPut "/mon/T2/1" (GulpStatus 3 t2_num)]
            /\ same_trigger_state st (snd pg))
        \/ (exists e, e <> KeyboardInterrupt /\ e <> OverflowError
            /\ fst pg = Raise e
            /\ evs = hb :: EvParse (merged_body cls) :: rest
            /\ same_trigger_state st (snd pg))).
Proof.
  intros Hus pg evs hb. subst pg evs.
  destruct (process_texts_usable_eq A E cls st Hus) as (g & _ & Heq).
  unfold events_of. rewrite Heq. clear Heq.
  fold hb. set (st1 := add_log hb st).
  set (stP := add_log (EvParse (merged_body cls)) st1).
  assert (HlogP : log stP = log st ++ [hb; EvParse (merged_body cls)])
    by (simpl; by rewrite <- app_assoc).
  destruct (run_engine_cases A E (merged_body cls) g st1)
    as [(e & _ & ->)|(tab & _ & ->)]; fold stP.
  - exists []. split; [constructor|].
    destruct e; simpl; rewrite <- ?app_assoc, drop_app_length.
    all: repeat split; try done.
    all: try (right; left; by repeat split).
    all: try (right; right; left; by repeat split).
    all: right; right; right; eexists; by repeat split.
  - change (lastname st1) with (lastname st).
    change (prev_trig_time st1) with (prev_trig_time st).
    pose proof (cluster_and_plot_step (engine E) A tab g (lastname st)
                  (prev_trig_time st) stP) as Hstep.
    pose proof (cluster_and_plot_unnamed (engine E) A tab g (lastname st)
                  (prev_trig_time st) stP) as Hun.
    unfold events_of in Hun.
    destruct (cluster_and_plot (engine E) A tab g (lastname st) (prev_trig_time st) stP)
      as [[named|e] st2]; simpl in Hstep;
      destruct Hstep as [(rest & Hlog & Hside) (Hss & Hfr & Hp & Hg & Hl)];
      exists rest; (split; [exact Hside|]).
    + simpl. rewrite Hss, Hfr, Hlog, HlogP, Hg. rewrite <- !app_assoc, drop_app_length.
      split; [done|]. split; [done|]. left.
      split; [done|]. split; [done|]. split; [done|].
      intros Hnone. specialize (Hun named st2 eq_refl). simpl in Hun.
      rewrite Hlog, drop_app_length in Hun. rewrite (Hun Hnone). simpl.
      by rewrite Hp.
    + destruct e; simpl; rewrite ?Hss, ?Hfr, Hlog, HlogP;
        rewrite <- ?app_assoc, drop_app_length.
      all: repeat split; try done.
      all: try (right; left; by repeat split).
      all: try (right; right; left; by repeat split).
      all: right; right; right; eexists; by repeat split.
Qed.

End OutcomeFacts.

(** ** Every way a cycle can end *)

Section CycleResult.

Variable int_of_str : string -> option Z.

Local Abbreviation parsed_ids := (parsed_ids int_of_str).
Local Abbreviation merged_body := (merged_body int_of_str).
Local Abbreviation all_parse := (all_parse int_of_str).
Local Abbreviation ids_agree := (ids_agree int_of_str).
Local Abbreviation ids_diverge := (ids_diverge int_of_str).
Local Abbreviation usable := (usable int_of_str).
Local Abbreviation received := (received int_of_str).
Local Abbreviation process_texts := (process_texts int_of_str).

Lemma cycle_result A E cls st :
  let pg := process_texts A E cls st in
  let evs := events_of (process_texts A E cls) st in
  (~ all_parse cls /\ fst pg = Ok Continue
     /\ evs = [EvPut "/mon/T2/1" (GulpStatus 1 t2_num)]
     /\ vars_eq st (snd pg) /\ ss (snd pg) = ss st)
  \/ (all_parse cls /\ ids_diverge cls /\ fst pg = Ok Continue
      /\ evs = map EvClose (ss st)
               ++ flat_map (rebuild_events E) (new_sockets (fresh st) (ports A))
               ++ [EvPut "/mon/T2/1" (GulpStatus 2 t2_num)]
      /\ vars_eq st (snd pg))
  \/ (cls = [] /\ pg = (Raise KeyError, st) /\ evs = [])
  \/ (received cls /\ merged_body cls = EmptyString /\ fst pg = Ok Continue
      /\ evs = [EvPut "/mon/service/T2gulp" (Heartbeat 60);
                EvPut "/mon/T2/1" (GulpStatus 0 t2_num)]
      /\ vars_eq st (snd pg) /\ ss (snd pg) = ss st)
  \/ usable cls.
Proof.
  intros pg evs. subst pg evs.
  destruct (decide (length (parsed_ids cls) = length cls)) as [Hlen|Hlen].
  2:{ left. rewrite <- parsed_ids_full. split; [done|].
      unfold events_of.
      rewrite (process_texts_incomplete int_of_str A E cls st Hlen). simpl.
      by rewrite drop_app_length. }
  right. pose proof Hlen as Hall. apply parsed_ids_full in Hall.
  destruct (1 <? size (gulp_set (parsed_ids cls)))%nat eqn:Hsz.
  { left. apply Nat.ltb_lt, ids_diverge_size in Hsz.
    destruct (divergent_events int_of_str A E cls st Hall Hsz) as (Hev & _ & Hres).
    repeat split; try done.
    all: rewrite (process_texts_divergent int_of_str A E cls st Hlen Hsz);
      destruct (resync_spec A E st) as (st' & -> & _ & _ & _ & Hv);
      by destruct Hv as (?&?&?&?). }
  right. apply ids_agree_size in Hsz.
  destruct cls as [|cf cls].
  { left. split; [done|]. split; [done|]. unfold events_of.
    rewrite (process_texts_no_connection int_of_str). simpl. apply drop_all. }
  right. destruct (String.eqb_spec (merged_body (cf :: cls)) EmptyString) as [Hb|Hb].
  - left. unfold events_of.
    rewrite (process_texts_empty int_of_str A E (cf :: cls) st) by done.
    simpl. rewrite <- app_assoc, drop_app_length. by repeat split.
  - right. by repeat split.
Qed.

End CycleResult.

Lemma status_events_observed (cs : list Z) :
  let evs := map (fun c => EvPut "/mon/T2/1" (GulpStatus c t2_num)) cs in
  status_codes evs = cs /\ forwarded_bodies evs = [] /\ naming_calls evs = []
  /\ service_heartbeats evs = [] /\ gulp_heartbeats evs = []
  /\ closed_endpoints evs = [] /\ bind_attempts evs = [].
Proof.
  induction cs as [|c cs (H1 & H2 & H3 & H4 & H5 & H6 & H7)]; [done|].
  cbn zeta in *. repeat split; try done.
  change (c :: status_codes (map (fun c => EvPut "/mon/T2/1" (GulpStatus c t2_num)) cs)
          = c :: cs).
  by rewrite H1.
Qed.

(** What is seen of a usable batch: the second heartbeat, the hand-over, the
    events of the engine and the status codes [cs] at the end. *)
Lemma usable_events_observed b rest (cs : list Z) :
  Forall engine_only rest ->
  let evs := EvPut "/mon/service/T2gulp" (Heartbeat 60) :: EvParse b :: rest
             ++ map (fun c => EvPut "/mon/T2/1" (GulpStatus c t2_num)) cs in
  status_codes evs = cs /\ forwarded_bodies evs = [b]
  /\ naming_calls evs = naming_calls rest
  /\ service_heartbeats evs = [] /\ gulp_heartbeats evs = [60]
  /\ closed_endpoints evs = [] /\ bind_attempts evs = [].
Proof.
  intros Hrest evs. subst evs.
  destruct (engine_only_silent rest Hrest) as (R1 & R2 & R3 & R4 & R5 & R6).
  destruct (status_events_observed cs) as (T1 & T2 & T3 & T4 & T5 & T6 & T7).
  cbn zeta in *.
  set (tl := map (fun c => EvPut "/mon/T2/1" (GulpStatus c t2_num)) cs) in *.
  repeat split.
  - change (status_codes (rest ++ tl) = cs). by rewrite status_codes_app, R1, T1.
  - change (b :: forwarded_bodies (rest ++ tl) = [b]).
    by rewrite forwarded_bodies_app, R2, T2.
  - change (naming_calls (rest ++ tl) = naming_calls rest).
    by rewrite naming_calls_app, T3, app_nil_r.
  - change (service_heartbeats (rest ++ tl) = []).
    by rewrite service_heartbeats_app, R4, T4.
  - change (60 :: gulp_heartbeats (rest ++ tl) = [60]).
    by rewrite gulp_heartbeats_app, R3, T5.
  - change (closed_endpoints (rest ++ tl) = []).
    by rewrite closed_endpoints_app, R5, T6.
  - change (bind_attempts (rest ++ tl) = []).
    by rewrite bind_attempts_app, R6, T7.
Qed.

(** What is seen of a resync. *)
Lemma resync_events_observed E (old new : list sock) (cs : list Z) :
  let evs := map EvClose old ++ flat_map (rebuild_events E) new
             ++ map (fun c => EvPut "/mon/T2/1" (GulpStatus c t2_num)) cs in
  status_codes evs = cs /\ forwarded_bodies evs = [] /\ naming_calls evs = []
  /\ service_heartbeats evs = [] /\ gulp_heartbeats evs = [].
Proof.
  intros evs. subst evs.
  destruct (socket_side_silent _ (close_events_side old)) as (F1 & G1 & S1 & N1).
  destruct (socket_side_silent _ (rebuild_events_side E new)) as (F2 & G2 & S2 & N2).
  destruct (status_events_observed cs) as (T1 & T2 & T3 & T4 & T5 & _).
  cbn zeta in *.
  assert (Hs : forall l, Forall socket_side l -> service_heartbeats l = []).
  { induction 1 as [|e l He _ IH]; [done|]. by destruct e. }
  rewrite !status_codes_app, !forwarded_bodies_app, !naming_calls_app,
    !service_heartbeats_app, !gulp_heartbeats_app.
  rewrite F1, F2, G1, G2, S1, S2, N1, N2, T1, T2, T3, T4, T5.
  rewrite (Hs _ (close_events_side old)), (Hs _ (rebuild_events_side E new)).
  done.
Qed.

Section CycleSummary.

Variable int_of_str : string -> option Z.

Local Abbreviation merged_body := (merged_body int_of_str).
Local Abbreviation all_parse := (all_parse int_of_str).
Local Abbreviation ids_diverge := (ids_diverge int_of_str).
Local Abbreviation usable := (usable int_of_str).
Local Abbreviation received := (received int_of_str).
Local Abbreviation process_texts := (process_texts int_of_str).

(** The eight outcomes of a cycle, with what each publishes, forwards and
    changes. *)
Lemma cycle_summary A E cls st :
  let r := fst (process_texts A E cls st) in
  let st' := snd (process_texts A E cls st) in
  let evs := events_of (process_texts A E cls) st in
  let codes := status_codes evs in
  let fw := forwarded_bodies evs in
  let nam := naming_calls evs in
  (~ all_parse cls /\ r = Ok Continue /\ codes = [1] /\ fw = [] /\ nam = []
     /\ same_trigger_state st st')
  \/ (all_parse cls /\ ids_diverge cls /\ r = Ok Continue /\ codes = [2] /\ fw = []
      /\ nam = [] /\ same_trigger_state st st')
  \/ (cls = [] /\ r = Raise KeyError /\ codes = [] /\ fw = [] /\ nam = []
      /\ same_trigger_state st st')
  \/ (received cls /\ merged_body cls = EmptyString /\ r = Ok Continue /\ codes = [0]
      /\ fw = [] /\ nam = [] /\ same_trigger_state st st')
  \/ (usable cls /\ fw = [merged_body cls]
      /\ ((r = Ok Continue /\ codes = [0] /\ globct st' = S (globct st)
           /\ (nam = [] -> lastname st' = lastname st
                           /\ prev_trig_time st' = prev_trig_time st))
          \/ (r = Ok Break /\ codes = [] /\ same_trigger_state st st')
          \/ (r = Ok Continue /\ codes = [3] /\ same_trigger_state st st')
          \/ (exists e, e <> KeyboardInterrupt /\ e <> OverflowError
              /\ r = Raise e /\ codes = [] /\ same_trigger_state st st'))).
Proof.
  intros r st' evs codes fw nam. subst r st' codes fw nam evs.
  destruct (cycle_result int_of_str A E cls st)
    as [(Hn & Hr & -> & Hv & _)|[(Ha & Hd & Hr & -> & Hv)|[(-> & -> & ->)
       |[(Hrec & Hb & Hr & -> & Hv & _)|Hus]]]].
  - left. destruct Hv as (?&?&?&?). by repeat split.
  - right. left.
    destruct (resync_events_observed E (ss st) (new_sockets (fresh st) (ports A)) [2])
      as (Hc & Hf & Hm & _). cbn zeta in Hc, Hf, Hm. cbn [map] in Hc, Hf, Hm.
    rewrite Hc, Hf, Hm.
    destruct Hv as (?&?&?&?). by repeat split.
  - right. right. left. by repeat split.
  - right. right. right. left. destruct Hv as (?&?&?&?).
    split; [exact Hrec|]. by repeat split.
  - right. right. right. right. split; [done|].
    destruct (usable_outcome int_of_str A E cls st Hus)
      as (rest & Hside & _ & _ & [(Hr & -> & Hg & Hnam)|[(Hr & -> & Hts)
          |[(Hr & -> & Hts)|(e & He1 & He2 & Hr & -> & Hts)]]]).
    + destruct (usable_events_observed (merged_body cls) rest [0] Hside)
        as (Hc & Hf & Hm & _). cbn zeta in Hc, Hf, Hm. cbn [map] in Hc, Hf, Hm.
      rewrite Hc, Hf, Hm.
      split; [done|]. left. split; [done|]. split; [done|]. split; [done|].
      exact Hnam.
    + destruct (usable_events_observed (merged_body cls) rest [] Hside)
        as (Hc & Hf & _). cbn zeta in Hc, Hf. cbn [map] in Hc, Hf.
      rewrite app_nil_r in Hc, Hf. rewrite Hc, Hf.
      split; [done|]. right. left. split; [done|]. split; [done|]. exact Hts.
    + destruct (usable_events_observed (merged_body cls) rest [3] Hside)
        as (Hc & Hf & _). cbn zeta in Hc, Hf. cbn [map] in Hc, Hf.
      rewrite Hc, Hf.
      split; [done|]. right. right. left.
      split; [done|]. split; [done|]. exact Hts.
    + destruct (usable_events_observed (merged_body cls) rest [] Hside)
        as (Hc & Hf & _). cbn zeta in Hc, Hf. cbn [map] in Hc, Hf.
      rewrite app_nil_r in Hc, Hf. rewrite Hc, Hf.
      split; [done|]. right. right. right. exists e.
      split; [done|]. split; [done|]. split; [done|]. split; [done|]. exact Hts.
Qed.

End CycleSummary.

(** ** The gulp synchroniser: what every cycle publishes and keeps *)

(** X2.  A cycle that goes on to the next iteration has published exactly
    one status code, one of 0, 1, 2 and 3; a cycle that leaves the loop, by
    [break] or by an exception, has published none. *)
Theorem X2_status_once_per_cycle (int_of_str : string -> option Z) A E rs st :
  let r := fst (process_gulp int_of_str A E rs st) in
  let evs := events_of (process_gulp int_of_str A E rs) st in
  (r = Ok Continue /\ exists c, status_codes evs = [c] /\ 0 <= c <= 3)
  \/ (r <> Ok Continue /\ status_codes evs = []).
Proof.
  intros r evs. subst r evs.
  destruct (read_loop_cases int_of_str rs (EmptyString, [])) as [[cls ->]|(e & He & _)].
  2:{ right. rewrite (unread_events int_of_str A E rs e st He),
        (process_gulp_unread int_of_str A E rs e st He). by split. }
  rewrite ?process_gulp_texts in *.
  destruct (cycle_summary int_of_str A E cls st)
    as [(_ & Hr & Hc & _)|[(_ & _ & Hr & Hc & _)|[(_ & Hr & Hc & _)
       |[(_ & _ & Hr & Hc & _)|(_ & _ & [(Hr & Hc & _)|[(Hr & Hc & _)
       |[(Hr & Hc & _)|(e & _ & _ & Hr & Hc & _)]]])]]]];
    rewrite Hr, Hc.
  all: first [ left; split; [done|]; eexists; split; [reflexivity | lia]
             | right; by split ].
Qed.

(** X3.  Status code 3 is published only for a usable batch that was handed
    to the decision engine and abandoned there: the loop goes on, and the
    output counter, the previous trigger name and time and the listening
    endpoints are what they were. *)
Theorem X3_status_3_abandons_batch (int_of_str : string -> option Z) A E rs st :
  status_codes (events_of (process_gulp int_of_str A E rs) st) = [3] ->
  let r := fst (process_gulp int_of_str A E rs st) in
  let st' := snd (process_gulp int_of_str A E rs st) in
  let evs := events_of (process_gulp int_of_str A E rs) st in
  exists cls,
    rs = map Ok cls
    /\ usable int_of_str cls /\ r = Ok Continue
    /\ forwarded_bodies evs = [merged_body int_of_str cls]
    /\ same_trigger_state st st' /\ ss st' = ss st.
Proof.
  intros H3 r st' evs. subst r st' evs.
  destruct (read_loop_cases int_of_str rs (EmptyString, [])) as [[cls ->]|(e & He & _)].
  2:{ by rewrite (unread_events int_of_str A E rs e st He) in H3. }
  exists cls. split; [done|].
  rewrite ?process_gulp_texts in *.
  destruct (cycle_summary int_of_str A E cls st)
    as [(_ & _ & Hc & _)|[(_ & _ & _ & Hc & _)|[(_ & _ & Hc & _)
       |[(_ & _ & _ & Hc & _)|(Hus & Hf & [(_ & Hc & _)|[(_ & Hc & _)
       |[(Hr & Hc & Hts)|(e & _ & _ & _ & Hc & _)]]])]]]];
    rewrite Hc in H3; try discriminate.
  destruct (usable_outcome int_of_str A E cls st Hus) as (_ & _ & Hss & _).
  split; [exact Hus|]. split; [exact Hr|]. split; [exact Hf|].
  split; [exact Hts | exact Hss].
Qed.

Lemma X3_witness :
  let E := Sample2.env_with (Sample2.engine_raising OverflowError) false in
  status_codes (events_of (process_gulp py_int Sample2.args3 E (map Ok Sample2.rows3))
                  Sample.listening3) = [3]
  /\ fst (process_gulp py_int Sample2.args3 E (map Ok Sample2.rows3) Sample.listening3)
     = Ok Continue
  /\ globct (snd (process_gulp py_int Sample2.args3 E (map Ok Sample2.rows3) Sample.listening3))
     = 0%nat.
Proof.
  intros E.
  assert (H3 : status_codes (events_of (process_gulp py_int Sample2.args3 E (map Ok Sample2.rows3))
                               Sample.listening3) = [3])
    by (vm_compute; reflexivity).
  destruct (X3_status_3_abandons_batch py_int Sample2.args3 E (map Ok Sample2.rows3)
              Sample.listening3 H3) as (cls & _ & _ & Hr & _ & (_ & Hg & _) & _).
  split; [exact H3 | split; [exact Hr | exact Hg]].
Defined.

(** X4.  The output counter [globct] advances by one in exactly the cycles
    that hand a batch to the decision engine and then publish status 0; in
    every other cycle it stays as it is. *)
Theorem X4_globct_counts_completed (int_of_str : string -> option Z) A E rs st :
  let st' := snd (process_gulp int_of_str A E rs st) in
  let evs := events_of (process_gulp int_of_str A E rs) st in
  (exists cls,
     rs = map Ok cls
     /\ forwarded_bodies evs = [merged_body int_of_str cls] /\ status_codes evs = [0]
     /\ globct st' = S (globct st))
  \/ (~ (forwarded_bodies evs <> [] /\ status_codes evs = [0])
      /\ globct st' = globct st).
Proof.
  intros st' evs. subst st' evs.
  destruct (read_loop_cases int_of_str rs (EmptyString, [])) as [[cls ->]|(e & He & _)].
  2:{ right. rewrite (unread_events int_of_str A E rs e st He),
        (process_gulp_unread int_of_str A E rs e st He).
      split; [|done]. by intros [Hne _]. }
  rewrite ?process_gulp_texts in *.
  destruct (cycle_summary int_of_str A E cls st)
    as [(_ & _ & Hc & Hf & _ & Hts)|[(_ & _ & _ & Hc & Hf & _ & Hts)
       |[(_ & _ & Hc & Hf & _ & Hts)
       |[(_ & _ & _ & Hc & Hf & _ & Hts)|(_ & Hf & [(_ & Hc & Hg & _)|[(_ & Hc & Hts)
       |[(_ & Hc & Hts)|(e & _ & _ & _ & Hc & Hts)]]])]]]];
    rewrite Hc, Hf.
  5: left; exists cls; by repeat split.
  all: right; split; [|by destruct Hts as (_ & ? & _)].
  all: intros [Hne Hz]; first [discriminate | by apply Hne].
Qed.

(** X5.  A cycle in which the trigger/naming step is not invoked leaves the
    previous trigger name and the previous trigger time as they were. *)
Theorem X5_trigger_state_needs_naming (int_of_str : string -> option Z) A E rs st :
  naming_calls (events_of (process_gulp int_of_str A E rs) st) = [] ->
  let st' := snd (process_gulp int_of_str A E rs st) in
  lastname st' = lastname st /\ prev_trig_time st' = prev_trig_time st.
Proof.
  intros Hnam st'. subst st'.
  destruct (read_loop_cases int_of_str rs (EmptyString, [])) as [[cls ->]|(e & He & _)].
  2:{ by rewrite (process_gulp_unread int_of_str A E rs e st He). }
  rewrite ?process_gulp_texts in *.
  destruct (cycle_summary int_of_str A E cls st)
    as [(_ & _ & _ & _ & _ & Hts)|[(_ & _ & _ & _ & _ & _ & Hts)
       |[(_ & _ & _ & _ & _ & Hts)
       |[(_ & _ & _ & _ & _ & _ & Hts)|(_ & _ & [(_ & _ & _ & Hn)|[(_ & _ & Hts)
       |[(_ & _ & Hts)|(e & _ & _ & _ & _ & Hts)]]])]]]].
  5: by apply Hn.
  all: by destruct Hts as (? & _ & ?).
Qed.

Lemma X5_witness :
  let E := Sample.env_of [] (fun _ => EmptyString) Sample.tab_90 in
  naming_calls (events_of (process_gulp py_int Sample2.args3 E (map Ok Sample2.rows3))
                  Sample.listening3) = []
  /\ globct (snd (process_gulp py_int Sample2.args3 E (map Ok Sample2.rows3) Sample.listening3))
     = 1%nat
  /\ prev_trig_time (snd (process_gulp py_int Sample2.args3 E (map Ok Sample2.rows3)
                            Sample.listening3)) = 0.
Proof.
  intros E.
  assert (Hn : naming_calls (events_of (process_gulp py_int Sample2.args3 E (map Ok Sample2.rows3))
                               Sample.listening3) = [])
    by (vm_compute; reflexivity).
  destruct (X5_trigger_state_needs_naming py_int Sample2.args3 E (map Ok Sample2.rows3)
              Sample.listening3 Hn) as (_ & Hp).
  split; [exact Hn | split; [vm_compute; reflexivity | exact Hp]].
Defined.


(** X7.  When the table parser raises on a usable batch, nothing of the
    decision engine has run: the window and the trigger state are untouched.
    A [KeyboardInterrupt] leaves the loop, an [OverflowError] publishes
    status 3 and goes on, and any other exception leaves [parse_socket]
    with no status published. *)
Theorem X7_parser_exception (int_of_str : string -> option Z) A E cls st e :
  usable int_of_str cls ->
  parse_candsfile (engine E) (merged_body int_of_str cls) = Raise e ->
  let r := fst (process_gulp int_of_str A E (map Ok cls) st) in
  let st' := snd (process_gulp int_of_str A E (map Ok cls) st) in
  let evs := events_of (process_gulp int_of_str A E (map Ok cls)) st in
  r = match e with
      | KeyboardInterrupt => Ok Break
      | OverflowError => Ok Continue
      | _ => Raise e
      end
  /\ evs = EvPut "/mon/service/T2gulp" (Heartbeat 60)
           :: EvParse (merged_body int_of_str cls)
           :: match e with
              | OverflowError => [EvPut "/mon/T2/1" (GulpStatus 3 t2_num)]
              | _ => []
              end
  /\ nbeams_queue st' = nbeams_queue st
  /\ same_trigger_state st st'.
Proof.
  intros Hus Hparse r st' evs. subst r st' evs.
  rewrite ?process_gulp_texts in *.
  destruct (process_texts_usable_eq int_of_str A E cls st Hus) as (g & _ & Heq).
  unfold events_of. rewrite Heq. clear Heq.
  destruct (run_engine_cases A E (merged_body int_of_str cls) g
              (add_log (EvPut "/mon/service/T2gulp" (Heartbeat 60)) st))
    as [(e' & Hp & ->)|(tab & Hp & _)]; [|congruence].
  assert (e' = e) by congruence. subst e'.
  destruct e; simpl; rewrite <- ?app_assoc, drop_app_length; by repeat split.
Qed.

Lemma X7_witness :
  let E := Sample2.env_with (Sample2.engine_raising ValueError) false in
  usable py_int Sample2.rows3
  /\ fst (process_gulp py_int Sample2.args3 E (map Ok Sample2.rows3) Sample.listening3)
     = Raise ValueError
  /\ fst (parse_socket py_int Sample2.args3 0 None [E; E]) = Died ValueError.
Proof.
  intros E.
  assert (Hus : usable py_int Sample2.rows3).
  { split; [apply parsed_ids_full; vm_compute; reflexivity|].
    split; [apply ids_agree_size; vm_compute; reflexivity|].
    vm_compute. discriminate. }
  destruct (X7_parser_exception py_int Sample2.args3 E Sample2.rows3
              Sample.listening3 ValueError Hus eq_refl) as (Hr & _).
  split; [exact Hus | split; [exact Hr | vm_compute; reflexivity]].
Defined.

(** ** Whole iterations: the head of the loop *)

Lemma log_only_refl P st : log_only P st st.
Proof. exists []. by rewrite app_nil_r. Qed.

Lemma log_only_trans P a b c : log_only P a b -> log_only P b c -> log_only P a c.
Proof.
  intros (e1 & H1 & F1) (e2 & H2 & F2).
  exists (e1 ++ e2). split; [|by apply Forall_app].
  by rewrite H2, H1, app_assoc.
Qed.

Lemma log_only_same P st st' : log st' = log st -> log_only P st st'.
Proof. intros H. exists []. by rewrite app_nil_r. Qed.

Lemma log_only_add P e st : P e -> log_only P st (add_log e st).
Proof. intros He. exists [e]. split; [done|]. by constructor. Qed.

(** The events of a computation whose log only grows are what it appended. *)
Lemma log_only_events {A} P (m : M A) st :
  respects (log_only P) m ->
  log (snd (m st)) = log st ++ events_of m st /\ Forall P (events_of m st).
Proof.
  intros Hm. destruct (Hm st) as (evs & Hlog & Hall).
  by rewrite (events_of_intro m st evs Hlog).
Qed.

Ltac log_only_tac P :=
  repeat (respects_step (log_only_refl P) (log_only_trans P)).

Lemma new_socket_log P p : respects (log_only P) (new_socket p).
Proof. intros st. by apply log_only_same. Qed.

Lemma bind_socket_log (P : event -> Prop) E s :
  (forall ok, P (EvBind s ok)) -> respects (log_only P) (bind_socket E s).
Proof.
  intros HP st. unfold bind_socket. destruct (bind_ok E s); by apply log_only_add.
Qed.

(** The head of the loop only binds and listens. *)
Lemma build_endpoints_log A E : respects (log_only socket_side) (build_endpoints A E).
Proof.
  unfold build_endpoints, listen, ss_append. log_only_tac socket_side.
  all: first [ apply new_socket_log
             | by apply bind_socket_log
             | apply respects_emit; intros ?; by apply log_only_add
             | apply respects_modify; intros ?; by apply log_only_same ].
Qed.

(** Whatever a cycle does, it only adds to the log. *)
Lemma process_gulp_log int_of_str A E cls :
  respects (log_only (fun _ => True)) (process_gulp int_of_str A E cls).
Proof.
  unfold process_gulp, dispatch_gulp, resync, gulp_status, listen, ss_append.
  log_only_tac (fun _ : event => True).
  all: first [ apply new_socket_log
             | by apply bind_socket_log
             | apply respects_emit; intros ?; by apply log_only_add
             | apply respects_modify; intros ?; by apply log_only_same ].
Qed.

(** A cycle never writes the liveness heartbeat. *)
Lemma process_texts_no_service int_of_str A E cls st :
  service_heartbeats (events_of (process_texts int_of_str A E cls) st) = [].
Proof.
  destruct (cycle_result int_of_str A E cls st)
    as [(_ & _ & -> & _)|[(_ & _ & _ & -> & _)|[(_ & _ & ->)
       |[(_ & _ & _ & -> & _)|Hus]]]]; try done.
  - destruct (resync_events_observed E (ss st) (new_sockets (fresh st) (ports A)) [2])
      as (_ & _ & _ & Hs & _). exact Hs.
  - destruct (usable_outcome int_of_str A E cls st Hus)
      as (rest & Hside & _ & _ & [(_ & -> & _)|[(_ & -> & _)
          |[(_ & -> & _)|(e & _ & _ & _ & -> & _)]]]).
    + by destruct (usable_events_observed (merged_body int_of_str cls) rest [0] Hside)
        as (_ & _ & _ & Hs & _).
    + destruct (usable_events_observed (merged_body int_of_str cls) rest [] Hside)
        as (_ & _ & _ & Hs & _). cbn zeta in Hs. cbn [map] in Hs.
      by rewrite app_nil_r in Hs.
    + by destruct (usable_events_observed (merged_body int_of_str cls) rest [3] Hside)
        as (_ & _ & _ & Hs & _).
    + destruct (usable_events_observed (merged_body int_of_str cls) rest [] Hside)
        as (_ & _ & _ & Hs & _). cbn zeta in Hs. cbn [map] in Hs.
      by rewrite app_nil_r in Hs.
Qed.

Lemma process_gulp_no_service int_of_str A E rs st :
  service_heartbeats (events_of (process_gulp int_of_str A E rs) st) = [].
Proof.
  destruct (read_loop_cases int_of_str rs (EmptyString, [])) as [[cls ->]|(e & He & _)].
  - rewrite process_gulp_texts. apply process_texts_no_service.
  - by rewrite (unread_events int_of_str A E rs e st He).
Qed.

Lemma socket_side_no_service evs :
  Forall socket_side evs -> service_heartbeats evs = [].
Proof. induction 1 as [|e l He _ IH]; [done|]. by destruct e. Qed.

(** The events of an iteration: those of the build, then the liveness
    heartbeat, then those of the cycle. *)
Lemma loop_body_events int_of_str A E st :
  let b := build_endpoints A E st in
  let hb := EvPut "/mon/service/T2service" (Heartbeat 60) in
  Forall socket_side (events_of (build_endpoints A E) st)
  /\ match fst b with
     | Raise e =>
         loop_body int_of_str A E st = (Raise e, snd b)
         /\ events_of (loop_body int_of_str A E) st = events_of (build_endpoints A E) st
     | Ok _ =>
         if accept_interrupted E then
           loop_body int_of_str A E st = (Ok Break, add_log hb (snd b))
           /\ events_of (loop_body int_of_str A E) st
              = events_of (build_endpoints A E) st ++ [hb]
         else
           let cls := map (payload E) (ss (snd b)) in
           loop_body int_of_str A E st
           = process_gulp int_of_str A E cls (add_log hb (snd b))
           /\ events_of (loop_body int_of_str A E) st
              = events_of (build_endpoints A E) st ++ [hb]
                ++ events_of (process_gulp int_of_str A E cls) (add_log hb (snd b))
     end.
Proof.
  intros b hb. subst b.
  destruct (log_only_events socket_side (build_endpoints A E) st
              (build_endpoints_log A E)) as [Hblog Hbside].
  split; [exact Hbside|].
  destruct (build_endpoints A E st) as [[[]|e] st1] eqn:Hb; cbn [fst snd] in *.
  - assert (Hloop : loop_body int_of_str A E st
                    = if accept_interrupted E then (Ok Break, add_log hb st1)
                      else process_gulp int_of_str A E (map (payload E) (ss st1))
                             (add_log hb st1)).
    { unfold loop_body. unfold bnd at 1. rewrite Hb.
      unfold bnd at 1. unfold emit at 1. fold hb. unfold bnd at 1. unfold accept_all.
      by destruct (accept_interrupted E). }
    destruct (accept_interrupted E).
    + split; [exact Hloop|]. apply events_of_intro. rewrite Hloop. simpl.
      by rewrite Hblog, <- app_assoc.
    + split; [exact Hloop|]. apply events_of_intro. rewrite Hloop.
      destruct (log_only_events (fun _ => True)
                  (process_gulp int_of_str A E (map (payload E) (ss st1)))
                  (add_log hb st1) (process_gulp_log int_of_str A E _)) as [Hplog _].
      rewrite Hplog. simpl. by rewrite Hblog, <- !app_assoc.
  - assert (Hloop : loop_body int_of_str A E st = (Raise e, st1)).
    { unfold loop_body. unfold bnd at 1. by rewrite Hb. }
    split; [exact Hloop|]. apply events_of_intro. by rewrite Hloop.
Qed.

(** X8.  An iteration whose endpoints could be built publishes the liveness
    heartbeat, the write to /mon/service/T2service, exactly once, whatever
    the cycle then does; an iteration whose build raises publishes neither
    the heartbeat nor a status code, and the exception leaves the loop. *)
Theorem X8_liveness_heartbeat (int_of_str : string -> option Z) A E st :
  let evs := events_of (loop_body int_of_str A E) st in
  (fst (build_endpoints A E st) = Ok tt /\ service_heartbeats evs = [60])
  \/ (exists e, fst (build_endpoints A E st) = Raise e
      /\ fst (loop_body int_of_str A E st) = Raise e
      /\ service_heartbeats evs = [] /\ status_codes evs = []).
Proof.
  intros evs. subst evs.
  destruct (loop_body_events int_of_str A E st) as [Hside Hcases].
  pose proof (socket_side_no_service _ Hside) as Hbs.
  destruct (socket_side_silent _ Hside) as (_ & _ & Hst & _).
  destruct (fst (build_endpoints A E st)) as [[]|e].
  - left. split; [done|].
    destruct (accept_interrupted E); destruct Hcases as [_ ->].
    + by rewrite service_heartbeats_app, Hbs.
    + rewrite !service_heartbeats_app, Hbs, process_gulp_no_service. done.
  - right. exists e. destruct Hcases as [-> ->]. by repeat split.
Qed.

(** X9.  An interrupt while the loop waits in [accept] makes [parse_socket]
    return: nothing is read, no batch is forwarded, no status code and no
    second heartbeat are published, and the cycles that would have followed
    are not run. *)
Theorem X9_interrupted_accept (int_of_str : string -> option Z) A E rest st :
  fst (build_endpoints A E st) = Ok tt -> accept_interrupted E = true ->
  let evs := events_of (loop_body int_of_str A E) st in
  fst (loop_body int_of_str A E st) = Ok Break
  /\ status_codes evs = [] /\ forwarded_bodies evs = [] /\ gulp_heartbeats evs = []
  /\ parse_socket_loop int_of_str A (E :: rest) st
     = (Returned, snd (loop_body int_of_str A E st)).
Proof.
  intros Hb Hacc evs. subst evs.
  destruct (loop_body_events int_of_str A E st) as [Hside Hcases].
  destruct (socket_side_silent _ Hside) as (Hf & Hg & Hst & _).
  rewrite Hb, Hacc in Hcases. destruct Hcases as [Hloop Hev].
  rewrite Hev, status_codes_app, forwarded_bodies_app, gulp_heartbeats_app, Hf, Hg, Hst.
  cbn [parse_socket_loop]. rewrite Hloop. by repeat split.
Qed.

Lemma X9_witness :
  let E := Sample2.env_with (Sample.engine_of Sample.tab_ex) true in
  fst (build_endpoints Sample2.args3 E Sample.st0) = Ok tt
  /\ fst (parse_socket py_int Sample2.args3 0 None [E; E]) = Returned
  /\ status_codes (events_of (loop_body py_int Sample2.args3 E) Sample.st0) = [].
Proof.
  intros E.
  assert (Hb : fst (build_endpoints Sample2.args3 E Sample.st0) = Ok tt)
    by (vm_compute; reflexivity).
  destruct (X9_interrupted_accept py_int Sample2.args3 E [E] Sample.st0 Hb eq_refl)
    as (_ & Hst & _ & _ & Hrun).
  split; [exact Hb|]. split; [|exact Hst].
  unfold parse_socket. change (init_state 0 None) with Sample.st0. by rewrite Hrun.
Defined.

(** The build at the head of the loop, when every bind succeeds. *)
Lemma build_loop_full E ports : forall st,
  Forall (fun s => bind_ok E s = true) (new_sockets (fresh st) ports) ->
  exists st',
    for_each ports (fun port =>
         s <~ new_socket port ;;
         bind_socket E s ;;
         listen s ;;
         ss_append s) st = (Ok tt, st')
    /\ log st' = log st ++ flat_map build_events (new_sockets (fresh st) ports)
    /\ ss st' = ss st ++ new_sockets (fresh st) ports.
Proof.
  induction ports as [|p ports IH]; intros st Hall.
  - exists st. simpl. by rewrite !app_nil_r.
  - set (s := {| sock_port := p; sock_id := fresh st |}).
    simpl in Hall. fold s in Hall. inversion Hall as [|? ? Hb Hrest]; subst.
    destruct (IH (set_ss (ss st ++ [s])
                    (add_log (EvListen s)
                       (add_log (EvBind s true) (set_fresh (S (fresh st)) st)))))
      as (st' & Hrun & Hlog & Hss); [exact Hrest|].
    exists st'. split.
    { cbn [for_each]. unfold bnd at 1. unfold bnd at 1. unfold new_socket at 1.
      fold s. unfold bnd at 1. unfold bind_socket at 1. rewrite Hb. exact Hrun. }
    rewrite Hlog, Hss. simpl. fold s. by rewrite <- !app_assoc.
Qed.

Lemma build_events_observed l :
  closed_endpoints (flat_map build_events l) = []
  /\ bind_attempts (flat_map build_events l) = map (fun s => (s, true)) l.
Proof.
  induction l as [|s l [IH1 IH2]]; [done|].
  split.
  - exact IH1.
  - change (bind_attempts (flat_map build_events (s :: l)))
      with ((s, true) :: bind_attempts (flat_map build_events l)).
    by rewrite IH2.
Qed.

Lemma build_endpoints_no_close A E st :
  closed_endpoints (events_of (build_endpoints A E) st) = [].
Proof.
  assert (Hm : respects (log_only not_close) (build_endpoints A E)).
  { unfold build_endpoints, listen, ss_append. log_only_tac not_close.
    all: first [ apply new_socket_log
               | by apply bind_socket_log
               | apply respects_emit; intros ?; by apply log_only_add
               | apply respects_modify; intros ?; by apply log_only_same ]. }
  destruct (log_only_events not_close (build_endpoints A E) st Hm) as [_ Hall].
  induction Hall as [|e l He _ IH]; [done|]. by destruct e.
Qed.

Lemma build_endpoints_keeps A E : respects keeps_endpoints (build_endpoints A E).
Proof.
  assert (Hrefl : forall st, keeps_endpoints st st)
    by (intros ?; exists []; by rewrite app_nil_r).
  assert (Htrans : forall a b c,
             keeps_endpoints a b -> keeps_endpoints b c -> keeps_endpoints a c).
  { intros a b c [l1 H1] [l2 H2]. exists (l1 ++ l2). by rewrite H2, H1, app_assoc. }
  unfold build_endpoints, new_socket, bind_socket, listen, ss_append.
  repeat (respects_step Hrefl Htrans).
  all: first [ apply respects_modify; intros ?; by eexists
             | apply respects_emit; intros ?; exists []; simpl; by rewrite app_nil_r
             | intros ?; try destruct (bind_ok _ _); exists []; simpl;
               by rewrite app_nil_r ].
Qed.

(** X10.  The build at the head of the loop closes no endpoint and keeps the
    endpoints it finds.  From no endpoint at all, when every bind succeeds,
    it gives one endpoint per port, in the order of the ports, and the next
    head binds nothing.  When endpoints are still listening but are not as
    many as the ports, as after a rebuild in which a bind failed, and the
    socket layer refuses an address in use, the bind of a port that one of
    them holds raises [OSError] at the head, where no handler catches it. *)
Theorem X10_head_build A E st :
  length (ss st) <> length (ports A) ->
  let st' := snd (build_endpoints A E st) in
  let evs := events_of (build_endpoints A E) st in
  closed_endpoints evs = []
  /\ (forall s, In s (ss st) -> In s (ss st'))
  /\ (ss st = [] ->
      Forall (fun s => bind_ok E s = true) (new_sockets (fresh st) (ports A)) ->
      fst (build_endpoints A E st) = Ok tt
      /\ ss st' = new_sockets (fresh st) (ports A)
      /\ map sock_port (ss st') = ports A
      /\ bind_attempts evs
         = map (fun s => (s, true)) (new_sockets (fresh st) (ports A))
      /\ forall E', build_endpoints A E' st' = (Ok tt, st'))
  /\ (refuses_held E st ->
      (exists p, In p (ports A) /\ In p (map sock_port (ss st))) ->
      fst (build_endpoints A E st) = Raise OSError).
Proof.
  intros Hlen st' evs. subst st' evs.
  split; [apply build_endpoints_no_close|].
  split.
  { intros s Hs. destruct (build_endpoints_keeps A E st) as [l ->].
    apply in_or_app. by left. }
  split.
  - intros Hnil Hall.
    destruct (build_loop_full E (ports A) st Hall) as (st' & Hrun & Hlog & Hss).
    assert (Hb : build_endpoints A E st = (Ok tt, st')).
    { unfold build_endpoints. unfold bnd at 1. unfold get at 1.
      apply Nat.eqb_neq in Hlen. rewrite Hlen. cbn [negb]. exact Hrun. }
    rewrite (events_of_intro (build_endpoints A E) st
               (flat_map build_events (new_sockets (fresh st) (ports A))))
      by (by rewrite Hb).
    rewrite Hb. cbn [fst snd]. rewrite Hnil in Hss. simpl in Hss.
    destruct (build_events_observed (new_sockets (fresh st) (ports A))) as [_ Hbind].
    split; [done|]. split; [exact Hss|].
    split; [rewrite Hss; apply new_sockets_ports|]. split; [exact Hbind|].
    intros E'. apply build_endpoints_skip. rewrite Hss. apply new_sockets_length.
  - intros Href (p & Hp & Hheld).
    apply build_endpoints_fails; [exact Hlen|].
    rewrite <- (new_sockets_ports (fresh st) (ports A)) in Hp.
    apply in_map_iff in Hp as (s & Hs & Hin).
    apply List.Exists_exists. exists s. split; [exact Hin|].
    apply Href. by rewrite Hs.
Qed.

Lemma X10_witness :
  let A := Sample.args_of [5000; 5001] in
  let E := Sample.env_of [5000] (fun _ => Sample.line "42") Sample.tab_ex in
  length (ss Sample2.listening1) <> length (ports A)
  /\ fst (build_endpoints A E Sample2.listening1) = Raise OSError
  /\ closed_endpoints (events_of (build_endpoints A E) Sample2.listening1) = [].
Proof.
  intros A E.
  assert (Hlen : length (ss Sample2.listening1) <> length (ports A))
    by (simpl; lia).
  destruct (X10_head_build A E Sample2.listening1 Hlen) as (Hc & _ & _ & Hfail).
  split; [exact Hlen|]. split; [|exact Hc].
  apply Hfail.
  - intros s [Hs|[]]. unfold E. simpl. rewrite <- Hs. reflexivity.
  - exists 5000. split; simpl; by left.
Defined.

(** ** The decision engine: when it names, writes and counts *)

(** X11.  When clustering, peak extraction, counting, the wide fraction and
    the threshold filter all return, the trigger/naming step is invoked at
    most once: exactly when [outroot] is given, the filtered set has rows
    and the batch is not boxcar-filtered.  It is handed the sum of the
    window after this batch's push, the wide fraction of the clustered
    table, the batch id, the previous name and trigger time, and the
    debounce interval of 60 seconds. *)
Theorem X11_naming_step_invoked C A tab tab1 tab2 tab3 nb fw gulp ln prev st :
  cluster_data C tab = Ok tab1 -> get_peak C tab1 = Ok tab2 ->
  get_nbeams C tab2 = Ok nb -> frac_wide_of tab1 = Ok fw ->
  filter_clustered C tab2 = Ok tab3 ->
  naming_calls (events_of (cluster_and_plot C A tab gulp ln prev) st)
  = if is_some (outroot A) && negb (length tab3 =? 0)%nat
       && negb (ibox64_filter_of tab2)
    then [ {| na_trigger := trigger A; na_lastname := ln; na_gulp := gulp;
              na_nbeams := sum_queue (deque_append nbeams_maxlen nb (nbeams_queue st));
              na_frac_wide := fw; na_prev_trig_time := prev;
              na_min_timedelt := 60 |} ]
    else [].
Proof.
  intros Hcd Hgp Hnb Hfw Hfc.
  unfold events_of, cluster_and_plot, nbeams_queue_append, bnd, lift, modify, ret,
    emit, get.
  rewrite Hcd, Hgp, Hnb, Hfw, Hfc.
  destruct (is_some (outroot A) && negb (length tab3 =? 0)%nat
            && negb (ibox64_filter_of tab2)).
  - destruct (naming_block C A tab2 tab3 _) as [[[t4 ln1] tt1]|e];
      [destruct (is_some (outroot A) && negb (length tab2 =? 0)%nat);
         [destruct (set_trigger_col C tab2 _); [destruct (write_output C tab2 _)|]|]|];
      simpl; by rewrite <- ?app_assoc, drop_app_length.
  - destruct (is_some (outroot A) && negb (length tab2 =? 0)%nat);
      [destruct (set_trigger_col C tab2 _); [destruct (write_output C tab2 _)|]|];
      simpl; by rewrite <- ?app_assoc, ?drop_app_length, ?drop_all.
Qed.

Lemma X11_witness :
  let C := Sample.engine_of Sample.tab_ex in
  naming_calls (events_of (cluster_and_plot C Sample2.args3 Sample.tab_ex 42 None 7)
                  Sample.st0)
  = [ {| na_trigger := true; na_lastname := None; na_gulp := 42; na_nbeams := 3;
         na_frac_wide := FQuot 0; na_prev_trig_time := 7; na_min_timedelt := 60 |} ].
Proof.
  intros C.
  exact (X11_naming_step_invoked C Sample2.args3 Sample.tab_ex Sample.tab_ex
           Sample.tab_ex Sample.tab_ex 3 (FQuot 0) 42 None 7 Sample.st0
           eq_refl eq_refl eq_refl eq_refl eq_refl).
Defined.

(** X12.  When the steps before the naming block return, the peak rows are
    handed to the output aggregator exactly when [outroot] is given, there is
    at least one peak row, the naming block, if it is entered, returns (the
    trigger/naming step and the overload of the trigger column that follows
    it) and the trigger column can be set on the peak rows.  Neither the
    boxcar flag nor an empty filtered set prevents the output.  An exception
    in the naming block does: nothing is handed to the aggregator and the
    exception leaves the decision engine. *)
Theorem X12_output_written C A tab tab1 tab2 tab3 nb fw gulp ln prev st :
  cluster_data C tab = Ok tab1 -> get_peak C tab1 = Ok tab2 ->
  get_nbeams C tab2 = Ok nb -> frac_wide_of tab1 = Ok fw ->
  filter_clustered C tab2 = Ok tab3 ->
  let a := {| na_trigger := trigger A; na_lastname := ln; na_gulp := gulp;
              na_nbeams := sum_queue (deque_append nbeams_maxlen nb (nbeams_queue st));
              na_frac_wide := fw; na_prev_trig_time := prev;
              na_min_timedelt := 60 |} in
  let entered := is_some (outroot A) && negb (length tab3 =? 0)%nat
                 && negb (ibox64_filter_of tab2) in
  let evs := events_of (cluster_and_plot C A tab gulp ln prev) st in
  (forall col ln1 tt1,
     (if entered then naming_block C A tab2 tab3 a
      else Ok (zeros (length tab2), ln, None)) = Ok (col, ln1, tt1) ->
     output_calls evs
     = if is_some (outroot A) && negb (length tab2 =? 0)%nat
       then match set_trigger_col C tab2 col with
            | Ok _ => [tab2]
            | Raise _ => []
            end
       else [])
  /\ (forall e, entered = true -> naming_block C A tab2 tab3 a = Raise e ->
      output_calls evs = []
      /\ fst (cluster_and_plot C A tab gulp ln prev st) = Raise e).
Proof.
  intros Hcd Hgp Hnb Hfw Hfc a entered evs. subst entered evs.
  unfold events_of, cluster_and_plot, nbeams_queue_append, bnd, lift, modify, ret,
    emit, get.
  rewrite Hcd, Hgp, Hnb, Hfw, Hfc.
  destruct (is_some (outroot A) && negb (length tab3 =? 0)%nat
            && negb (ibox64_filter_of tab2)).
  - split.
    + intros col ln1 tt1 Hv.
      match goal with
      | |- context [naming_block C A tab2 tab3 ?x] => change x with a
      end. rewrite Hv.
      destruct (is_some (outroot A) && negb (length tab2 =? 0)%nat);
        [destruct (set_trigger_col C tab2 col); [destruct (write_output C tab2 _)|]|];
        simpl; by rewrite <- ?app_assoc, drop_app_length.
    + intros e _ He.
      match goal with
      | |- context [naming_block C A tab2 tab3 ?x] => change x with a
      end. rewrite He. simpl.
      by rewrite <- ?app_assoc, drop_app_length.
  - split; [|discriminate]. intros col ln1 tt1 [= <- <- <-].
    destruct (is_some (outroot A) && negb (length tab2 =? 0)%nat);
      [destruct (set_trigger_col C tab2 _); [destruct (write_output C tab2 _)|]|];
      simpl; by rewrite <- ?app_assoc, ?drop_app_length, ?drop_all.
Qed.

Lemma X12_witness :
  let C := Sample.engine_of Sample.tab_90 in
  ibox64_filter_of Sample.tab_90 = true
  /\ output_calls (events_of (cluster_and_plot C Sample2.args3 Sample.tab_90 42 None 7)
                     Sample.st0) = [Sample.tab_90].
Proof.
  intros C.
  split; [vm_compute; reflexivity|].
  destruct (X12_output_written C Sample2.args3 Sample.tab_90 Sample.tab_90
              Sample.tab_90 Sample.tab_90 20 (FQuot (18 # 20)) 42 None 7 Sample.st0
              eq_refl eq_refl eq_refl eq_refl eq_refl) as [Hout _].
  exact (Hout (zeros 20) None None eq_refl).
Defined.

(** A trigger whose column cannot be computed: the naming step has run, the
    output is not written and the exception leaves the decision engine. *)
Example trigger_column_raises :
  let C := Sample2.engine_where_raising Sample.tab_ex "220101aaaa" 9 ValueError in
  let run := cluster_and_plot C Sample2.args3 Sample.tab_ex 42 None 7 in
  fst (run Sample.st0) = Raise ValueError
  /\ length (naming_calls (events_of run Sample.st0)) = 1%nat
  /\ output_calls (events_of run Sample.st0) = [].
Proof. vm_compute. by repeat split. Qed.

(** X13.  With [outroot] left at its default of [None] the decision engine
    invokes neither the trigger/naming step nor the output aggregator, and
    when it returns it returns the name it was given and no trigger time:
    such a run never triggers. *)
Theorem X13_no_outroot_no_trigger C A tab gulp ln prev st :
  outroot A = None ->
  events_of (cluster_and_plot C A tab gulp ln prev) st = []
  /\ (forall named st2,
        cluster_and_plot C A tab gulp ln prev st = (Ok named, st2) ->
        named = (ln, None)).
Proof.
  intros Hout.
  assert (Hev : events_of (cluster_and_plot C A tab gulp ln prev) st = []).
  { unfold events_of, cluster_and_plot, nbeams_queue_append, bnd, lift, modify, ret,
      emit, get.
    rewrite Hout. cbn [is_some andb].
    destruct (cluster_data C tab) as [tab1|e]; [|simpl; apply drop_all].
    destruct (get_peak C tab1) as [tab2|e]; [|simpl; apply drop_all].
    destruct (get_nbeams C tab2) as [nb|e]; [|simpl; apply drop_all].
    destruct (frac_wide_of tab1) as [fw|e]; [|simpl; apply drop_all].
    destruct (filter_clustered C tab2) as [tab3|e]; simpl; apply drop_all. }
  split; [exact Hev|].
  intros named st2 Hrun.
  apply (cluster_and_plot_unnamed C A tab gulp ln prev st named st2 Hrun).
  by rewrite Hev.
Qed.

Lemma X13_witness :
  outroot Sample2.args_no_out = None
  /\ events_of (cluster_and_plot (Sample2.engine_triggering Sample.tab_ex "cand" 99)
                  Sample2.args_no_out Sample.tab_ex 42 None 7) Sample.st0 = []
  /\ fst (cluster_and_plot (Sample2.engine_triggering Sample.tab_ex "cand" 99)
            Sample2.args_no_out Sample.tab_ex 42 None 7 Sample.st0)
     = Ok (None, None).
Proof.
  split; [reflexivity|].
  destruct (X13_no_outroot_no_trigger (Sample2.engine_triggering Sample.tab_ex "cand" 99)
              Sample2.args_no_out Sample.tab_ex 42 None 7 Sample.st0 eq_refl)
    as [Hev Hret].
  split; [exact Hev|].
  destruct (cluster_and_plot (Sample2.engine_triggering Sample.tab_ex "cand" 99)
              Sample2.args_no_out Sample.tab_ex 42 None 7 Sample.st0)
    as [[named|e] st2] eqn:Hrun.
  - by rewrite (Hret named st2 eq_refl).
  - vm_compute in Hrun. discriminate.
Defined.

(** X14.  The window receives the beam count of a batch as soon as
    clustering, peak extraction and counting have returned, and keeps it
    whatever happens to the batch afterwards, an exception included; when
    one of those three steps raises, the window is left as it was. *)
Theorem X14_window_push C A tab gulp ln prev st :
  nbeams_queue (snd (cluster_and_plot C A tab gulp ln prev st))
  = match peak_count C tab with
    | Ok nb => deque_append nbeams_maxlen nb (nbeams_queue st)
    | Raise _ => nbeams_queue st
    end.
Proof.
  unfold peak_count, cluster_and_plot, nbeams_queue_append, bnd, lift, modify, ret,
    emit, get.
  destruct (cluster_data C tab) as [tab1|e]; [|done].
  destruct (get_peak C tab1) as [tab2|e]; [|done].
  destruct (get_nbeams C tab2) as [nb|e]; [|done].
  destruct (frac_wide_of tab1) as [fw|e]; [|done].
  destruct (filter_clustered C tab2) as [tab3|e]; [|done].
  destruct (is_some (outroot A) && negb (length tab3 =? 0)%nat
            && negb (ibox64_filter_of tab2)).
  - destruct (naming_block C A tab2 tab3 _) as [[[t4 ln1] tt1]|e]; [|done].
    destruct (is_some (outroot A) && negb (length tab2 =? 0)%nat);
      [destruct (set_trigger_col C tab2 _); [by destruct (write_output C tab2 _)|done]|done].
  - destruct (is_some (outroot A) && negb (length tab2 =? 0)%nat);
      [destruct (set_trigger_col C tab2 _); [by destruct (write_output C tab2 _)|done]|done].
Qed.

(** *** The wide fraction, in full *)

Lemma count_if_le {A} (p : A -> bool) (l : list A) : (count_if p l <= length l)%nat.
Proof. unfold count_if. apply filter_length_le. Qed.

Lemma np_le_refl (a : npval) : a <> VNaN -> np_le a a = true.
Proof.
  destruct a; try done. intros _. simpl. apply Qle_bool_iff, Qle_refl.
Qed.

Lemma np_le_trans (a b c : npval) :
  np_le a b = true -> np_le b c = true -> np_le a c = true.
Proof.
  destruct a, b, c; simpl; try done.
  rewrite !Qle_bool_iff. apply Qle_trans.
Qed.

Lemma np_le_total (a b : npval) :
  a <> VNaN -> b <> VNaN -> np_le a b = false -> np_le b a = true.
Proof.
  destruct a as [| |p|], b as [| |q|]; simpl; try done.
  intros _ _ Hpq. apply Qle_bool_iff.
  destruct (Qlt_le_dec p q) as [Hlt|Hle]; [|done].
  apply Qlt_le_weak, Qle_bool_iff in Hlt. congruence.
Qed.

(** The maximum of a column without NaN bounds every entry. *)
Lemma pick_max_bound (l : list npval) : forall x y,
  ~ In VNaN (x :: l) -> In y (x :: l) ->
  np_le y (fold_left np_maximum l x) = true.
Proof.
  induction l as [|z l IH]; intros x y Hnan Hin.
  - destruct Hin as [->|[]]. simpl. apply np_le_refl. intros ->. apply Hnan. by left.
  - cbn [fold_left].
    assert (Hx : x <> VNaN) by (intros ->; apply Hnan; by left).
    assert (Hz : z <> VNaN) by (intros ->; apply Hnan; right; by left).
    assert (Hl : ~ In VNaN l) by (intros H; apply Hnan; right; by right).
    assert (Hmax : np_maximum x z = if np_le x z then z else x)
      by (by destruct x, z).
    rewrite Hmax.
    destruct (np_le x z) eqn:Hxz.
    + assert (Hn : ~ In VNaN (z :: l)) by (intros [H|H]; [by apply Hz | by apply Hl]).
      destruct Hin as [->|[->|Hin]].
      * eapply np_le_trans; [exact Hxz|]. apply IH; [exact Hn | by left].
      * apply IH; [exact Hn | by left].
      * apply IH; [exact Hn | by right].
    + assert (Hn : ~ In VNaN (x :: l)) by (intros [H|H]; [by apply Hx | by apply Hl]).
      pose proof (np_le_total x z Hx Hz Hxz) as Hzx.
      destruct Hin as [->|[->|Hin]].
      * apply IH; [exact Hn | by left].
      * eapply np_le_trans; [exact Hzx|]. apply IH; [exact Hn | by left].
      * apply IH; [exact Hn | by right].
Qed.

Lemma col_max_bound (tab : table) (m : npval) :
  col_max (map snr tab) = Ok m -> m <> VNaN ->
  forall r, In r tab -> np_le (snr r) m = true.
Proof.
  destruct tab as [|r0 tab]; [discriminate|].
  simpl. intros [= <-] Hm r Hin.
  apply pick_max_bound.
  - intros Hnan. apply Hm. by apply pick_max_nan.
  - change (snr r0 :: map snr tab) with (map snr (r0 :: tab)). by apply in_map.
Qed.

Lemma np_eq_le (a b c : npval) :
  np_eq b c = true -> np_le a c = true -> np_le a b = true.
Proof.
  destruct a, b, c; simpl; try done.
  rewrite Qeq_bool_iff, !Qle_bool_iff. intros ->. done.
Qed.

Lemma np_eq_trans_r (a b c : npval) :
  np_eq b c = true -> np_eq a b = true -> np_eq a c = true.
Proof.
  destruct a, b, c; simpl; try done.
  rewrite !Qeq_bool_iff. intros Hbc Hab. by rewrite Hab.
Qed.

(** [find] returns the first element that passes the test. *)
Lemma find_first {A} (p : A -> bool) (l : list A) (x : A) :
  List.find p l = Some x ->
  exists pre post, l = pre ++ x :: post /\ p x = true
                   /\ Forall (fun y => p y = false) pre.
Proof.
  induction l as [|y l IH]; [discriminate|].
  simpl. destruct (p y) eqn:Hy.
  - intros [= ->]. exists [], l. by repeat split.
  - intros Hfind. destruct (IH Hfind) as (pre & post & -> & Hx & Hpre).
    exists (y :: pre), post. repeat split; [done|]. by constructor.
Qed.

(** X15.  Whenever the wide fraction of lines 296-304 is computed, it is the
    fraction of one cluster: that of the first row, in table order, whose
    signal-to-noise equals the maximum of the table.  It is 0 for a cluster
    of one row and otherwise the share of the cluster's rows with a boxcar
    index of at least 32, and it always lies between 0 and 1. *)
Theorem X15_frac_wide_is_fraction_of_first_max (tab : table) (f : npfloat) :
  frac_wide_of tab = Ok f ->
  exists pre r post,
    tab = pre ++ r :: post
    /\ (forall x, In x tab -> np_le (snr x) (snr r) = true)
    /\ Forall (fun x => np_eq (snr x) (snr r) = false) pre
    /\ (let members := cluster_ibox tab (cl r) in
        f = if (length members =? 1)%nat then FQuot 0
            else np_div (count_if (fun b => 32 <=? b) members) (length members))
    /\ exists q, f = FQuot q /\ (0 <= q)%Q /\ (q <= 1)%Q.
Proof.
  unfold frac_wide_of.
  destruct (col_max (map snr tab)) as [m|e] eqn:Hmax; [|discriminate].
  pose proof (cl_at_max_member tab m) as Hmem.
  unfold cl_at_max in *.
  destruct (List.find (fun r => np_eq (snr r) m) tab) as [r|] eqn:Hfind;
    [|discriminate].
  specialize (Hmem (cl r) eq_refl).
  intros [= <-].
  destruct (find_first _ _ _ Hfind) as (pre & post & Htab & Hr & Hpre).
  simpl in Hr.
  assert (Hm : m <> VNaN) by (intros ->; by rewrite np_eq_nan in Hr).
  exists pre, r, post. split; [exact Htab|]. split; [|split; [|split; [done|]]].
  - intros x Hx. apply (np_eq_le _ _ m Hr). by apply (col_max_bound tab m Hmax).
  - eapply Forall_impl; [exact Hpre|]. intros x Hx. simpl in Hx.
    destruct (np_eq (snr x) (snr r)) eqn:Heq; [|done].
    by rewrite (np_eq_trans_r _ _ _ Hr Heq) in Hx.
  - set (members := cluster_ibox tab (cl r)) in *.
    destruct (length members =? 1)%nat.
    + exists 0%Q. by repeat split.
    + pose proof (count_if_le (fun b => 32 <=? b) members) as Hle.
      destruct (length members) as [|n] eqn:Hn; [done|].
      unfold np_div. eexists. split; [reflexivity|].
      unfold Qle. cbn [Qnum Qden].
      replace (Z.pos (Pos.of_nat (S n))) with (Z.of_nat (S n))
        by (rewrite <- Pos.of_nat_succ; by rewrite Zpos_P_of_succ_nat, Nat2Z.inj_succ).
      split; lia.
Qed.

Lemma X15_witness :
  let tab := [Sample.mk_row (9 # 1) 64 0; Sample.mk_row (12 # 1) 4 1;
              Sample.mk_row (12 # 1) 64 0; Sample.mk_row (7 # 1) 32 1] in
  frac_wide_of tab = Ok (FQuot (1 # 2))
  /\ exists q, FQuot (1 # 2) = FQuot q /\ (0 <= q)%Q /\ (q <= 1)%Q.
Proof.
  intros tab.
  assert (Hf : frac_wide_of tab = Ok (FQuot (1 # 2))) by (vm_compute; reflexivity).
  split; [exact Hf|].
  destruct (X15_frac_wide_is_fraction_of_first_max tab (FQuot (1 # 2)) Hf)
    as (_ & _ & _ & _ & _ & _ & _ & Hq).
  exact Hq.
Defined.

(** ** The merged body, line by line *)

Lemma split_nonempty s : split s <> [].
Proof. unfold split. by destruct (split_first s). Qed.

Lemma split_cons_nl s : split (String nl s) = EmptyString :: split s.
Proof. unfold split. simpl. by destruct (split_first s). Qed.

Lemma split_cons_other c s :
  c <> nl ->
  split (String c s) = String c (hd EmptyString (split s)) :: tl (split s).
Proof.
  intros Hc. unfold split. simpl. destruct (split_first s) as [w ws].
  by destruct (Ascii.eqb_spec c nl).
Qed.

Lemma glue_cons x l1 l2 : l1 <> [] -> glue (x :: l1) l2 = x :: glue l1 l2.
Proof. intros H. unfold glue. by destruct l1. Qed.

Lemma glue_single w l2 :
  glue [w] l2 = (w +:+ hd EmptyString l2) :: tl l2.
Proof. reflexivity. Qed.

Lemma hd_tl_nonempty (l : list string) : l <> [] -> hd EmptyString l :: tl l = l.
Proof. by destruct l. Qed.

(** Splitting a concatenation fuses the last line of the first part with
    the first line of the second. *)
Lemma split_app s t : split (s +:+ t) = glue (split s) (split t).
Proof.
  induction s as [|c s IH].
  - rewrite append_nil_l. change (split EmptyString) with [EmptyString].
    rewrite glue_single, append_nil_l. symmetry. apply hd_tl_nonempty, split_nonempty.
  - rewrite append_cons. destruct (Ascii.eqb_spec c nl) as [->|Hc].
    + rewrite !split_cons_nl, IH. symmetry. apply glue_cons, split_nonempty.
    + rewrite !split_cons_other by done. rewrite IH.
      pose proof (split_nonempty s) as Hs.
      destruct (split s) as [|w [|w2 ws]]; [done| |].
      * cbn [hd tl]. rewrite !glue_single. cbn [hd tl]. by rewrite append_cons.
      * cbn [hd tl]. rewrite !glue_cons by done. by cbn [hd tl].
Qed.

Lemma split_no_nl s : no_nl s = true -> split s = [s].
Proof.
  induction s as [|c s IH]; [done|]. simpl.
  destruct (Ascii.eqb_spec c nl) as [->|Hc]; [done|]. simpl. intros Hs.
  rewrite split_cons_other by done. by rewrite (IH Hs).
Qed.

(** Joining and splitting again gives the lines back. *)
Lemma split_join (l : list string) :
  l <> [] -> Forall (fun x => no_nl x = true) l -> split (join l) = l.
Proof.
  induction l as [|x l IH]; [done|]. intros _ Hall.
  inversion Hall as [|? ? Hx Hl]; subst.
  destruct l as [|y l]; [by apply split_no_nl|].
  rewrite join_cons2, split_app, (split_no_nl x Hx).
  change (NL +:+ join (y :: l)) with (String nl (join (y :: l))).
  rewrite split_cons_nl, IH by done.
  rewrite glue_single. simpl. by rewrite append_nil_r.
Qed.

Lemma glue_nil_r (l : list string) : l <> [] -> glue l [EmptyString] = l.
Proof.
  intros Hl. unfold glue. simpl. rewrite append_nil_r.
  symmetry. by apply app_removelast_last.
Qed.

Lemma contribution_contributing int_of_str cf :
  contributing int_of_str cf -> contribution int_of_str cf = join (lines_of cf).
Proof.
  intros ([g Hg] & Hlen & Hhd). unfold contribution, lines_of in *. rewrite Hg.
  destruct (Nat.ltb_spec 1 (length (snd (split_first cf)))) as [_|Hle]; [|lia].
  destruct (0 <? String.length (hd EmptyString (snd (split_first cf))))%nat eqn:H0;
    [done|].
  by apply length_zero_iff in H0.
Qed.

Lemma lines_of_no_nl cf : Forall (fun x => no_nl x = true) (lines_of cf).
Proof. apply split_first_no_nl. Qed.

Lemma merged_lines int_of_str cls :
  Forall (contributing int_of_str) cls ->
  split (merged_body int_of_str cls) = foldr glue [EmptyString] (map lines_of cls).
Proof.
  intros Hall. unfold merged_body. rewrite read_all_spec. cbn [fst].
  induction Hall as [|cf cls Hcf _ IH]; [done|].
  cbn [map foldr]. rewrite split_app, IH, (contribution_contributing _ cf Hcf).
  rewrite split_join; [done| |apply lines_of_no_nl].
  destruct Hcf as (_ & Hlen & _). destruct (lines_of cf); [exfalso; simpl in Hlen; lia|done].
Qed.

Lemma glue_length l1 l2 :
  l1 <> [] -> l2 <> [] -> (length (glue l1 l2) + 1 = length l1 + length l2)%nat.
Proof.
  intros H1 H2. unfold glue.
  assert (Hl1 : (length l1 = length (List.removelast l1) + 1)%nat).
  { rewrite (app_removelast_last EmptyString H1) at 1. by rewrite length_app. }
  rewrite !length_app. destruct l2; [done|]. simpl. lia.
Qed.

(** X16.  The merged body is empty or begins with a character other than a
    newline, since every piece appended to it begins with a row that is not
    empty: the comparison [candsfile == "\n"] of line 174 never holds, and
    the skip of that line is taken exactly when the body is empty. *)
Theorem X16_newline_test_never_holds (int_of_str : string -> option Z) cls :
  starts_clean (merged_body int_of_str cls)
  /\ merged_body int_of_str cls <> NL
  /\ (String.eqb (merged_body int_of_str cls) NL
      || String.eqb (merged_body int_of_str cls) EmptyString
      = String.eqb (merged_body int_of_str cls) EmptyString).
Proof.
  pose proof (merged_body_clean int_of_str cls) as Hclean.
  split; [exact Hclean|]. split; [by apply starts_clean_not_NL|].
  apply merged_body_eqb.
Qed.

(** X17.  When every payload of a cycle contributes, the lines of the merged
    body are the lines of the payloads in the order of the connections, but
    at each junction of two payloads the last line of the one and the first
    line of the next have become a single line: the payloads are
    concatenated with no separator. *)
Theorem X17_payloads_fused_at_junctions (int_of_str : string -> option Z) cls :
  Forall (contributing int_of_str) cls ->
  split (merged_body int_of_str cls) = foldr glue [EmptyString] (map lines_of cls)
  /\ forall cf1 cf2, cls = [cf1; cf2] ->
       split (merged_body int_of_str cls)
       = List.removelast (lines_of cf1)
         ++ [List.last (lines_of cf1) EmptyString +:+ hd EmptyString (lines_of cf2)]
         ++ tl (lines_of cf2)
       /\ (length (split (merged_body int_of_str cls)) + 1
           = length (lines_of cf1) + length (lines_of cf2))%nat.
Proof.
  intros Hall. pose proof (merged_lines int_of_str cls Hall) as Hlines.
  split; [exact Hlines|].
  intros cf1 cf2 ->. rewrite Hlines. cbn [map foldr].
  inversion Hall as [|? ? H1 Hrest]; subst.
  inversion Hrest as [|? ? H2 _]; subst.
  assert (Hn1 : lines_of cf1 <> [])
    by (destruct H1 as (_ & Hlen & _); destruct (lines_of cf1); [exfalso; simpl in Hlen; lia|done]).
  assert (Hn2 : lines_of cf2 <> [])
    by (destruct H2 as (_ & Hlen & _); destruct (lines_of cf2); [exfalso; simpl in Hlen; lia|done]).
  rewrite (glue_nil_r _ Hn2). split; [reflexivity|]. by apply glue_length.
Qed.

Lemma X17_witness :
  let cf1 := Sample.line "42" +:+ Sample.line "a" +:+ "b" in
  let cf2 := Sample.line "42" +:+ Sample.line "c" +:+ "d" in
  Forall (contributing py_int) [cf1; cf2]
  /\ split (merged_body py_int [cf1; cf2]) = ["a"; "bc"; "d"].
Proof.
  intros cf1 cf2.
  assert (Hall : Forall (contributing py_int) [cf1; cf2]).
  { repeat constructor; try (by eexists); try (vm_compute; lia);
      vm_compute; discriminate. }
  split; [exact Hall|].
  destruct (X17_payloads_fused_at_junctions py_int [cf1; cf2] Hall) as [_ Hpair].
  destruct (Hpair cf1 cf2 eq_refl) as [Hsplit _].
  rewrite Hsplit. vm_compute. reflexivity.
Defined.

Lemma glue_terminated rows (l2 : list string) :
  l2 <> [] -> glue (rows ++ [EmptyString]) l2 = rows ++ l2.
Proof.
  intros H2. unfold glue. rewrite removelast_last, last_last, append_nil_l.
  by destruct l2.
Qed.

(** X18.  When every payload of a cycle contributes and ends with a newline,
    nothing is fused: the lines of the merged body are exactly the rows of
    all payloads, in the order of the connections, followed by one empty
    line. *)
Theorem X18_terminated_payloads_keep_rows (int_of_str : string -> option Z) cls :
  Forall (terminated int_of_str) cls ->
  split (merged_body int_of_str cls) = concat (map rows_of cls) ++ [EmptyString].
Proof.
  intros Hall.
  rewrite merged_lines by (eapply Forall_impl; [exact Hall|]; by intros ? [? _]).
  induction Hall as [|cf cls [Hc Hlast] _ IH]; [done|].
  cbn [map foldr concat]. rewrite IH.
  assert (Hn : lines_of cf <> [])
    by (destruct Hc as (_ & Hlen & _); destruct (lines_of cf); [exfalso; simpl in Hlen; lia|done]).
  assert (Hlines : lines_of cf = rows_of cf ++ [EmptyString]).
  { unfold rows_of. pose proof (app_removelast_last EmptyString Hn) as H.
    by rewrite Hlast in H. }
  rewrite Hlines at 1. rewrite glue_terminated, app_assoc; [done|].
  by destruct (concat (map rows_of cls)).
Qed.

Lemma X18_witness :
  let cf1 := Sample.line "42" +:+ Sample.line "a" +:+ Sample.line "b" in
  let cf2 := Sample.line "42" +:+ Sample.line "c" in
  Forall (terminated py_int) [cf1; cf2]
  /\ split (merged_body py_int [cf1; cf2]) = ["a"; "b"; "c"; EmptyString].
Proof.
  intros cf1 cf2.
  assert (Hall : Forall (terminated py_int) [cf1; cf2]).
  { repeat constructor; try (by eexists); try (vm_compute; lia);
      try (vm_compute; discriminate); vm_compute; reflexivity. }
  split; [exact Hall|].
  rewrite (X18_terminated_payloads_keep_rows py_int [cf1; cf2] Hall).
  vm_compute. reflexivity.
Defined.

(** ** The injection script *)

(** X19.  Beam numbering of the injection script: on each of the four
    correlator nodes 17..20, whatever the injection number, the sub-beam is
    an odd number below 64 and the beam is an odd number below 256; the beam
    determines both the node (its quotient by 64) and the sub-beam (its
    remainder), and the sub-beams repeat with period 32. *)
Theorem X19_injection_beam_numbering (kk ii : Z) :
  17 <= kk <= 20 ->
  let sb := Injection.subbeam ii in
  let b := Injection.beam kk ii in
  Z.odd sb = true /\ 0 <= sb < 64
  /\ Z.odd b = true /\ 0 <= b < 256
  /\ b / 64 = kk - 17 /\ b mod 64 = sb
  /\ Injection.subbeam (ii + 32) = sb.
Proof.
  intros Hkk sb b. subst sb b. unfold Injection.beam, Injection.subbeam.
  pose proof (Z.mod_pos_bound (2 * ii + 1) 64 ltac:(lia)) as Hb.
  assert (Hodd : Z.odd ((2 * ii + 1) mod 64) = true).
  { rewrite Z.mod_eq by lia.
    replace (2 * ii + 1 - 64 * ((2 * ii + 1) / 64))
      with (1 + 2 * (ii - 32 * ((2 * ii + 1) / 64))) by lia.
    by rewrite Z.odd_add_mul_2. }
  split; [exact Hodd|]. split; [exact Hb|].
  split.
  { replace (64 * (kk - 17) + (2 * ii + 1) mod 64)
      with ((2 * ii + 1) mod 64 + 2 * (32 * (kk - 17))) by lia.
    by rewrite Z.odd_add_mul_2. }
  split; [lia|].
  split.
  { symmetry. apply (Z.div_unique _ 64 _ ((2 * ii + 1) mod 64)); lia. }
  split.
  { symmetry. apply (Z.mod_unique _ 64 (kk - 17)); lia. }
  replace (2 * (ii + 32) + 1) with (2 * ii + 1 + 1 * 64) by lia.
  by rewrite Z.mod_add.
Qed.

Lemma X19_witness :
  17 <= 18 <= 20
  /\ Injection.subbeam 37 = 11 /\ Injection.beam 18 37 = 75
  /\ 75 / 64 = 18 - 17 /\ 75 mod 64 = 11.
Proof.
  assert (Hkk : 17 <= 18 <= 20) by lia.
  destruct (X19_injection_beam_numbering 18 37 Hkk) as (_ & _ & _ & _ & Hq & Hr & _).
  split; [exact Hkk|].
  split; [reflexivity|]. split; [reflexivity|].
  split; [exact Hq|exact Hr].
Defined.

(** ** The minimum DM *)

Lemma ltb_leb (a b : float) : PrimFloat.ltb a b = true -> PrimFloat.leb a b = true.
Proof.
  rewrite FloatAxioms.ltb_spec, FloatAxioms.leb_spec.
  unfold SpecFloat.SFltb, SpecFloat.SFleb.
  by destruct (SpecFloat.SFcompare _ _) as [[]|].
Qed.

(** X20.  Whatever the shared store holds or fails to return, the minimum DM
    handed to the filter is a number and is never below 50.  It is the
    product of the Galactic DM by 0.75 exactly when [use_gal_dm] does not
    read as zero, the look-up of the Galactic DM returned a number and that
    product exceeds 50; in every other case it is 50. *)
Theorem X20_min_dm_at_least_50 (float_of_int : Z -> option float)
    (use_gal_dm gal_dm : option Thresholds.json) :
  let m := Thresholds.min_dm float_of_int use_gal_dm gal_dm in
  let off := match use_gal_dm with Some v => Thresholds.eq_zero v | None => false end in
  let scaled := match gal_dm with
                | Some v => Thresholds.times_075 float_of_int v
                | None => None
                end in
  PrimFloat.leb 50%float m = true
  /\ (off = true -> m = 50%float)
  /\ (off = false -> scaled = None -> m = 50%float)
  /\ (forall x, off = false -> scaled = Some x ->
                PrimFloat.ltb 50%float x = true -> m = x)
  /\ (forall x, off = false -> scaled = Some x ->
                PrimFloat.ltb 50%float x = false -> m = 50%float).
Proof.
  intros m off scaled. subst m off scaled. unfold Thresholds.min_dm.
  destruct use_gal_dm as [u|]; cbn [Thresholds.eq_zero Z.eqb];
    [destruct (Thresholds.eq_zero u)|].
  1: by repeat (split; [done|]).
  all: destruct gal_dm as [v|]; [|by repeat (split; [done|])].
  all: destruct (Thresholds.times_075 float_of_int v) as [x|];
    [|by repeat (split; [done|])].
  all: unfold Thresholds.py_max; destruct (PrimFloat.ltb 50 x) eqn:Hlt.
  all: split; [first [by apply ltb_leb | done]|].
  all: split; [done|]; split; [done|].
  all: split; intros y _ Hy Hy'; injection Hy as ->; congruence.
Qed.

(** The four ways to a minimum DM: a Galactic DM of 100 gives 75, one of 40
    is overruled by the floor of 50, and so are a value that is not a number
    and a [use_gal_dm] of zero. *)
Example min_dm_runs :
  let f := fun z : Z => if z =? 0 then Some 0%float else None in
  Thresholds.min_dm f None (Some (Thresholds.JFloat 100)) = 75%float
  /\ Thresholds.min_dm f (Some (Thresholds.JInt 1)) (Some (Thresholds.JFloat 40)) = 50%float
  /\ Thresholds.min_dm f None (Some (Thresholds.JStr "high")) = 50%float
  /\ Thresholds.min_dm f (Some (Thresholds.JInt 0)) (Some (Thresholds.JFloat 100)) = 50%float
  /\ Thresholds.min_dm f None (Some (Thresholds.JFloat nan)) = 50%float.
Proof. vm_compute. by repeat split. Qed.

(** ** Whole runs *)

Lemma build_endpoints_globct A E : respects keeps_globct (build_endpoints A E).
Proof.
  assert (Hrefl : forall st, keeps_globct st st) by done.
  assert (Htrans : forall a b c, keeps_globct a b -> keeps_globct b c -> keeps_globct a c)
    by (unfold keeps_globct; congruence).
  unfold build_endpoints, new_socket, bind_socket, listen, ss_append.
  repeat (respects_step Hrefl Htrans).
  all: first [ apply respects_emit; by intros ?
             | apply respects_modify; by intros ?
             | intros ?; by destruct (bind_ok _ _) ].
Qed.

(** The account of one iteration. *)
Lemma loop_body_account int_of_str A E st :
  let r := fst (loop_body int_of_str A E st) in
  let st' := snd (loop_body int_of_str A E st) in
  let evs := events_of (loop_body int_of_str A E) st in
  let codes := status_codes evs in
  let handed := length (forwarded_bodies evs) in
  log st' = log st ++ evs
  /\ Forall (fun c => 0 <= c <= 3) codes
  /\ (length codes <= length (service_heartbeats evs) <= 1)%nat
  /\ (globct st <= globct st')%nat
  /\ (globct st' - globct st <= count_code 0 codes)%nat
  /\ (globct st' - globct st + count_code 3 codes <= handed)%nat
  /\ (handed <= globct st' - globct st + count_code 3 codes + 1)%nat
  /\ (r = Ok Continue ->
      handed = (globct st' - globct st + count_code 3 codes)%nat
      /\ length codes = 1%nat /\ length (service_heartbeats evs) = 1%nat).
Proof.
  intros r st' evs codes handed. subst r st' codes handed evs.
  destruct (loop_body_events int_of_str A E st) as [Hside Hcases].
  pose proof (socket_side_no_service _ Hside) as Hbs.
  destruct (socket_side_silent _ Hside) as (Hf & _ & Hst & _).
  destruct (log_only_events socket_side (build_endpoints A E) st
              (build_endpoints_log A E)) as [Hblog _].
  pose proof (build_endpoints_globct A E st) as Hbg. unfold keeps_globct in Hbg.
  destruct (fst (build_endpoints A E st)) as [[]|e].
  - destruct (accept_interrupted E).
    + destruct Hcases as [-> ->]. cbn [fst snd].
      rewrite status_codes_app, forwarded_bodies_app, service_heartbeats_app, Hf, Hst, Hbs.
      assert (Hg : globct (add_log (EvPut "/mon/service/T2service" (Heartbeat 60))
                     (snd (build_endpoints A E st))) = globct st) by exact Hbg.
      rewrite Hg.
      split; [simpl; by rewrite Hblog, <- app_assoc|].
      simpl. unfold count_code. simpl.
      split; [done|]. repeat (split; [lia|]). discriminate.
    + destruct Hcases as [-> ->].
      set (st1 := add_log _ (snd (build_endpoints A E st))) in *.
      set (cls := map (payload E) (ss (snd (build_endpoints A E st)))) in *.
      assert (Hg : globct st1 = globct st) by exact Hbg.
      destruct (log_only_events (fun _ => True) (process_gulp int_of_str A E cls) st1
                  (process_gulp_log int_of_str A E cls)) as [Hplog _].
      rewrite !status_codes_app, !forwarded_bodies_app, !service_heartbeats_app,
        Hf, Hst, Hbs, process_gulp_no_service.
      split; [rewrite Hplog; subst st1; simpl; by rewrite Hblog, <- !app_assoc|].
      change (status_codes [EvPut "/mon/service/T2service" (Heartbeat 60)])
        with (@nil Z).
      change (forwarded_bodies [EvPut "/mon/service/T2service" (Heartbeat 60)])
        with (@nil string).
      change (service_heartbeats [EvPut "/mon/service/T2service" (Heartbeat 60)])
        with [60].
      cbn [app]. clear Hplog. clearbody cls.
      destruct (read_loop_cases int_of_str cls (EmptyString, []))
        as [[texts ->]|(e & He & _)].
      * rewrite process_gulp_texts.
        destruct (cycle_summary int_of_str A E texts st1)
          as [(_ & Hr & Hc & Hfw & _ & Hts)|[(_ & _ & Hr & Hc & Hfw & _ & Hts)
             |[(_ & Hr & Hc & Hfw & _ & Hts)
             |[(_ & _ & Hr & Hc & Hfw & _ & Hts)
              |(_ & Hfw & [(Hr & Hc & Hgl & _)|[(Hr & Hc & Hts)
             |[(Hr & Hc & Hts)|(e & _ & _ & Hr & Hc & Hts)]]])]]]];
          rewrite Hr, Hc, Hfw;
          try (destruct Hts as (_ & Hgl & _)); rewrite Hgl, Hg;
          unfold count_code; simpl;
          (split; [repeat (apply List.Forall_cons; [lia|]); apply List.Forall_nil|]);
          repeat (split; [lia|]);
          first [discriminate | congruence | intros; repeat split; lia ].
      * rewrite (unread_events int_of_str A E cls e st1 He),
          (process_gulp_unread int_of_str A E cls e st1 He).
        cbn [fst snd]. rewrite Hg. unfold count_code. simpl.
        split; [done|]. repeat (split; [lia|]). discriminate.
  - destruct Hcases as [-> ->]. cbn [fst snd].
    rewrite Hf, Hst, Hbs, Hbg.
    split; [exact Hblog|].
    unfold count_code. simpl.
    split; [done|]. repeat (split; [lia|]). discriminate.
Qed.

Lemma count_code_app c a b : count_code c (a ++ b) = (count_code c a + count_code c b)%nat.
Proof. apply count_occ_app. Qed.

(** X21.  The account of a whole run, whatever the collaborators do and
    however many cycles it lasts.  Every status code published is one of 0,
    1, 2, 3; there are never more status codes than liveness heartbeats, nor
    more heartbeats than iterations, and exactly one of each per iteration
    while the loop is still running.  The output counter never goes down,
    and it has advanced by the number of batches handed to the decision
    engine, less those abandoned with status 3, less at most the one batch
    on which the run ended. *)
Theorem X21_run_account (int_of_str : string -> option Z) A Es : forall st,
  let o := fst (parse_socket_loop int_of_str A Es st) in
  let st' := snd (parse_socket_loop int_of_str A Es st) in
  let evs := run_events int_of_str A Es st in
  let codes := status_codes evs in
  let handed := length (forwarded_bodies evs) in
  log st' = log st ++ evs
  /\ Forall (fun c => 0 <= c <= 3) codes
  /\ (length codes <= length (service_heartbeats evs) <= length Es)%nat
  /\ (globct st <= globct st')%nat
  /\ (globct st' - globct st <= count_code 0 codes)%nat
  /\ (globct st' - globct st + count_code 3 codes <= handed)%nat
  /\ (handed <= globct st' - globct st + count_code 3 codes + 1)%nat
  /\ (o = Running ->
      handed = (globct st' - globct st + count_code 3 codes)%nat
      /\ length codes = length Es /\ length (service_heartbeats evs) = length Es).
Proof.
  induction Es as [|E rest IH]; intros st.
  - unfold run_events. cbn [parse_socket_loop fst snd].
    rewrite drop_all, app_nil_r. unfold count_code. simpl.
    split; [done|]. split; [done|]. repeat (split; [lia|]). intros; repeat split; lia.
  - cbv zeta.
    destruct (loop_body_account int_of_str A E st)
      as (Hlog1 & Hall1 & Hlen1 & Hmon1 & Hz1 & Hlo1 & Hhi1 & Hcont1).
    set (evs1 := events_of (loop_body int_of_str A E) st) in *.
    unfold run_events. cbn [parse_socket_loop].
    destruct (loop_body int_of_str A E st) as [[[|]|e] st1] eqn:Hlb; cbn [fst snd] in *.
    + destruct (IH st1) as (Hlog2 & Hall2 & Hlen2 & Hmon2 & Hz2 & Hlo2 & Hhi2 & Hcont2).
      destruct (Hcont1 eq_refl) as (He1 & Hc1 & Hs1).
      unfold run_events in *.
      set (evs2 := drop (length (log st1)) (log (snd (parse_socket_loop int_of_str A rest st1)))) in *.
      rewrite Hlog2, Hlog1, <- app_assoc, drop_app_length.
      rewrite !status_codes_app, !forwarded_bodies_app, !service_heartbeats_app,
        !count_code_app, !length_app.
      split; [done|]. split; [by apply Forall_app|].
      cbn [length]. repeat (split; [lia|]).
      intros Hrun. destruct (Hcont2 Hrun) as (He2 & Hc2 & Hs2). repeat split; lia.
    + rewrite Hlog1, drop_app_length.
      split; [done|]. split; [done|]. cbn [length].
      repeat (split; [lia|]). first [discriminate | congruence].
    + rewrite Hlog1, drop_app_length.
      split; [done|]. split; [done|]. cbn [length].
      repeat (split; [lia|]). first [discriminate | congruence].
Qed.
